(** * ffmpeg_example: the libavcodec pumps of the three example programs

    The repository holds three command-line programs written against the
    libav* C API:

    - [video_decode.cpp]: raw byte stream -> parser -> decoder -> one PGM
      file per frame;
    - [video_encode.cpp]: 25 synthetic pictures -> encoder -> one elementary
      stream, closed by an MPEG sequence end code;
    - [video_hw_decode.cpp]: container -> hardware decoder -> device-to-host
      transfer -> packed raw pictures in one file.

    The programs are embedded as functions of a state-and-exit monad.  The
    libav* library and the C runtime are not part of the repository: they
    appear as the fields of the class [Libav], deterministic functions of an
    opaque library state [Lib], so that every statement below holds for any
    behaviour of the codec engine, the parser, the demuxer and the
    allocator.  Loops that the C code does not bound ([while (ret >= 0)],
    [while (data_size > 0)], [while (true)]) take a fuel argument; when it
    runs out the state reached so far is returned under [OutOfFuel], so that
    safety properties are stated for every finite prefix of a run. *)

From Stdlib Require Import ZArith List String Ascii Bool Lia Sorted.
From Stdlib Require Import DecimalString DecimalZ DecimalPos.
Import ListNotations.
Local Open Scope string_scope.
Local Open Scope list_scope.
Local Open Scope Z_scope.

(** ** C data *)

(** [uint8_t], kept as an integer in [0, 256). *)
Definition byte : Type := Z.

(** Conversion to [size_t] (64 bits, unsigned). *)
Definition to_size_t (z : Z) : Z := z mod 2 ^ 64.

(** Conversion to [int] (32 bits, two's complement). *)
Definition to_int (z : Z) : Z := (z + 2 ^ 31) mod 2 ^ 32 - 2 ^ 31.

(** Conversion to [uint8_t]. *)
Definition to_uint8 (z : Z) : byte := z mod 256.

(** The values [i, i+1, ...] that [count] rounds of a loop with [i++] see. *)
Fixpoint count_from (i : Z) (count : nat) : list Z :=
  match count with
  | O => []
  | S count' => i :: count_from (i + 1) count'
  end.

(** The integers [0, 1, ..., n-1] of a [for (i = 0; i < n; i++)] loop. *)
Definition upto (n : Z) : list Z := count_from 0 (Z.to_nat n).

(** [printf("%d", z)]. *)
Definition dec (z : Z) : string := NilZero.string_of_int (Z.to_int z).

(** [printf("%<width>d", z)]: right-aligned in a field of [width]. *)
Definition dec_pad (width : nat) (z : Z) : string :=
  let s := dec z in
  string_of_list_ascii (repeat " "%char (width - String.length s)) ++ s.

(** The C escape [\n]. *)
Definition nl : string := String (ascii_of_nat 10) EmptyString.

(** The bytes of a C string as they reach a file. *)
Definition bytes_of_string (s : string) : list byte :=
  map (fun c => Z.of_N (N_of_ascii c)) (list_ascii_of_string s).

(** [snprintf(buf, size, ...)]: at most [size - 1] characters are kept. *)
Definition snprintf (size : nat) (s : string) : string :=
  string_of_list_ascii (firstn (size - 1) (list_ascii_of_string s)).

(** [memset(buf + off, v, n)] on an array held as a list. *)
Definition memset (buf : list byte) (off : nat) (v : byte) (n : nat) : list byte :=
  firstn off buf ++ repeat v n ++ skipn (off + n) buf.

(** Storing [src] at the start of the array [buf] (what [fread] does). *)
Definition store (buf src : list byte) : list byte :=
  src ++ skipn (List.length src) buf.

(** ** libav* data, as far as the programs look at it *)

(** [AVPacket]: [pkt_data = None] is a NULL data pointer. *)
Record AVPacket : Type := mkPacket {
  pkt_data : option (list byte);
  pkt_size : Z;
  pkt_pts : Z;
  stream_index : Z
}.

(** [AVFrame]: plane [p] is the memory behind [data[p]], read at a byte
    offset; [linesize p] is the stride of plane [p]. *)
Record AVFrame : Type := mkFrame {
  format : Z;
  width : Z;
  height : Z;
  pts : Z;
  linesize : Z -> Z;
  data : Z -> Z -> byte
}.

(** [AVCodecHWConfig]. *)
Record AVCodecHWConfig : Type := mkHWConfig {
  hwc_pix_fmt : Z;
  hwc_methods : Z;
  hwc_device_type : Z
}.

(** The fields of [AVCodecContext] that [video_encode.cpp] sets. *)
Record AVCodecContext : Type := mkContext {
  bit_rate : Z;
  ctx_width : Z;
  ctx_height : Z;
  time_base : Z * Z;
  framerate : Z * Z;
  gop_size : Z;
  max_b_frames : Z;
  pix_fmt : Z
}.

(** ** The library interface

    Every field is a C function (or constant) of libavcodec, libavformat,
    libavutil or the C runtime that the programs call.  A pointer result
    that the programs only test against NULL is a [bool] ([true]: not
    NULL). *)
Class Libav : Type := {
  Lib : Type;

  (* constants of the headers *)
  AVERROR_EAGAIN : Z;                    (* AVERROR(EAGAIN) *)
  AVERROR_EOF : Z;
  AVERROR_ENOMEM : Z;                    (* AVERROR(ENOMEM) *)
  AV_INPUT_BUFFER_PADDING_SIZE : nat;
  AV_NOPTS_VALUE : Z;
  AV_CODEC_ID_H264 : Z;
  AV_PIX_FMT_YUV420P : Z;
  AV_HWDEVICE_TYPE_NONE : Z;
  AV_CODEC_HW_CONFIG_METHOD_HW_DEVICE_CTX : Z;

  (* set-up *)
  avcodec_find_decoder_by_name : string -> Lib -> bool * Lib;
  avcodec_find_encoder_by_name : string -> Lib -> option Z * Lib;  (* codec->id *)
  av_parser_init : Lib -> bool * Lib;
  avcodec_alloc_context3 : Lib -> bool * Lib;
  av_frame_alloc : Lib -> bool * Lib;
  av_packet_alloc : Lib -> bool * Lib;
  av_opt_set : string -> string -> Lib -> Lib;
  av_err2str : Z -> string;
  avcodec_open2 : option AVCodecContext -> Lib -> Z * Lib;
  av_frame_get_buffer : AVFrame -> Lib -> Z * AVFrame * Lib;

  (* the C runtime *)
  fopen_read : string -> Lib -> option (list byte) * Lib;  (* the file's bytes *)
  fopen_write : string -> Lib -> bool * Lib;
  uninitialized : nat -> byte;           (* content of a fresh stack array *)

  (* parser and codec engine *)
  av_parser_parse2 :                     (* ret, *poutbuf, *poutbuf_size *)
    list byte -> Z -> Lib -> Z * option (list byte) * Z * Lib;
  avcodec_send_packet : option AVPacket -> Lib -> Z * Lib;
  avcodec_receive_frame : Lib -> Z * AVFrame * Lib;
  frame_number : Lib -> Z;               (* dec_ctx->frame_number *)
  avcodec_send_frame : option AVFrame -> Lib -> Z * Lib;
  avcodec_receive_packet : Lib -> Z * AVPacket * Lib;

  (* hardware devices and the demuxer *)
  av_hwdevice_find_type_by_name : string -> Z;
  av_hwdevice_types : list Z;            (* walked by av_hwdevice_iterate_types *)
  av_hwdevice_get_type_name : Z -> string;
  avformat_open_input : string -> Lib -> Z * Lib;
  avformat_find_stream_info : Lib -> Z * Lib;
  av_find_best_stream : Lib -> Z * string * Lib;   (* index, decoder->name *)
  avcodec_hw_configs : Lib -> list AVCodecHWConfig; (* avcodec_get_hw_config(decoder, i) *)
  avcodec_parameters_to_context : Z -> Lib -> Z * Lib;
  av_hwdevice_ctx_create : Z -> Lib -> Z * Lib;
  av_read_frame : Lib -> Z * AVPacket * Lib;
  av_packet_unref : AVPacket -> AVPacket;
  av_hwframe_transfer_data : AVFrame -> Lib -> Z * AVFrame * Lib;

  (* libavutil/imgutils *)
  av_image_get_buffer_size : Z -> Z -> Z -> Z -> Z;
  av_malloc : Z -> Lib -> bool * Lib;
  av_image_copy_to_buffer :
    Z -> (Z -> Z -> byte) -> (Z -> Z) -> Z -> Z -> Z -> Z -> Z * list byte
}.

(** ** Programs: state, [exit], undefined behaviour and fuel *)

Section Outcome.
Variable W : Type.

Inductive outcome (A : Type) : Type :=
| Done (a : A) (w : W)        (* the function returned [a] *)
| Exit (code : Z) (w : W)     (* [exit(code)] was called *)
| Fault (w : W)               (* undefined behaviour: a NULL [FILE*] is used *)
| OutOfFuel (w : W).          (* a loop was cut off *)

Definition prog (A : Type) : Type := W -> outcome A.

Definition pure {A} (a : A) : prog A := fun w => Done A a w.

Definition bind {A B} (m : prog A) (k : A -> prog B) : prog B :=
  fun w => match m w with
           | Done _ a w' => k a w'
           | Exit _ c w' => Exit B c w'
           | Fault _ w' => Fault B w'
           | OutOfFuel _ w' => OutOfFuel B w'
           end.

Definition exit {A} (code : Z) : prog A := fun w => Exit A code w.
Definition fault {A} : prog A := fun w => Fault A w.
Definition out_of_fuel {A} : prog A := fun w => OutOfFuel A w.

Definition gets {A} (f : W -> A) : prog A := fun w => Done A (f w) w.
Definition modify (f : W -> W) : prog unit := fun w => Done unit tt (f w).

(** [if (b) m;] *)
Definition when (b : bool) (m : prog unit) : prog unit :=
  if b then m else pure tt.

(** The state in which a run stopped, whatever the reason. *)
Definition final {A} (o : outcome A) : W :=
  match o with
  | Done _ _ w | Exit _ _ w | Fault _ w | OutOfFuel _ w => w
  end.
End Outcome.

Arguments Done {W A} a w.
Arguments Exit {W A} code w.
Arguments Fault {W A} w.
Arguments OutOfFuel {W A} w.
Arguments pure {W A} a _.
Arguments bind {W A B} m k _.
Arguments final {W A} o.
Arguments exit {W A} code _.
Arguments fault {W A} _.
Arguments out_of_fuel {W A} _.
Arguments gets {W A} f _.
Arguments modify {W} f _.
Arguments when {W} b m _.

Declare Scope prog_scope.
Delimit Scope prog_scope with prog.
Notation "x <- m ;; k" := (bind m (fun x => k))
  (at level 61, m at next level, right associativity) : prog_scope.
Notation "' pat <- m ;; k" := (bind m (fun x => match x with pat => k end))
  (at level 61, pat pattern, m at next level, right associativity) : prog_scope.
Notation "m ;; k" := (bind m (fun _ => k))
  (at level 61, right associativity) : prog_scope.

(** ** Specifications of programs

    [triple P m Q I]: started in a state that satisfies [P], the program
    [m] either returns a value [a] in a state that satisfies [Q a], or
    stops for another reason ([exit], undefined behaviour, no fuel) in a
    state that satisfies [I]. *)
Definition triple {W A} (P : W -> Prop) (m : prog W A)
  (Q : A -> W -> Prop) (I : W -> Prop) : Prop :=
  forall w, P w ->
    match m w with
    | Done a w' => Q a w'
    | Exit _ w' | Fault w' | OutOfFuel w' => I w'
    end.

(** [invariant I m]: started in a state that satisfies [I], the program [m]
    stops, for whatever reason, in a state that satisfies [I]. *)
Definition invariant {W A} (I : W -> Prop) (m : prog W A) : Prop :=
  forall w, I w -> I (final (m w)).

(** [exits X m]: whenever [m] calls [exit(code)], in a state [w], then
    [X code w]. *)
Definition exits {W A} (X : Z -> W -> Prop) (m : prog W A) : Prop :=
  forall w, match m w with
            | Exit code w' => X code w'
            | _ => True
            end.

(** ** The call log

    Ghost state: every call of the parser, the codec engine and the demuxer
    is appended here with its arguments and results, oldest first.  The
    programs never read it. *)
Inductive event : Type :=
| EvFread (chunk : list byte)
| EvParse (buf : list byte) (cursor buf_size ret out_size : Z)
| EvSendPacket (pkt : option AVPacket) (ret : Z)
| EvReceiveFrame (ret : Z) (fmt : Z) (count : Z)
| EvSendFrame (pts : option Z) (ret : Z)
| EvReceivePacket (ret : Z) (pkt : AVPacket)
| EvReadFrame (ret : Z) (pkt : AVPacket)
| EvTransfer (ret : Z)
| EvCopy (dst_size : Z) (fmt w h : Z) (align : Z)
| EvBestStream (ret : Z).

(** * video_decode.cpp *)
Module Decode.
Section Program.
Context {av : Libav}.

Local Open Scope prog_scope.

Definition INBUF_SIZE : Z := 4096.

(** The process: library state, the two output streams, the files written
    by [pgm_save], the input [FILE] (its unread bytes and its end-of-file
    indicator), the locals [inbuf], [data] (as an offset into [inbuf], here
    [cursor]) and [data_size] of [main], and the call log. *)
Record world : Type := mkWorld {
  lib : Lib;
  stdout : list string;
  stderr : list string;
  saved : list (string * list byte);
  fin : list byte;
  fin_eof : bool;
  inbuf : list byte;
  cursor : Z;
  data_size : Z;
  log : list event
}.

Definition set_lib (l : Lib) (w : world) : world :=
  mkWorld l (stdout w) (stderr w) (saved w) (fin w) (fin_eof w) (inbuf w)
    (cursor w) (data_size w) (log w).
Definition set_stdout (x : list string) (w : world) : world :=
  mkWorld (lib w) x (stderr w) (saved w) (fin w) (fin_eof w) (inbuf w)
    (cursor w) (data_size w) (log w).
Definition set_stderr (x : list string) (w : world) : world :=
  mkWorld (lib w) (stdout w) x (saved w) (fin w) (fin_eof w) (inbuf w)
    (cursor w) (data_size w) (log w).
Definition set_saved (x : list (string * list byte)) (w : world) : world :=
  mkWorld (lib w) (stdout w) (stderr w) x (fin w) (fin_eof w) (inbuf w)
    (cursor w) (data_size w) (log w).
Definition set_file (x : list byte) (eof : bool) (w : world) : world :=
  mkWorld (lib w) (stdout w) (stderr w) (saved w) x eof (inbuf w)
    (cursor w) (data_size w) (log w).
Definition set_inbuf (x : list byte) (w : world) : world :=
  mkWorld (lib w) (stdout w) (stderr w) (saved w) (fin w) (fin_eof w) x
    (cursor w) (data_size w) (log w).
Definition set_cursor (x : Z) (w : world) : world :=
  mkWorld (lib w) (stdout w) (stderr w) (saved w) (fin w) (fin_eof w) (inbuf w)
    x (data_size w) (log w).
Definition set_data_size (x : Z) (w : world) : world :=
  mkWorld (lib w) (stdout w) (stderr w) (saved w) (fin w) (fin_eof w) (inbuf w)
    (cursor w) x (log w).
Definition set_log (x : list event) (w : world) : world :=
  mkWorld (lib w) (stdout w) (stderr w) (saved w) (fin w) (fin_eof w) (inbuf w)
    (cursor w) (data_size w) x.

(** The process as [main] finds it. *)
Definition start (l : Lib) : world := mkWorld l [] [] [] [] false [] 0 0 [].

(** A library call. *)
Definition call {A} (f : Lib -> A * Lib) : prog world A :=
  fun w => Done (fst (f (lib w))) (set_lib (snd (f (lib w))) w).

Definition note (e : event) : prog world unit :=
  modify (fun w => set_log (log w ++ [e]) w).

Definition printf (s : string) : prog world unit :=
  modify (fun w => set_stdout (stdout w ++ [s]) w).

(** [fprintf(stderr, ...)]. *)
Definition eprintf (s : string) : prog world unit :=
  modify (fun w => set_stderr (stderr w ++ [s]) w).

(** What [pgm_save] writes: the header, then [ysize] rows of [xsize] bytes
    taken [wrap] bytes apart. *)
Definition pgm_bytes (buf : Z -> byte) (wrap xsize ysize : Z) : list byte :=
  bytes_of_string ("P5" ++ nl ++ dec xsize ++ " " ++ dec ysize ++ nl ++ dec 255 ++ nl)
  ++ flat_map (fun i => map (fun x => buf (i * wrap + x)) (upto xsize)) (upto ysize).

(** [pgm_save]: the result of [fopen] is not tested. *)
Definition pgm_save (buf : Z -> byte) (wrap xsize ysize : Z) (filename : string)
  : prog world unit :=
  f <- call (fopen_write filename) ;;
  if negb f then fault
  else modify (fun w => set_saved (saved w ++ [(filename, pgm_bytes buf wrap xsize ysize)]) w).

(** The [while (ret >= 0)] loop of [decode]. *)
Fixpoint drain (fuel : nat) (filename : string) (ret : Z) : prog world unit :=
  if ret <? 0 then pure tt else
  match fuel with
  | O => out_of_fuel
  | S fuel' =>
    '(ret, frame) <- call avcodec_receive_frame ;;
    count <- gets (fun w => frame_number (lib w)) ;;
    note (EvReceiveFrame ret (format frame) count) ;;
    if (ret =? AVERROR_EAGAIN) || (ret =? AVERROR_EOF) then pure tt
    else if ret <? 0 then
      eprintf ("Error during decoding" ++ nl) ;; exit 1
    else
      n <- gets (fun w => frame_number (lib w)) ;;
      printf ("saving frame " ++ dec_pad 3 n ++ nl) ;;
      let buf := snprintf 1024 (filename ++ "-" ++ dec n) in
      pgm_save (data frame 0) (linesize frame 0) (width frame) (height frame) buf ;;
      drain fuel' filename ret
  end.

(** [decode(dec_ctx, frame, pkt, filename)]. *)
Definition decode (fuel : nat) (pkt : option AVPacket) (filename : string)
  : prog world unit :=
  ret <- call (avcodec_send_packet pkt) ;;
  note (EvSendPacket pkt ret) ;;
  if ret <? 0 then
    eprintf ("Error sending a packet for decoding" ++ nl) ;; exit 1
  else drain fuel filename ret.

(** The bytes that [fread(inbuf, 1, n, f)] takes from the file. *)
Definition next_chunk (n : Z) (w : world) : list byte :=
  firstn (Z.to_nat n) (fin w).

(** The process after [fread(inbuf, 1, n, f)]: the bytes are at the start
    of [inbuf]; the end-of-file indicator is set when fewer than [n] bytes
    were left. *)
Definition after_fread (n : Z) (w : world) : world :=
  set_log (log w ++ [EvFread (next_chunk n w)])
    (set_inbuf (store (inbuf w) (next_chunk n w))
      (set_file (skipn (Z.to_nat n) (fin w))
                (fin_eof w || (Z.of_nat (List.length (fin w)) <? n)) w)).

(** [fread(inbuf, 1, n, f)], with the number of bytes read. *)
Definition fread (n : Z) : prog world Z :=
  fun w => Done (Z.of_nat (List.length (next_chunk n w))) (after_fread n w).

(** The bytes from the cursor to the end of the array: what the parser can
    reach through the pointer [data]. *)
Definition window (w : world) : list byte :=
  skipn (Z.to_nat (cursor w)) (inbuf w).

(** The [while (data_size > 0)] loop of [main]. *)
Fixpoint parse_chunk (fuel : nat) (outfilename : string) : prog world unit :=
  size <- gets data_size ;;
  if size >? 0 then
    match fuel with
    | O => out_of_fuel
    | S fuel' =>
      w0 <- gets (fun w => w) ;;
      '(ret, poutbuf, poutbuf_size) <-
         call (av_parser_parse2 (window w0) (to_int size)) ;;
      note (EvParse (inbuf w0) (cursor w0) (to_int size) ret poutbuf_size) ;;
      if ret <? 0 then
        eprintf ("Error while parsing" ++ nl) ;; exit 1
      else
        modify (fun w => set_cursor (cursor w + ret)
                           (set_data_size (to_size_t (data_size w - ret)) w)) ;;
        when (negb (poutbuf_size =? 0))
          (decode fuel' (Some (mkPacket poutbuf poutbuf_size AV_NOPTS_VALUE 0))
                  outfilename) ;;
        parse_chunk fuel' outfilename
    end
  else pure tt.

(** The [while (!feof(f))] loop of [main]. *)
Fixpoint read_loop (fuel : nat) (outfilename : string) : prog world unit :=
  eof <- gets fin_eof ;;
  if eof then pure tt else
  match fuel with
  | O => out_of_fuel
  | S fuel' =>
    n <- fread INBUF_SIZE ;;
    modify (set_data_size n) ;;
    if n =? 0 then pure tt else
    modify (set_cursor 0) ;;
    parse_chunk fuel' outfilename ;;
    read_loop fuel' outfilename
  end.

(** The array [inbuf] after its declaration and the [memset] of its padding. *)
Definition inbuf_init : list byte :=
  memset (map uninitialized (seq 0 (Z.to_nat INBUF_SIZE + AV_INPUT_BUFFER_PADDING_SIZE)))
         (Z.to_nat INBUF_SIZE) 0 AV_INPUT_BUFFER_PADDING_SIZE.

(** [main] from the first [fread] on: the read loop, the flush, [return 0]. *)
Definition pump (fuel : nat) (outfilename : string) : prog world Z :=
  read_loop fuel outfilename ;;
  decode fuel None outfilename ;;
  pure 0.

Definition main (fuel : nat) (argv : list string) : prog world Z :=
  if Z.of_nat (List.length argv) <=? 3 then
    eprintf ("Usage: " ++ nth 0 argv "" ++ " <input file> <output file> <codec name>" ++ nl) ;;
    exit 0
  else
    let filename := nth 1 argv "" in
    let outfilename := nth 2 argv "" in
    let codec_name := nth 3 argv "" in
    codec <- call (avcodec_find_decoder_by_name codec_name) ;;
    when (negb codec) (eprintf ("Codec '" ++ codec_name ++ "' not found" ++ nl) ;; exit 1) ;;
    parser <- call av_parser_init ;;
    when (negb parser) (eprintf ("parser not found" ++ nl) ;; exit 1) ;;
    c <- call avcodec_alloc_context3 ;;
    when (negb c) (eprintf ("Could not allocate video codec context" ++ nl) ;; exit 1) ;;
    frame <- call av_frame_alloc ;;
    when (negb frame) (eprintf ("Could not allocate video frame" ++ nl) ;; exit 1) ;;
    pkt <- call av_packet_alloc ;;
    when (negb pkt) (exit 1) ;;
    r <- call (avcodec_open2 None) ;;
    when (r <? 0) (eprintf ("Could not open codec" ++ nl) ;; exit 1) ;;
    f <- call (fopen_read filename) ;;
    match f with
    | None => eprintf ("Could not open " ++ filename ++ nl) ;; exit 1
    | Some content =>
      modify (set_file content false) ;;
      modify (set_inbuf inbuf_init) ;;
      pump fuel outfilename
    end.

End Program.
End Decode.

(** * video_encode.cpp *)
Module Encode.
Section Program.
Context {av : Libav}.

Local Open Scope prog_scope.

(** The process: library state, the two output streams, the bytes written
    to the output [FILE], and the call log. *)
Record world : Type := mkWorld {
  lib : Lib;
  stdout : list string;
  stderr : list string;
  outfile : list byte;
  log : list event
}.

Definition set_lib (l : Lib) (w : world) : world :=
  mkWorld l (stdout w) (stderr w) (outfile w) (log w).
Definition set_stdout (x : list string) (w : world) : world :=
  mkWorld (lib w) x (stderr w) (outfile w) (log w).
Definition set_stderr (x : list string) (w : world) : world :=
  mkWorld (lib w) (stdout w) x (outfile w) (log w).
Definition set_outfile (x : list byte) (w : world) : world :=
  mkWorld (lib w) (stdout w) (stderr w) x (log w).
Definition set_log (x : list event) (w : world) : world :=
  mkWorld (lib w) (stdout w) (stderr w) (outfile w) x.

Definition start (l : Lib) : world := mkWorld l [] [] [] [].

Definition call {A} (f : Lib -> A * Lib) : prog world A :=
  fun w => Done (fst (f (lib w))) (set_lib (snd (f (lib w))) w).

Definition note (e : event) : prog world unit :=
  modify (fun w => set_log (log w ++ [e]) w).

Definition printf (s : string) : prog world unit :=
  modify (fun w => set_stdout (stdout w ++ [s]) w).

Definition eprintf (s : string) : prog world unit :=
  modify (fun w => set_stderr (stderr w ++ [s]) w).

(** [fwrite(ptr, 1, n, f)] on the output file, [n] converted to [size_t]. *)
Definition fwrite (ptr : list byte) (n : Z) : prog world unit :=
  modify (fun w => set_outfile (outfile w ++ firstn (Z.to_nat (to_size_t n)) ptr) w).

(** The memory behind [pkt->data]. *)
Definition payload (pkt : AVPacket) : list byte :=
  match pkt_data pkt with Some d => d | None => [] end.

(** The [while (ret >= 0)] loop of [encode]. *)
Fixpoint drain (fuel : nat) (ret : Z) : prog world unit :=
  if ret <? 0 then pure tt else
  match fuel with
  | O => out_of_fuel
  | S fuel' =>
    '(ret, pkt) <- call avcodec_receive_packet ;;
    note (EvReceivePacket ret pkt) ;;
    if (ret =? AVERROR_EAGAIN) || (ret =? AVERROR_EOF) then pure tt
    else if ret <? 0 then
      eprintf ("Error during encoding" ++ nl) ;; exit 1
    else
      printf ("Write packet " ++ dec (pkt_pts pkt)
              ++ " (size=" ++ dec_pad 5 (pkt_size pkt) ++ ")" ++ nl) ;;
      fwrite (payload pkt) (pkt_size pkt) ;;
      drain fuel' ret
  end.

(** [encode(enc_ctx, frame, pkt, outfile)]; the directive [%I64d] is
    rendered as the decimal value. *)
Definition encode (fuel : nat) (frame : option AVFrame) : prog world unit :=
  match frame with
  | Some f => printf ("Send frame " ++ dec (pts f) ++ nl)
  | None => pure tt
  end ;;
  ret <- call (avcodec_send_frame frame) ;;
  note (EvSendFrame (option_map pts frame) ret) ;;
  if ret <? 0 then
    eprintf ("Error sending a frame for encoding" ++ nl) ;; exit 1
  else drain fuel ret.

Definition endcode : list byte := [0; 0; 1; 183].

(** [frame->data[plane][off] = v], the value converted to [uint8_t]. *)
Definition put_sample (plane off v : Z) (f : AVFrame) : AVFrame :=
  mkFrame (format f) (width f) (height f) (pts f) (linesize f)
    (fun p o => if (p =? plane) && (o =? off) then to_uint8 v else data f p o).

Definition set_pts (i : Z) (f : AVFrame) : AVFrame :=
  mkFrame (format f) (width f) (height f) i (linesize f) (data f).

(** The dummy image of picture [i]: the Y loop, then the Cb and Cr loop. *)
Definition dummy_image (c : AVCodecContext) (i : Z) (frame : AVFrame) : AVFrame :=
  let frame :=
    fold_left (fun fr y =>
      fold_left (fun fr x =>
        put_sample 0 (y * linesize fr 0 + x) (x + y + i * 3) fr)
        (upto (ctx_width c)) fr)
      (upto (ctx_height c)) frame in
  fold_left (fun fr y =>
    fold_left (fun fr x =>
      put_sample 2 (y * linesize fr 2 + x) (64 + x + i * 5)
        (put_sample 1 (y * linesize fr 1 + x) (128 + y + i * 2) fr))
      (upto (Z.quot (ctx_width c) 2)) fr)
    (upto (Z.quot (ctx_height c) 2)) frame.

(** The body of [for (i = 0; i < 25; i++)], over the values of [i]. *)
Fixpoint frames_loop (fuel : nat) (c : AVCodecContext) (frame : AVFrame)
  (values : list Z) : prog world unit :=
  match values with
  | [] => pure tt
  | i :: rest =>
    let frame := set_pts i (dummy_image c i frame) in
    encode fuel (Some frame) ;;
    frames_loop fuel c frame rest
  end.

(** [main] from the picture loop on: 25 pictures, the flush, the end code,
    [return 0]. *)
Definition pump (fuel : nat) (c : AVCodecContext) (frame : AVFrame) : prog world Z :=
  frames_loop fuel c frame (upto 25) ;;
  encode fuel None ;;
  fwrite endcode 4 ;;
  pure 0.

(** The settings [main] writes into the codec context. *)
Definition settings : AVCodecContext :=
  mkContext 400000 352 288 (1, 25) (25, 1) 10 0 AV_PIX_FMT_YUV420P.

Definition main (fuel : nat) (argv : list string) : prog world Z :=
  if Z.of_nat (List.length argv) <=? 2 then
    eprintf ("Usage: " ++ nth 0 argv "" ++ " <output file> <codec name>" ++ nl) ;;
    exit 0
  else
    let filename := nth 1 argv "" in
    let codec_name := nth 2 argv "" in
    codec <- call (avcodec_find_encoder_by_name codec_name) ;;
    match codec with
    | None => eprintf ("Codec '" ++ codec_name ++ "' not found" ++ nl) ;; exit 1
    | Some codec_id =>
      ctx <- call avcodec_alloc_context3 ;;
      when (negb ctx) (eprintf ("Could not allocate video codec context" ++ nl) ;; exit 1) ;;
      let c := settings in
      when (codec_id =? AV_CODEC_ID_H264)
           (modify (fun w => set_lib (av_opt_set "preset" "slow" (lib w)) w)) ;;
      ret <- call (avcodec_open2 (Some c)) ;;
      when (ret <? 0)
           (eprintf ("Could not open codec: " ++ av_err2str ret ++ nl) ;; exit 1) ;;
      f <- call (fopen_write filename) ;;
      when (negb f) (eprintf ("Could not open " ++ filename ++ nl) ;; exit 1) ;;
      pkt <- call av_packet_alloc ;;
      when (negb pkt) (exit 1) ;;
      fr <- call av_frame_alloc ;;
      when (negb fr) (eprintf ("Could not allocate video frame" ++ nl) ;; exit 1) ;;
      let frame := mkFrame (pix_fmt c) (ctx_width c) (ctx_height c) AV_NOPTS_VALUE
                           (fun _ => 0) (fun _ _ => 0) in
      '(ret, frame) <- call (av_frame_get_buffer frame) ;;
      when (ret <? 0)
           (eprintf ("Could not allocate the video frame data" ++ nl) ;; exit 1) ;;
      pump fuel c frame
    end.

End Program.
End Encode.

(** * video_hw_decode.cpp *)
Module HwDecode.
Section Program.
Context {av : Libav}.

Local Open Scope prog_scope.

(** The process: library state, the error stream, the globals
    [hw_pix_fmt] and [output_file] ([None]: a NULL [FILE*]; otherwise the
    bytes written so far), the local [packet] of [main], and the call log. *)
Record world : Type := mkWorld {
  lib : Lib;
  stderr : list string;
  hw_pix_fmt : Z;
  output_file : option (list byte);
  packet : AVPacket;
  log : list event
}.

Definition set_lib (l : Lib) (w : world) : world :=
  mkWorld l (stderr w) (hw_pix_fmt w) (output_file w) (packet w) (log w).
Definition set_stderr (x : list string) (w : world) : world :=
  mkWorld (lib w) x (hw_pix_fmt w) (output_file w) (packet w) (log w).
Definition set_hw_pix_fmt (x : Z) (w : world) : world :=
  mkWorld (lib w) (stderr w) x (output_file w) (packet w) (log w).
Definition set_output_file (x : option (list byte)) (w : world) : world :=
  mkWorld (lib w) (stderr w) (hw_pix_fmt w) x (packet w) (log w).
Definition set_packet (x : AVPacket) (w : world) : world :=
  mkWorld (lib w) (stderr w) (hw_pix_fmt w) (output_file w) x (log w).
Definition set_log (x : list event) (w : world) : world :=
  mkWorld (lib w) (stderr w) (hw_pix_fmt w) (output_file w) (packet w) x.

(** The process as [main] finds it; [pkt0] is the indeterminate content of
    the local [packet]. *)
Definition start (l : Lib) (pkt0 : AVPacket) : world :=
  mkWorld l [] 0 None pkt0 [].

Definition call {A} (f : Lib -> A * Lib) : prog world A :=
  fun w => Done (fst (f (lib w))) (set_lib (snd (f (lib w))) w).

Definition note (e : event) : prog world unit :=
  modify (fun w => set_log (log w ++ [e]) w).

Definition eprintf (s : string) : prog world unit :=
  modify (fun w => set_stderr (stderr w ++ [s]) w).

(** [hw_decoder_init]. *)
Definition hw_decoder_init (type : Z) : prog world Z :=
  err <- call (av_hwdevice_ctx_create type) ;;
  if err <? 0 then
    eprintf ("Failed to create specified HW device." ++ nl) ;; pure err
  else pure err.

(** [fwrite(buffer, 1, size, output_file)], its result converted to [int]. *)
Definition fwrite (buffer : list byte) (size : Z) : prog world Z :=
  fun w =>
    match output_file w with
    | None => Fault w
    | Some written =>
      let bytes := firstn (Z.to_nat (to_size_t size)) buffer in
      Done (to_int (Z.of_nat (List.length bytes)))
           (set_output_file (Some (written ++ bytes)) w)
    end.

(** The label [fail:] of [decode_write]: [Some ret] leaves the function,
    [None] starts the next round of [while (true)]. *)
Definition fail (ret : Z) : prog world (option Z) :=
  if ret <? 0 then pure (Some ret) else pure None.

(** Lines 85 to 93: the frame the picture is read from.  [inl ret] is the
    jump to [fail:]. *)
Definition resolve (frame : AVFrame) : prog world (Z + AVFrame) :=
  fmt <- gets hw_pix_fmt ;;
  if format frame =? fmt then
    '(ret, sw_frame) <- call (av_hwframe_transfer_data frame) ;;
    note (EvTransfer ret) ;;
    if ret <? 0 then
      eprintf ("Error transferring the data to system memory" ++ nl) ;;
      pure (inl ret)
    else pure (inr sw_frame)
  else pure (inr frame).

(** Line 100: the size of the output buffer. *)
Definition buffer_size (tmp_frame : AVFrame) : Z :=
  av_image_get_buffer_size (format tmp_frame) (width tmp_frame) (height tmp_frame) 1.

(** Lines 100 to 122: the picture goes to a buffer and to the file; the
    result is the value of [ret] at [fail:]. *)
Definition dump (tmp_frame : AVFrame) : prog world Z :=
  let size := buffer_size tmp_frame in
  buffer <- call (av_malloc (to_size_t size)) ;;
  if negb buffer then
    eprintf ("Can not alloc buffer" ++ nl) ;; pure AVERROR_ENOMEM
  else
    note (EvCopy size (format tmp_frame) (width tmp_frame) (height tmp_frame) 1) ;;
    let '(ret, bytes) :=
      av_image_copy_to_buffer size (data tmp_frame) (linesize tmp_frame)
        (format tmp_frame) (width tmp_frame) (height tmp_frame) 1 in
    if ret <? 0 then
      eprintf ("Can not copy image to buffer" ++ nl) ;; pure ret
    else
      ret <- fwrite bytes size ;;
      if ret <? 0 then
        eprintf ("Failed to dump raw data." ++ nl) ;; pure ret
      else pure ret.

(** One round of the [while (true)] loop of [decode_write]. *)
Definition round : prog world (option Z) :=
  frame <- call av_frame_alloc ;;
  sw_frame <- (if frame then call av_frame_alloc else pure false) ;;
  if negb frame || negb sw_frame then
    eprintf ("Can not alloc frame" ++ nl) ;; fail AVERROR_ENOMEM
  else
    '(ret, frame) <- call avcodec_receive_frame ;;
    count <- gets (fun w => frame_number (lib w)) ;;
    note (EvReceiveFrame ret (format frame) count) ;;
    if (ret =? AVERROR_EAGAIN) || (ret =? AVERROR_EOF) then pure (Some 0)
    else if ret <? 0 then
      eprintf ("Error while decoding" ++ nl) ;; fail ret
    else
      tmp_frame <- resolve frame ;;
      match tmp_frame with
      | inl ret => fail ret
      | inr tmp_frame => ret <- dump tmp_frame ;; fail ret
      end.

Fixpoint rounds (fuel : nat) : prog world Z :=
  match fuel with
  | O => out_of_fuel
  | S fuel' =>
    r <- round ;;
    match r with
    | Some ret => pure ret
    | None => rounds fuel'
    end
  end.

(** [decode_write(avctx, packet)]. *)
Definition decode_write (fuel : nat) (pkt : AVPacket) : prog world Z :=
  ret <- call (avcodec_send_packet (Some pkt)) ;;
  note (EvSendPacket (Some pkt) ret) ;;
  if ret <? 0 then
    eprintf ("Error during decoding" ++ nl) ;; pure ret
  else rounds fuel.

(** The [for (i = 0;; i++)] loop of [main] over the configurations that
    [avcodec_get_hw_config] hands out: the pixel format of the first one
    that fits, or [None] when the index runs past the last. *)
Fixpoint find_hw_config (configs : list AVCodecHWConfig) (type : Z) : option Z :=
  match configs with
  | [] => None
  | config :: rest =>
    if negb (Z.land (hwc_methods config) AV_CODEC_HW_CONFIG_METHOD_HW_DEVICE_CTX =? 0)
       && (hwc_device_type config =? type)
    then Some (hwc_pix_fmt config)
    else find_hw_config rest type
  end.

(** The [while ((type = av_hwdevice_iterate_types(type)) != ...)] loop of
    [main], over the device types the library walks through. *)
Fixpoint list_types (types : list Z) : prog world unit :=
  match types with
  | [] => pure tt
  | type :: rest =>
    eprintf (" " ++ av_hwdevice_get_type_name type) ;; list_types rest
  end.

(** The [while (ret >= 0)] loop of [main]. *)
Fixpoint read_loop (fuel : nat) (video_stream ret : Z) : prog world Z :=
  if ret <? 0 then pure ret else
  match fuel with
  | O => out_of_fuel
  | S fuel' =>
    '(ret, pkt) <- call av_read_frame ;;
    modify (set_packet pkt) ;;
    note (EvReadFrame ret pkt) ;;
    if ret <? 0 then pure ret
    else
      ret <- (if video_stream =? stream_index pkt
              then decode_write fuel' pkt else pure ret) ;;
      modify (fun w => set_packet (av_packet_unref (packet w)) w) ;;
      read_loop fuel' video_stream ret
  end.

(** [packet.data = NULL; packet.size = 0;]. *)
Definition flush_packet (pkt : AVPacket) : AVPacket :=
  mkPacket None 0 (pkt_pts pkt) (stream_index pkt).

(** [main] from the read loop on: the packets of the container, the flush,
    [return 0]. *)
Definition pump (fuel : nat) (video_stream ret : Z) : prog world Z :=
  read_loop fuel video_stream ret ;;
  pkt <- gets packet ;;
  modify (set_packet (flush_packet pkt)) ;;
  decode_write fuel (flush_packet pkt) ;;
  modify (fun w => set_packet (av_packet_unref (packet w)) w) ;;
  pure 0.

Definition main (fuel : nat) (argv : list string) : prog world Z :=
  if Z.of_nat (List.length argv) <? 4 then
    eprintf ("Usage: " ++ nth 0 argv "" ++ " <device type> <input file> <output file>" ++ nl) ;;
    pure (-1)
  else
    let type := av_hwdevice_find_type_by_name (nth 1 argv "") in
    if type =? AV_HWDEVICE_TYPE_NONE then
      eprintf ("Device type " ++ nth 1 argv "" ++ " is not supported." ++ nl) ;;
      eprintf "Available device types:" ;;
      list_types av_hwdevice_types ;;
      eprintf nl ;;
      pure (-1)
    else
      r <- call (avformat_open_input (nth 2 argv "")) ;;
      if negb (r =? 0) then
        eprintf ("Cannot open input file '" ++ nth 2 argv "" ++ "'" ++ nl) ;; pure (-1)
      else
      r <- call avformat_find_stream_info ;;
      if r <? 0 then
        eprintf ("Cannot find input stream information." ++ nl) ;; pure (-1)
      else
      '(ret, decoder_name) <- call av_find_best_stream ;;
      note (EvBestStream ret) ;;
      if ret <? 0 then
        eprintf ("Cannot find a video stream in the input file" ++ nl) ;; pure (-1)
      else
      let video_stream := ret in
      configs <- gets (fun w => avcodec_hw_configs (lib w)) ;;
      match find_hw_config configs type with
      | None =>
        eprintf ("Decoder " ++ decoder_name ++ " does not support device type "
                 ++ av_hwdevice_get_type_name type ++ "." ++ nl) ;;
        pure (-1)
      | Some fmt =>
        modify (set_hw_pix_fmt fmt) ;;
        decoder_ctx <- call avcodec_alloc_context3 ;;
        if negb decoder_ctx then pure AVERROR_ENOMEM else
        r <- call (avcodec_parameters_to_context video_stream) ;;
        if r <? 0 then pure (-1) else
        r <- hw_decoder_init type ;;
        if r <? 0 then pure (-1) else
        ret <- call (avcodec_open2 None) ;;
        if ret <? 0 then
          eprintf ("Failed to open codec for stream #"
                   ++ dec (video_stream mod 2 ^ 32) ++ nl) ;;
          pure (-1)
        else
        f <- call (fopen_write (nth 3 argv "")) ;;
        modify (set_output_file (if f then Some [] else None)) ;;
        pump fuel video_stream ret
      end.

End Program.
End HwDecode.

(** * A small library instance

    A codec engine with a latency of [latency] pictures, a parser that cuts
    the byte stream into packets of three bytes, a demuxer that hands out a
    list of packets, one hardware device type (number 2, named toy) whose
    surfaces have pixel format 5, and 8-bit grey (pixel format 1) as the
    only host format.  It instantiates the statements below on concrete
    runs. *)
Module Toy.

Record state : Type := mkState {
  latency : Z;                (* pictures the engine holds back *)
  buffered : Z;               (* pictures inside the engine *)
  draining : bool;            (* a flush was submitted *)
  produced : Z;               (* [frame_number] *)
  acc : list byte;            (* parser: bytes of the unfinished packet *)
  disk : list byte;           (* content of the input file *)
  container : list AVPacket;  (* packets the demuxer has not handed out *)
  transfer_ret : Z            (* result of the next device-to-host transfer *)
}.

Definition set_engine (b : Z) (d : bool) (n : Z) (s : state) : state :=
  mkState (latency s) b d n (acc s) (disk s) (container s) (transfer_ret s).
Definition set_acc (a : list byte) (s : state) : state :=
  mkState (latency s) (buffered s) (draining s) (produced s) a (disk s)
    (container s) (transfer_ret s).
Definition set_container (c : list AVPacket) (s : state) : state :=
  mkState (latency s) (buffered s) (draining s) (produced s) (acc s) (disk s)
    c (transfer_ret s).

Definition eagain : Z := -11.
Definition eof : Z := -541478725.
Definition enomem : Z := -12.
Definition einval : Z := -22.

Definition empty_packet : AVPacket := mkPacket None 0 0 0.

Definition send (empty : bool) (s : state) : Z * state :=
  if draining s then (eof, s)
  else if empty then (0, set_engine (buffered s) true (produced s) s)
  else (0, set_engine (buffered s + 1) false (produced s) s).

(** Is a picture ready? *)
Definition ready (s : state) : bool :=
  if draining s then 0 <? buffered s else latency s <? buffered s.

Definition stop_code (s : state) : Z := if draining s then eof else eagain.

Definition take (s : state) : state :=
  set_engine (buffered s - 1) (draining s) (produced s + 1) s.

(** A 2x2 picture with a stride of 4 bytes; sample [o] of a plane is
    [o + n]. *)
Definition picture (fmt n : Z) : AVFrame :=
  mkFrame fmt 2 2 n (fun _ => 4) (fun _ o => to_uint8 (o + n)).

Definition receive_frame (s : state) : Z * AVFrame * state :=
  if ready s then (0, picture 5 (produced s + 1), take s)
  else (stop_code s, picture 5 0, s).

Definition receive_packet (s : state) : Z * AVPacket * state :=
  if ready s then (0, mkPacket (Some [produced s; 7]) 2 (produced s) 0, take s)
  else (stop_code s, empty_packet, s).

(** The parser takes the bytes that complete a packet of three and no more. *)
Definition parse (buf : list byte) (buf_size : Z) (s : state)
  : Z * option (list byte) * Z * state :=
  let need := 3 - Z.of_nat (List.length (acc s)) in
  let n := Z.min buf_size need in
  let bytes := acc s ++ firstn (Z.to_nat n) buf in
  if Z.of_nat (List.length bytes) =? 3
  then (n, Some bytes, 3, set_acc [] s)
  else (n, None, 0, set_acc bytes s).

Definition read_frame (s : state) : Z * AVPacket * state :=
  match container s with
  | [] => (eof, empty_packet, s)
  | pkt :: rest => (0, pkt, set_container rest s)
  end.

(** The rows of plane 0, each [w] bytes wide, without the stride padding. *)
Definition grey_rows (planes : Z -> Z -> byte) (stride : Z -> Z) (w h : Z) : list byte :=
  flat_map (fun y => map (fun x => planes 0 (y * stride 0 + x)) (upto w)) (upto h).

#[export] Instance lib : Libav := {|
  Lib := state;
  AVERROR_EAGAIN := eagain;
  AVERROR_EOF := eof;
  AVERROR_ENOMEM := enomem;
  AV_INPUT_BUFFER_PADDING_SIZE := 64;
  AV_NOPTS_VALUE := - 2 ^ 63;
  AV_CODEC_ID_H264 := 27;
  AV_PIX_FMT_YUV420P := 0;
  AV_HWDEVICE_TYPE_NONE := 0;
  AV_CODEC_HW_CONFIG_METHOD_HW_DEVICE_CTX := 1;
  avcodec_find_decoder_by_name := fun name s => (String.eqb name "toy", s);
  avcodec_find_encoder_by_name :=
    fun name s => (if String.eqb name "toy" then Some 2 else None, s);
  av_parser_init := fun s => (true, s);
  avcodec_alloc_context3 := fun s => (true, s);
  av_frame_alloc := fun s => (true, s);
  av_packet_alloc := fun s => (true, s);
  av_opt_set := fun _ _ s => s;
  av_err2str := fun _ => "error";
  avcodec_open2 := fun _ s => (0, s);
  av_frame_get_buffer :=
    fun f s => (0, mkFrame (format f) (width f) (height f) (pts f)
                     (fun p => if p =? 0 then width f else Z.quot (width f) 2)
                     (data f), s);
  fopen_read := fun name s => (if String.eqb name "missing" then None else Some (disk s), s);
  fopen_write := fun name s => (negb (String.eqb name ""), s);
  uninitialized := fun _ => 170;
  av_parser_parse2 := parse;
  avcodec_send_packet :=
    fun pkt s => send (match pkt with None => true | Some p => pkt_size p =? 0 end) s;
  avcodec_receive_frame := receive_frame;
  frame_number := produced;
  avcodec_send_frame :=
    fun f s => send (match f with None => true | Some _ => false end) s;
  avcodec_receive_packet := receive_packet;
  av_hwdevice_find_type_by_name := fun name => if String.eqb name "toy" then 2 else 0;
  av_hwdevice_types := [2];
  av_hwdevice_get_type_name := fun _ => "toy";
  avformat_open_input := fun name s => (if String.eqb name "missing" then -2 else 0, s);
  avformat_find_stream_info := fun s => (0, s);
  av_find_best_stream := fun s => (1, "toydec", s);
  avcodec_hw_configs := fun _ => [mkHWConfig 9 2 2; mkHWConfig 5 1 2];
  avcodec_parameters_to_context := fun _ s => (0, s);
  av_hwdevice_ctx_create := fun _ s => (0, s);
  av_read_frame := read_frame;
  av_packet_unref := fun _ => empty_packet;
  av_hwframe_transfer_data :=
    fun f s => (transfer_ret s,
                mkFrame 1 (width f) (height f) (pts f) (linesize f) (data f), s);
  av_image_get_buffer_size :=
    fun fmt w h align => if fmt =? 1 then w * h else einval;
  av_malloc := fun size s => (size <? 2 ^ 31, s);
  av_image_copy_to_buffer :=
    fun size planes stride fmt w h align =>
      if fmt =? 1 then (w * h, grey_rows planes stride w h) else (einval, [])
|}.

(** An idle engine with the given latency, input file and container. *)
Definition fresh (lat : Z) (file : list byte) (pkts : list AVPacket) : state :=
  mkState lat 0 false 0 [] file pkts 0.

(** The same library state, with the next transfer set to return [r]. *)
Definition with_transfer (r : Z) (s : state) : state :=
  mkState (latency s) (buffered s) (draining s) (produced s) (acc s) (disk s)
    (container s) r.


(** An output argument of 1025 characters: 510 times [./], then [frame]. *)
Definition long_base : string :=
  String.concat EmptyString (repeat "./" 510) ++ "frame".

(** The three programs at their start, on such an engine. *)
Definition decoding (lat : Z) (file : list byte) : Decode.world :=
  @Decode.start lib (fresh lat file []).
Definition encoding (lat : Z) : Encode.world :=
  @Encode.start lib (fresh lat [] []).
Definition hw_decoding (lat : Z) (pkts : list AVPacket) : HwDecode.world :=
  @HwDecode.start lib (fresh lat [] pkts) empty_packet.

(** [decode_write] is entered: format 5 is negotiated, the output file is
    open and empty, and the next transfer returns [r]. *)
Definition hw_running (lat r : Z) (pkts : list AVPacket) : HwDecode.world :=
  @HwDecode.mkWorld lib (with_transfer r (fresh lat [] pkts)) [] 5 (Some [])
    empty_packet [].

(** A packet of stream [idx] that carries the bytes [bytes]. *)
Definition packet_of (idx : Z) (bytes : list byte) : AVPacket :=
  mkPacket (Some bytes) (Z.of_nat (List.length bytes)) 0 idx.

End Toy.

(** * Statements *)

(** ** Reading the call log *)
Section Reading.
Context {av : Libav}.

(** The result of a receive call that hands out a picture or a packet:
    neither Starved nor Exhausted nor an error. *)
Definition produced (ret : Z) : bool :=
  negb ((ret =? AVERROR_EAGAIN) || (ret =? AVERROR_EOF)) && negb (ret <? 0).

(** Starved or Exhausted. *)
Definition stops (ret : Z) : bool :=
  (ret =? AVERROR_EAGAIN) || (ret =? AVERROR_EOF).

(** The packets handed to [avcodec_send_packet], in order. *)
Definition submitted (log : list event) : list AVPacket :=
  flat_map (fun e => match e with
                     | EvSendPacket (Some p) _ => [p]
                     | _ => []
                     end) log.

(** The packets [av_read_frame] delivered, in order. *)
Definition demuxed (log : list event) : list AVPacket :=
  flat_map (fun e => match e with
                     | EvReadFrame ret p => if ret <? 0 then [] else [p]
                     | _ => []
                     end) log.

(** The documented layout of a picture copied with alignment 1: plane
    after plane, row after row, each row cut to its [bw] bytes.  A
    geometry lists (bytes per row, rows) for the planes of a format at a
    given width and height. *)
Fixpoint packed_from (p : Z) (geometry : list (Z * Z))
  (planes : Z -> Z -> byte) (stride : Z -> Z) : list byte :=
  match geometry with
  | [] => []
  | (bw, rows) :: rest =>
    flat_map (fun y => map (fun x => planes p (y * stride p + x)) (upto bw)) (upto rows)
    ++ packed_from (p + 1) rest planes stride
  end.

Definition packed (geometry : list (Z * Z)) (planes : Z -> Z -> byte)
  (stride : Z -> Z) : list byte :=
  packed_from 0 geometry planes stride.

Fixpoint packed_size (geometry : list (Z * Z)) : Z :=
  match geometry with
  | [] => 0
  | (bw, rows) :: rest => bw * rows + packed_size rest
  end.

(** The bytes of the packets that the encoder handed out, in order: for
    each packet the [pkt->size] bytes behind [pkt->data]. *)
Definition packets_bytes (log : list event) : list byte :=
  flat_map (fun e => match e with
                     | EvReceivePacket ret pkt =>
                       if produced ret
                       then firstn (Z.to_nat (to_size_t (pkt_size pkt))) (Encode.payload pkt)
                       else []
                     | _ => []
                     end) log.

(** The engine's frame counts, read after each retrieval that handed out a
    frame, in order. *)
Definition retrieved (log : list event) : list Z :=
  flat_map (fun e => match e with
                     | EvReceiveFrame ret _ count => if produced ret then [count] else []
                     | _ => []
                     end) log.

(** The name that [decode] gives to the file of a frame: the text
    [<base>-<count>] as it fits into [char buf[1024]]. *)
Definition artifact_name (base : string) (count : Z) : string :=
  snprintf 1024 (base ++ "-" ++ dec count).

(** Every saved file is named after the count of its frame. *)
Definition named_after (base : string) (saved : list (string * list byte))
  (log : list event) : Prop :=
  map fst saved = map (artifact_name base) (retrieved log).

(** The same, when the last frame retrieved may not have been saved yet. *)
Definition named_after_so_far (base : string) (saved : list (string * list byte))
  (log : list event) : Prop :=
  map fst saved
  = map (artifact_name base) (firstn (List.length saved) (retrieved log)).

(** The contract of [av_parser_parse2] that [main] relies on: of [size]
    bytes offered, at most [size] are reported as used (a negative result
    is the error case). *)
Definition parser_contract : Prop :=
  forall buf size l,
    0 < size -> fst (fst (fst (av_parser_parse2 buf size l))) <= size.

(** An input array of the declared length whose padding region holds
    zeros. *)
Definition padding_clear (buf : list byte) : Prop :=
  List.length buf = (Z.to_nat Decode.INBUF_SIZE + AV_INPUT_BUFFER_PADDING_SIZE)%nat
  /\ skipn (Z.to_nat Decode.INBUF_SIZE) buf = repeat 0 AV_INPUT_BUFFER_PADDING_SIZE.

(** What holds of every [fread] and of every parse call, whatever the
    parser does: a read brings at most [INBUF_SIZE] bytes, and the parser
    sees an array whose padding is clear. *)
Definition padded_call (e : event) : Prop :=
  match e with
  | EvFread chunk => Z.of_nat (List.length chunk) <= Decode.INBUF_SIZE
  | EvParse buf _ _ _ _ => padding_clear buf
  | _ => True
  end.

(** What holds of every parse call when the parser keeps its contract: the
    bytes offered, from the cursor on, lie inside the chunk area. *)
Definition bounded_call (e : event) : Prop :=
  match e with
  | EvParse _ cursor size _ _ =>
    0 <= cursor /\ 0 < size /\ cursor + size <= Decode.INBUF_SIZE
  | _ => True
  end.

(** The bytes the parser reported as used, call after call. *)
Definition consumed (log : list event) : list byte :=
  flat_map (fun e => match e with
                     | EvParse buf cursor _ ret _ =>
                       firstn (Z.to_nat ret) (skipn (Z.to_nat cursor) buf)
                     | _ => []
                     end) log.

(** The bytes [fread] delivered, read after read. *)
Definition read_so_far (log : list event) : list byte :=
  flat_map (fun e => match e with EvFread chunk => chunk | _ => [] end) log.

(** The part of the current chunk that the parser has not used yet. *)
Definition pending (w : Decode.world) : list byte :=
  firstn (Z.to_nat (Decode.data_size w)) (Decode.window w).

(** The cursor and the number of bytes that the next parse call has to be
    offered, after one more event: a read takes place only when nothing is
    left of the chunk and puts the cursor at the start of the new chunk; a
    parse call is offered exactly what is expected and, unless it fails,
    moves the cursor forward by the number of bytes it reports as used.
    [None]: the event broke this rule. *)
Definition expect (state : option (Z * Z)) (e : event) : option (Z * Z) :=
  match state with
  | None => None
  | Some (cursor, size) =>
    match e with
    | EvFread chunk =>
      if size =? 0 then Some (0, Z.of_nat (List.length chunk)) else None
    | EvParse _ c s ret _ =>
      if (c =? cursor) && (s =? size) && (0 <? size)
      then Some (if ret <? 0 then (cursor, size) else (cursor + ret, size - ret))
      else None
    | _ => Some (cursor, size)
    end
  end.

(** The events of a log, checked one after the other. *)
Definition in_step (log : list event) : option (Z * Z) :=
  fold_left expect log (Some (0, 0)).

(** The state of the input buffer between two steps of [main], whatever the
    parser does. *)
Definition padded (w : Decode.world) : Prop :=
  padding_clear (Decode.inbuf w)
  /\ 0 <= Decode.data_size w
  /\ Forall padded_call (Decode.log w).

(** The same when the parser keeps its contract. *)
Definition conserving (w : Decode.world) : Prop :=
  0 <= Decode.cursor w
  /\ 0 <= Decode.data_size w
  /\ Decode.cursor w + Decode.data_size w <= Decode.INBUF_SIZE
  /\ Forall bounded_call (Decode.log w)
  /\ consumed (Decode.log w) ++ pending w = read_so_far (Decode.log w)
  /\ exists c, in_step (Decode.log w) = Some (c, Decode.data_size w)
               /\ (Decode.data_size w = 0 \/ c = Decode.cursor w).

(** The output file holds the bytes of the packets received so far. *)
Definition file_follows_log (w : Encode.world) : Prop :=
  Encode.outfile w = packets_bytes (Encode.log w).

(** An [exit] with code 1 that follows a message on the error stream. *)
Definition loud_failure_decode (code : Z) (w : Decode.world) : Prop :=
  code = 1 /\ Decode.stderr w <> [].

Definition loud_failure_encode (code : Z) (w : Encode.world) : Prop :=
  code = 1 /\ Encode.stderr w <> [].

(** A submission that libavcodec takes as the flush request: no packet,
    or a packet of size 0. *)
Definition no_payload (pkt : option AVPacket) : bool :=
  match pkt with
  | None => true
  | Some p => pkt_size p =? 0
  end.

(** What libavcodec documents for an engine that was asked to flush: from
    an accepted flush request on (the states [draining]) a receive call
    never answers AVERROR(EAGAIN); the other library calls that the
    programs make between two receive calls leave the engine as it is. *)
Definition flush_contract (draining : Lib -> Prop) : Prop :=
  (forall pkt l, no_payload pkt = true ->
     0 <= fst (avcodec_send_packet pkt l) -> draining (snd (avcodec_send_packet pkt l)))
  /\ (forall l,
        0 <= fst (avcodec_send_frame None l) -> draining (snd (avcodec_send_frame None l)))
  /\ (forall l, draining l ->
        fst (fst (avcodec_receive_frame l)) <> AVERROR_EAGAIN
        /\ draining (snd (avcodec_receive_frame l)))
  /\ (forall l, draining l ->
        fst (fst (avcodec_receive_packet l)) <> AVERROR_EAGAIN
        /\ draining (snd (avcodec_receive_packet l)))
  /\ (forall name l, draining l -> draining (snd (fopen_write name l)))
  /\ (forall l, draining l -> draining (snd (av_frame_alloc l)))
  /\ (forall f l, draining l -> draining (snd (av_hwframe_transfer_data f l)))
  /\ (forall n l, draining l -> draining (snd (av_malloc n l))).

(** The events that are a flush request. *)
Definition flushes (e : event) : bool :=
  match e with
  | EvSendPacket pkt _ => no_payload pkt
  | EvSendFrame None _ => true
  | _ => false
  end.

(** The events of a drain loop that goes on: a receive call that handed
    out a frame or a packet, and what [decode_write] does with a frame. *)
Definition hands_out (e : event) : Prop :=
  match e with
  | EvReceiveFrame ret _ _ | EvReceivePacket ret _ => produced ret = true
  | EvTransfer _ | EvCopy _ _ _ _ _ => True
  | _ => False
  end.

(** A receive call that answered AVERROR_EOF. *)
Definition exhausted (e : event) : Prop :=
  match e with
  | EvReceiveFrame ret _ _ | EvReceivePacket ret _ => ret = AVERROR_EOF
  | _ => False
  end.

(** The log of a drain loop that ran to the end: outputs, then Exhausted. *)
Definition drained_to_end (events : list event) : Prop :=
  exists outputs last,
    events = outputs ++ [last] /\ Forall hands_out outputs /\ exhausted last.

(** The log of a run that made one flush request, after all its other
    submissions, and then drained the engine to the end. *)
Definition flushed_and_drained (log : list event) : Prop :=
  exists before flush events,
    log = before ++ flush :: events
    /\ Forall (fun e => flushes e = false) before
    /\ flushes flush = true
    /\ drained_to_end events.

(** A step of [decode_write] that leaves the engine flushed and logs only
    what belongs to a frame that was handed out. *)
Definition goes_on {A} (draining : Lib -> Prop) (w : HwDecode.world)
  (o : outcome HwDecode.world A) : Prop :=
  match o with
  | Done _ w' =>
    draining (HwDecode.lib w')
    /\ exists events,
         HwDecode.log w' = HwDecode.log w ++ events /\ Forall hands_out events
  | _ => True
  end.

(** The events that are neither a submission to the decoder nor a packet
    of the demuxer. *)
Definition quiet (e : event) : bool :=
  match e with
  | EvSendPacket _ _ | EvReadFrame _ _ => false
  | _ => true
  end.

(** The condition of [main] under which a packet goes to the decoder. *)
Definition of_stream (video_stream : Z) (pkt : AVPacket) : bool :=
  video_stream =? stream_index pkt.

(** What [video_hw_decode.cpp] guarantees about the packets it submits:
    they are the delivered packets of stream [video_stream], in the order
    of delivery, followed at most by one packet that carries nothing
    ([data = NULL] and [size = 0]): the request to flush. *)
Definition single_stream (video_stream : Z) (log : list event) : Prop :=
  exists tail,
    submitted log = filter (of_stream video_stream) (demuxed log) ++ tail
    /\ (tail = []
        \/ exists pkt, tail = [pkt] /\ pkt_data pkt = None /\ pkt_size pkt = 0).

End Reading.

(** ** Pictures: the files of the decoder, the frames of the encoder *)
Section Pictures.
Context {av : Libav}.

(** The header that [pgm_save] prints: the magic number, the width and the
    height, the maximal grey value. *)
Definition pgm_header (xsize ysize : Z) : list byte :=
  bytes_of_string ("P5" ++ nl ++ dec xsize ++ " " ++ dec ysize ++ nl ++ dec 255 ++ nl).

(** A complete binary PGM file: the header of a picture of [xsize] by
    [ysize] samples, then one byte for each sample. *)
Definition pgm_image (file : list byte) : Prop :=
  exists xsize ysize body,
    0 <= xsize /\ 0 <= ysize
    /\ file = pgm_header xsize ysize ++ body
    /\ Z.of_nat (List.length body) = xsize * ysize.

(** The frames that the decoder hands out have a width and a height. *)
Definition sized_frames : Prop :=
  forall l,
    0 <= width (snd (fst (avcodec_receive_frame l)))
    /\ 0 <= height (snd (fst (avcodec_receive_frame l))).

(** Two frames that agree on everything but the samples at the places
    [touched]. *)
Definition same_outside (touched : Z -> Z -> Prop) (a b : AVFrame) : Prop :=
  format a = format b /\ width a = width b /\ height a = height b
  /\ pts a = pts b /\ linesize a = linesize b
  /\ forall p o, ~ touched p o -> data a p o = data b p o.

(** The places of a picture of the codec context [c] in planes with the
    strides [stride]: the luma plane at full size, the two chroma planes
    at half the width and half the height. *)
Definition picture_area (c : AVCodecContext) (stride : Z -> Z) (p o : Z) : Prop :=
  exists y x,
    o = y * stride p + x
    /\ ((p = 0 /\ 0 <= y < ctx_height c /\ 0 <= x < ctx_width c)
        \/ ((p = 1 \/ p = 2)
            /\ 0 <= y < Z.quot (ctx_height c) 2 /\ 0 <= x < Z.quot (ctx_width c) 2)).

(** The frames handed to [avcodec_send_frame], by their [pts]; [None] is
    the NULL frame. *)
Definition sent_frames (log : list event) : list (option Z) :=
  flat_map (fun e => match e with EvSendFrame p _ => [p] | _ => [] end) log.

End Pictures.

(** A frame for the pictures of the encoder whose rows are longer than a
    picture is wide: 384 bytes for the luma plane, 192 for the others. *)
Definition wide_frame : AVFrame :=
  mkFrame 0 352 288 0 (fun p => if p =? 0 then 384 else 192) (fun _ _ => 0).

(** The toy library with a decoder that offers the hardware configurations
    [configs]. *)
Definition toy_with_configs (configs : list AVCodecHWConfig) : Libav := {|
  Lib := @Lib Toy.lib;
  AVERROR_EAGAIN := @AVERROR_EAGAIN Toy.lib;
  AVERROR_EOF := @AVERROR_EOF Toy.lib;
  AVERROR_ENOMEM := @AVERROR_ENOMEM Toy.lib;
  AV_INPUT_BUFFER_PADDING_SIZE := @AV_INPUT_BUFFER_PADDING_SIZE Toy.lib;
  AV_NOPTS_VALUE := @AV_NOPTS_VALUE Toy.lib;
  AV_CODEC_ID_H264 := @AV_CODEC_ID_H264 Toy.lib;
  AV_PIX_FMT_YUV420P := @AV_PIX_FMT_YUV420P Toy.lib;
  AV_HWDEVICE_TYPE_NONE := @AV_HWDEVICE_TYPE_NONE Toy.lib;
  AV_CODEC_HW_CONFIG_METHOD_HW_DEVICE_CTX := @AV_CODEC_HW_CONFIG_METHOD_HW_DEVICE_CTX Toy.lib;
  avcodec_find_decoder_by_name := @avcodec_find_decoder_by_name Toy.lib;
  avcodec_find_encoder_by_name := @avcodec_find_encoder_by_name Toy.lib;
  av_parser_init := @av_parser_init Toy.lib;
  avcodec_alloc_context3 := @avcodec_alloc_context3 Toy.lib;
  av_frame_alloc := @av_frame_alloc Toy.lib;
  av_packet_alloc := @av_packet_alloc Toy.lib;
  av_opt_set := @av_opt_set Toy.lib;
  av_err2str := @av_err2str Toy.lib;
  avcodec_open2 := @avcodec_open2 Toy.lib;
  av_frame_get_buffer := @av_frame_get_buffer Toy.lib;
  fopen_read := @fopen_read Toy.lib;
  fopen_write := @fopen_write Toy.lib;
  uninitialized := @uninitialized Toy.lib;
  av_parser_parse2 := @av_parser_parse2 Toy.lib;
  avcodec_send_packet := @avcodec_send_packet Toy.lib;
  avcodec_receive_frame := @avcodec_receive_frame Toy.lib;
  frame_number := @frame_number Toy.lib;
  avcodec_send_frame := @avcodec_send_frame Toy.lib;
  avcodec_receive_packet := @avcodec_receive_packet Toy.lib;
  av_hwdevice_find_type_by_name := @av_hwdevice_find_type_by_name Toy.lib;
  av_hwdevice_types := @av_hwdevice_types Toy.lib;
  av_hwdevice_get_type_name := @av_hwdevice_get_type_name Toy.lib;
  avformat_open_input := @avformat_open_input Toy.lib;
  avformat_find_stream_info := @avformat_find_stream_info Toy.lib;
  av_find_best_stream := @av_find_best_stream Toy.lib;
  avcodec_hw_configs := fun _ => configs;
  avcodec_parameters_to_context := @avcodec_parameters_to_context Toy.lib;
  av_hwdevice_ctx_create := @av_hwdevice_ctx_create Toy.lib;
  av_read_frame := @av_read_frame Toy.lib;
  av_packet_unref := @av_packet_unref Toy.lib;
  av_hwframe_transfer_data := @av_hwframe_transfer_data Toy.lib;
  av_image_get_buffer_size := @av_image_get_buffer_size Toy.lib;
  av_malloc := @av_malloc Toy.lib;
  av_image_copy_to_buffer := @av_image_copy_to_buffer Toy.lib
|}.

(** ** The input file and the calls of the decoder *)
Section Inputs.
Context {av : Libav}.

(** The events that are not a call of the parser. *)
Definition not_parse (e : event) : Prop :=
  match e with
  | EvParse _ _ _ _ _ => False
  | _ => True
  end.

(** What is known of the input file at any point of a run: the bytes read
    so far, followed by the bytes not read yet, are the content of the
    file; the end-of-file indicator is set only when nothing is left. *)
Definition reading (content : list byte) (w : Decode.world) : Prop :=
  0 <= Decode.data_size w
  /\ read_so_far (Decode.log w) ++ Decode.fin w = content
  /\ (Decode.fin_eof w = true -> Decode.fin w = []).

(** The library state in which [main] of [video_decode.cpp] opens its
    input file: after the look-up of the decoder named [argv[3]], the
    parser, the three allocations and [avcodec_open2]. *)
Definition before_fopen (argv : list string) (l : Lib) : Lib :=
  let l := snd (avcodec_find_decoder_by_name (nth 3 argv "") l) in
  let l := snd (av_parser_init l) in
  let l := snd (avcodec_alloc_context3 l) in
  let l := snd (av_frame_alloc l) in
  let l := snd (av_packet_alloc l) in
  snd (avcodec_open2 None l).

(** What [fopen(argv[1], "rb")] finds there: the bytes of the file, or
    [None] when it cannot be opened. *)
Definition input_content (argv : list string) (l : Lib) : option (list byte) :=
  fst (fopen_read (nth 1 argv "") (before_fopen argv l)).

(** Where the pump of [video_decode.cpp] stands between two calls: ready
    for the next read or parse call; holding an output of the parser of
    [size] bytes that is to be submitted; retrieving frames after a
    submission; stopped by an error. *)
Inductive pump_state : Type :=
| Idle
| Pending (size : Z)
| Draining
| Stopped.

(** The calls that may follow in each state; [None]: a call out of turn. *)
Definition lock_step (state : option pump_state) (e : event) : option pump_state :=
  match state, e with
  | Some Idle, EvFread _ => Some Idle
  | Some Idle, EvParse _ _ _ ret out_size =>
    Some (if ret <? 0 then Stopped
          else if out_size =? 0 then Idle else Pending out_size)
  | Some (Pending size), EvSendPacket (Some pkt) ret =>
    if pkt_size pkt =? size
    then Some (if ret <? 0 then Stopped else Draining)
    else None
  | Some Idle, EvSendPacket None ret => Some (if ret <? 0 then Stopped else Draining)
  | Some Draining, EvReceiveFrame ret _ _ =>
    Some (if stops ret then Idle else if ret <? 0 then Stopped else Draining)
  | _, _ => None
  end.

(** The calls of a log, checked one after the other. *)
Definition in_lock_step (log : list event) : option pump_state :=
  fold_left lock_step log (Some Idle).

End Inputs.

(** ** The set-up and the failures of the hardware decoder *)

(** [no_fault P m]: started in a state that satisfies [P], the program [m]
    does not run into undefined behaviour, and [P] holds when it returns. *)
Definition no_fault {W A} (P : W -> Prop) (m : prog W A) : Prop :=
  forall w, P w ->
    match m w with
    | Done _ w' => P w'
    | Fault _ => False
    | _ => True
    end.

Section Hardware.
Context {av : Libav}.

(** The test of [main] on a hardware configuration of the decoder: the
    configuration works through a device context and is for the device
    type [type]. *)
Definition fits (type : Z) (config : AVCodecHWConfig) : bool :=
  negb (Z.land (hwc_methods config) AV_CODEC_HW_CONFIG_METHOD_HW_DEVICE_CTX =? 0)
  && (hwc_device_type config =? type).

(** [fmt] is the pixel format of the first configuration that fits. *)
Definition first_fit (configs : list AVCodecHWConfig) (type fmt : Z) : Prop :=
  exists before config after,
    configs = before ++ config :: after
    /\ Forall (fun c => fits type c = false) before
    /\ fits type config = true
    /\ hwc_pix_fmt config = fmt.

(** What [av_find_best_stream] answers in [main] of [video_hw_decode.cpp],
    after the container [argv[2]] was opened and probed. *)
Definition probed (argv : list string) (l : Lib) : Z * string * Lib :=
  av_find_best_stream
    (snd (avformat_find_stream_info (snd (avformat_open_input (nth 2 argv "") l)))).

(** The hardware configurations of the decoder it selects. *)
Definition decoder_configs (argv : list string) (l : Lib) : list AVCodecHWConfig :=
  avcodec_hw_configs (snd (probed argv l)).

(** The library state in which [main] opens the output file: after the
    decoder context was allocated and filled, the device created and the
    decoder opened. *)
Definition hw_before_fopen (argv : list string) (l : Lib) : Lib :=
  let type := av_hwdevice_find_type_by_name (nth 1 argv "") in
  let video_stream := fst (fst (probed argv l)) in
  let l := snd (avcodec_alloc_context3 (snd (probed argv l))) in
  let l := snd (avcodec_parameters_to_context video_stream l) in
  let l := snd (av_hwdevice_ctx_create type l) in
  snd (avcodec_open2 None l).

(** Does [fopen(argv[3], "w+")] succeed there? *)
Definition output_opens (argv : list string) (l : Lib) : bool :=
  fst (fopen_write (nth 3 argv "") (hw_before_fopen argv l)).

(** The events of the set-up of [main]. *)
Definition set_up (e : event) : Prop :=
  match e with
  | EvBestStream _ => True
  | _ => False
  end.

(** The lines [main] of [video_hw_decode.cpp] prints when the device type
    [name] is unknown. *)
Definition device_listing (name : string) : list string :=
  ["Device type " ++ name ++ " is not supported." ++ nl; "Available device types:"]%string
  ++ map (fun t => (" " ++ av_hwdevice_get_type_name t)%string) av_hwdevice_types
  ++ [nl].

(** The calls of the hardware path whose result makes [decode_write], or
    the read loop of [main], give up: a packet that is rejected, a
    retrieval that fails, a transfer that fails, a read that fails or
    finds the end of the container. *)
Definition failure (e : event) : bool :=
  match e with
  | EvSendPacket _ ret | EvTransfer ret | EvReadFrame ret _ => ret <? 0
  | EvReceiveFrame ret _ _ => negb (stops ret) && (ret <? 0)
  | _ => false
  end.

(** The calls of [av_read_frame]. *)
Definition reads_frame (e : event) : bool :=
  match e with
  | EvReadFrame _ _ => true
  | _ => false
  end.

(** No call of [av_read_frame] follows a failure: checked along the log. *)
Fixpoint quiet_after_failure (log : list event) : bool :=
  match log with
  | [] => true
  | e :: rest =>
    (if failure e then forallb (fun e' => negb (reads_frame e')) rest else true)
    && quiet_after_failure rest
  end.

(** The same as a statement about every failure in the log. *)
Definition stops_at_failure (log : list event) : Prop :=
  forall before e after,
    log = before ++ e :: after -> failure e = true ->
    Forall (fun e' => reads_frame e' = false) after.

End Hardware.

(** ** Failures, the flush and the exit status *)
Section Endings.
Context {av : Libav}.

(** A device-to-host transfer that failed. *)
Definition failed_transfer (e : event) : bool :=
  match e with
  | EvTransfer ret => ret <? 0
  | _ => false
  end.

(** The events of a call of [decode_write] that returned [v]: no transfer
    failed, or the transfer that failed is the last event and [v] is its
    result. *)
Definition ends_at_failed_transfer (events : list event) (v : Z) : Prop :=
  Forall (fun e => failed_transfer e = false) events
  \/ exists front,
       events = front ++ [EvTransfer v]
       /\ v < 0
       /\ Forall (fun e => failed_transfer e = false) front.

(** What libavcodec documents besides for a decoder that was asked to
    flush: it takes no further packet ([avcodec_send_packet] then answers
    AVERROR_EOF, a negative value); and reading the container leaves the
    decoder as it is. *)
Definition closed_after_flush (draining : Lib -> Prop) : Prop :=
  (forall pkt l, draining l -> fst (avcodec_send_packet pkt l) < 0)
  /\ (forall l, draining l -> draining (snd (av_read_frame l))).





(** The files that [decode] names after the frames of the output argument
    [base] can be opened for writing. *)
Definition frames_can_be_saved (base : string) : Prop :=
  forall count l, fst (fopen_write (artifact_name base count) l) = true.


End Endings.

(** * Proofs *)

(** ** Rules for invariants *)
Section Rules.
Context {W : Type}.
Variable I : W -> Prop.

Lemma invariant_pure {A} (a : A) : invariant I (pure a).
Proof. intros w H. exact H. Qed.

Lemma invariant_exit {A} (code : Z) : invariant I (@exit W A code).
Proof. intros w H. exact H. Qed.

Lemma invariant_fault {A} : invariant I (@fault W A).
Proof. intros w H. exact H. Qed.

Lemma invariant_out_of_fuel {A} : invariant I (@out_of_fuel W A).
Proof. intros w H. exact H. Qed.

Lemma invariant_gets {A} (f : W -> A) : invariant I (gets f).
Proof. intros w H. exact H. Qed.

Lemma invariant_modify (f : W -> W) :
  (forall w, I w -> I (f w)) -> invariant I (modify f).
Proof. intros Hf w H. apply Hf, H. Qed.

Lemma invariant_bind {A B} (m : prog W A) (k : A -> prog W B) :
  invariant I m -> (forall a, invariant I (k a)) -> invariant I (bind m k).
Proof.
  intros Hm Hk w H. unfold bind. specialize (Hm w H).
  destruct (m w) as [a w'| |  | ]; cbn in *; try exact Hm.
  apply Hk, Hm.
Qed.

Lemma invariant_when (b : bool) (m : prog W unit) :
  invariant I m -> invariant I (when b m).
Proof. intros Hm. destruct b; [exact Hm|apply invariant_pure]. Qed.

End Rules.

(** ** Rules for specifications *)
Section TripleRules.
Context {W : Type}.
Variable I : W -> Prop.

Lemma triple_pure {A} (P : W -> Prop) (Q : A -> W -> Prop) (a : A) :
  (forall w, P w -> Q a w) -> triple P (pure a) Q I.
Proof. intros H w Hw. apply H, Hw. Qed.

Lemma triple_exit {A} (P : W -> Prop) (Q : A -> W -> Prop) (code : Z) :
  (forall w, P w -> I w) -> triple P (exit code) Q I.
Proof. intros H w Hw. apply H, Hw. Qed.

Lemma triple_fault {A} (P : W -> Prop) (Q : A -> W -> Prop) :
  (forall w, P w -> I w) -> triple P fault Q I.
Proof. intros H w Hw. apply H, Hw. Qed.

Lemma triple_out_of_fuel {A} (P : W -> Prop) (Q : A -> W -> Prop) :
  (forall w, P w -> I w) -> triple P out_of_fuel Q I.
Proof. intros H w Hw. apply H, Hw. Qed.

Lemma triple_gets {A} (P : W -> Prop) (Q : A -> W -> Prop) (f : W -> A) :
  (forall w, P w -> Q (f w) w) -> triple P (gets f) Q I.
Proof. intros H w Hw. apply H, Hw. Qed.

Lemma triple_modify (P : W -> Prop) (Q : unit -> W -> Prop) (f : W -> W) :
  (forall w, P w -> Q tt (f w)) -> triple P (modify f) Q I.
Proof. intros H w Hw. apply H, Hw. Qed.

Lemma triple_bind {A B} (P : W -> Prop) (Q : A -> W -> Prop) (R : B -> W -> Prop)
  (m : prog W A) (k : A -> prog W B) :
  triple P m Q I -> (forall a, triple (Q a) (k a) R I) -> triple P (bind m k) R I.
Proof.
  intros Hm Hk w Hw. unfold bind. specialize (Hm w Hw).
  destruct (m w) as [a w'| | | ]; try exact Hm.
  apply Hk, Hm.
Qed.

Lemma triple_when (P : W -> Prop) (b : bool) (m : prog W unit) :
  triple P m (fun _ => P) I -> triple P (when b m) (fun _ => P) I.
Proof. intros Hm. destruct b; [exact Hm|]. apply triple_pure. auto. Qed.

Lemma triple_weaken {A} (P P' : W -> Prop) (Q Q' : A -> W -> Prop) (m : prog W A) :
  triple P m Q I -> (forall w, P' w -> P w) -> (forall a w, Q a w -> Q' a w) ->
  triple P' m Q' I.
Proof.
  intros Hm HP HQ w Hw. specialize (Hm w (HP w Hw)).
  destruct (m w); auto.
Qed.

(** Sequencing under one property [P] of the states between the steps. *)
Lemma triple_seq {A B} (P : W -> Prop) (m : prog W A) (k : A -> prog W B) :
  triple P m (fun _ => P) I -> (forall a, triple P (k a) (fun _ => P) I) ->
  triple P (bind m k) (fun _ => P) I.
Proof. intros Hm Hk. eapply triple_bind; [exact Hm|exact Hk]. Qed.

(** What a specification says about the state in which the run stops. *)
Lemma triple_final {A} (P : W -> Prop) (Q : A -> W -> Prop) (m : prog W A) (w : W) :
  triple P m Q I -> (forall a w', Q a w' -> I w') -> P w -> I (final (m w)).
Proof.
  intros Hm HQ Hw. specialize (Hm w Hw).
  destruct (m w); cbn; eauto.
Qed.

End TripleRules.

(** ** The drain loops *)
Section DrainLoops.
Context {av : Libav}.

(** One more round of the drain loop of [decode]: what the result of the
    receive call decides. *)
Lemma decode_drain_round (fuel : nat) (filename : string) (ret0 : Z) (w : Decode.world) :
  0 <= ret0 ->
  let '(r, frame, l') := avcodec_receive_frame (Decode.lib w) in
  let w1 := Decode.set_log
              (Decode.log w ++ [EvReceiveFrame r (format frame) (frame_number l')])
              (Decode.set_lib l' w) in
  Decode.drain (S fuel) filename ret0 w =
    if stops r then Done tt w1
    else if r <? 0 then
      Exit 1 (Decode.set_stderr (Decode.stderr w ++ ["Error during decoding" ++ nl]%string) w1)
    else
      bind (Decode.printf ("saving frame " ++ dec_pad 3 (frame_number l') ++ nl))
        (fun _ =>
           bind (Decode.pgm_save (data frame 0) (linesize frame 0) (width frame)
                   (height frame)
                   (snprintf 1024 (filename ++ "-" ++ dec (frame_number l'))))
             (fun _ => Decode.drain fuel filename r)) w1.
Proof.
  intros Hret0.
  destruct (avcodec_receive_frame (Decode.lib w)) as [[r frame] l'] eqn:E.
  cbn [Decode.drain].
  assert (Hlt : (ret0 <? 0) = false) by (apply Z.ltb_ge; exact Hret0).
  rewrite Hlt.
  unfold bind at 1. unfold Decode.call. rewrite E. cbn [fst snd].
  unfold bind at 1. unfold gets. cbn.
  unfold stops.
  destruct ((r =? AVERROR_EAGAIN) || (r =? AVERROR_EOF)); [reflexivity|].
  destruct (r <? 0); reflexivity.
Qed.

(** The same for the drain loop of [encode]. *)
Lemma encode_drain_round (fuel : nat) (ret0 : Z) (w : Encode.world) :
  0 <= ret0 ->
  let '(r, pkt, l') := avcodec_receive_packet (Encode.lib w) in
  let w1 := Encode.set_log (Encode.log w ++ [EvReceivePacket r pkt])
              (Encode.set_lib l' w) in
  Encode.drain (S fuel) ret0 w =
    if stops r then Done tt w1
    else if r <? 0 then
      Exit 1 (Encode.set_stderr (Encode.stderr w ++ ["Error during encoding" ++ nl]%string) w1)
    else
      bind (Encode.printf ("Write packet " ++ dec (pkt_pts pkt)
                           ++ " (size=" ++ dec_pad 5 (pkt_size pkt) ++ ")" ++ nl))
        (fun _ =>
           bind (Encode.fwrite (Encode.payload pkt) (pkt_size pkt))
             (fun _ => Encode.drain fuel r)) w1.
Proof.
  intros Hret0.
  destruct (avcodec_receive_packet (Encode.lib w)) as [[r pkt] l'] eqn:E.
  cbn [Encode.drain].
  assert (Hlt : (ret0 <? 0) = false) by (apply Z.ltb_ge; exact Hret0).
  rewrite Hlt.
  unfold bind at 1. unfold Encode.call. rewrite E. cbn [fst snd].
  unfold bind at 1. cbn.
  unfold stops.
  destruct ((r =? AVERROR_EAGAIN) || (r =? AVERROR_EOF)); [reflexivity|].
  destruct (r <? 0); reflexivity.
Qed.

(** One round of the loop of [decode_write], once both frames are
    allocated. *)
Lemma hw_round (w : HwDecode.world) (l1 l2 : Lib) :
  av_frame_alloc (HwDecode.lib w) = (true, l1) ->
  av_frame_alloc l1 = (true, l2) ->
  let '(r, frame, l3) := avcodec_receive_frame l2 in
  let w1 := HwDecode.set_log
              (HwDecode.log w ++ [EvReceiveFrame r (format frame) (frame_number l3)])
              (HwDecode.set_lib l3 w) in
  HwDecode.round w =
    if stops r then Done (Some 0) w1
    else if r <? 0 then
      Done (Some r)
        (HwDecode.set_stderr (HwDecode.stderr w ++ ["Error while decoding" ++ nl]%string) w1)
    else
      bind (HwDecode.resolve frame)
        (fun t => match t with
                  | inl ret => HwDecode.fail ret
                  | inr tmp_frame => bind (HwDecode.dump tmp_frame) HwDecode.fail
                  end) w1.
Proof.
  intros E1 E2.
  destruct (avcodec_receive_frame l2) as [[r frame] l3] eqn:E3.
  unfold HwDecode.round.
  unfold bind at 1. unfold HwDecode.call at 1. rewrite E1. cbn [fst snd].
  unfold bind at 1. unfold HwDecode.call at 1. cbn [HwDecode.lib HwDecode.set_lib].
  rewrite E2. cbn [fst snd negb orb].
  unfold bind at 1. unfold HwDecode.call at 1. cbn [HwDecode.lib HwDecode.set_lib].
  rewrite E3. cbn [fst snd].
  unfold bind at 1. cbn.
  unfold stops.
  destruct ((r =? AVERROR_EAGAIN) || (r =? AVERROR_EOF)); [reflexivity|].
  destruct (r <? 0) eqn:Hr; [|reflexivity].
  unfold HwDecode.fail. rewrite Hr. reflexivity.
Qed.

Lemma stops_true (r : Z) :
  r = AVERROR_EAGAIN \/ r = AVERROR_EOF -> stops r = true.
Proof.
  unfold stops. intros [-> | ->]; rewrite Z.eqb_refl; auto using orb_true_r.
Qed.

Lemma stops_false (r : Z) :
  r <> AVERROR_EAGAIN -> r <> AVERROR_EOF -> stops r = false.
Proof.
  unfold stops. intros H1 H2.
  apply Z.eqb_neq in H1. apply Z.eqb_neq in H2. rewrite H1, H2. reflexivity.
Qed.

(** C1.  In the drain loops of [decode], [encode] and [decode_write], a
    receive result of AVERROR(EAGAIN) (Starved) or AVERROR_EOF (Exhausted)
    ends the loop and the function returns to its caller: nothing is
    written to the error stream, [decode] and [encode] return normally and
    [decode_write] returns 0.  Any other negative receive result is fatal:
    a diagnostic goes to the error stream and [decode] and [encode] call
    [exit(1)], while [decode_write] hands the negative result to its
    caller. *)
Theorem drain_loop_outcomes :
  (forall fuel filename ret0 (w : Decode.world) r frame l',
      0 <= ret0 ->
      avcodec_receive_frame (Decode.lib w) = (r, frame, l') ->
      (r = AVERROR_EAGAIN \/ r = AVERROR_EOF ->
       exists w', Decode.drain (S fuel) filename ret0 w = Done tt w'
                  /\ Decode.stderr w' = Decode.stderr w
                  /\ Decode.saved w' = Decode.saved w)
      /\ (r < 0 -> r <> AVERROR_EAGAIN -> r <> AVERROR_EOF ->
          exists w', Decode.drain (S fuel) filename ret0 w = Exit 1 w'
                     /\ Decode.stderr w'
                        = Decode.stderr w ++ ["Error during decoding" ++ nl]%string
                     /\ Decode.saved w' = Decode.saved w))
  /\ (forall fuel ret0 (w : Encode.world) r pkt l',
      0 <= ret0 ->
      avcodec_receive_packet (Encode.lib w) = (r, pkt, l') ->
      (r = AVERROR_EAGAIN \/ r = AVERROR_EOF ->
       exists w', Encode.drain (S fuel) ret0 w = Done tt w'
                  /\ Encode.stderr w' = Encode.stderr w
                  /\ Encode.outfile w' = Encode.outfile w)
      /\ (r < 0 -> r <> AVERROR_EAGAIN -> r <> AVERROR_EOF ->
          exists w', Encode.drain (S fuel) ret0 w = Exit 1 w'
                     /\ Encode.stderr w'
                        = Encode.stderr w ++ ["Error during encoding" ++ nl]%string
                     /\ Encode.outfile w' = Encode.outfile w))
  /\ (forall fuel (w : HwDecode.world) l1 l2 r frame l3,
      av_frame_alloc (HwDecode.lib w) = (true, l1) ->
      av_frame_alloc l1 = (true, l2) ->
      avcodec_receive_frame l2 = (r, frame, l3) ->
      (r = AVERROR_EAGAIN \/ r = AVERROR_EOF ->
       exists w', HwDecode.rounds (S fuel) w = Done 0 w'
                  /\ HwDecode.stderr w' = HwDecode.stderr w
                  /\ HwDecode.output_file w' = HwDecode.output_file w)
      /\ (r < 0 -> r <> AVERROR_EAGAIN -> r <> AVERROR_EOF ->
          exists w', HwDecode.rounds (S fuel) w = Done r w'
                     /\ HwDecode.stderr w'
                        = HwDecode.stderr w ++ ["Error while decoding" ++ nl]%string
                     /\ HwDecode.output_file w' = HwDecode.output_file w)).
Proof.
  split; [|split].
  - intros fuel filename ret0 w r frame l' Hret0 E.
    pose proof (decode_drain_round fuel filename ret0 w Hret0) as R.
    rewrite E in R. cbv zeta in R. rewrite R. split.
    + intros Hs. rewrite (stops_true r Hs). eexists. split; [reflexivity|]. split; reflexivity.
    + intros Hneg H1 H2. rewrite (stops_false r H1 H2).
      apply Z.ltb_lt in Hneg. rewrite Hneg.
      eexists. split; [reflexivity|]. split; reflexivity.
  - intros fuel ret0 w r pkt l' Hret0 E.
    pose proof (encode_drain_round fuel ret0 w Hret0) as R.
    rewrite E in R. cbv zeta in R. rewrite R. split.
    + intros Hs. rewrite (stops_true r Hs). eexists. split; [reflexivity|]. split; reflexivity.
    + intros Hneg H1 H2. rewrite (stops_false r H1 H2).
      apply Z.ltb_lt in Hneg. rewrite Hneg.
      eexists. split; [reflexivity|]. split; reflexivity.
  - intros fuel w l1 l2 r frame l3 E1 E2 E3.
    pose proof (hw_round w l1 l2 E1 E2) as R.
    rewrite E3 in R. cbv zeta in R.
    split.
    + intros Hs. cbn [HwDecode.rounds]. unfold bind at 1. rewrite R.
      rewrite (stops_true r Hs). eexists. split; [reflexivity|]. split; reflexivity.
    + intros Hneg H1 H2. cbn [HwDecode.rounds]. unfold bind at 1. rewrite R.
      rewrite (stops_false r H1 H2).
      apply Z.ltb_lt in Hneg. rewrite Hneg.
      eexists. split; [reflexivity|]. split; reflexivity.
Qed.

End DrainLoops.

(** The three loops on the idle toy engine: it reports Starved at once. *)
Lemma drain_loop_outcomes_witness :
  (exists w', @Decode.drain Toy.lib 1 "out" 0 (Toy.decoding 1 []) = Done tt w'
              /\ Decode.stderr w' = [] /\ Decode.saved w' = [])
  /\ (exists w', @Encode.drain Toy.lib 1 0 (Toy.encoding 1) = Done tt w'
                 /\ Encode.stderr w' = [] /\ Encode.outfile w' = [])
  /\ (exists w', @HwDecode.rounds Toy.lib 1
                   (Toy.hw_decoding 1 []) = Done 0 w'
                 /\ HwDecode.stderr w' = [] /\ HwDecode.output_file w' = None).
Proof.
  destruct (@drain_loop_outcomes Toy.lib) as [Hd [He Hh]].
  split; [|split].
  - refine (proj1 (Hd 0%nat "out" 0 (Toy.decoding 1 [])
                     Toy.eagain (Toy.picture 5 0) (Toy.fresh 1 [] []) _ _) _).
    + lia.
    + reflexivity.
    + left. reflexivity.
  - refine (proj1 (He 0%nat 0 (Toy.encoding 1)
                     Toy.eagain Toy.empty_packet (Toy.fresh 1 [] []) _ _) _).
    + lia.
    + reflexivity.
    + left. reflexivity.
  - refine (proj1 (Hh 0%nat (Toy.hw_decoding 1 [])
                     (Toy.fresh 1 [] []) (Toy.fresh 1 [] [])
                     Toy.eagain (Toy.picture 5 0) (Toy.fresh 1 [] []) _ _ _) _).
    + reflexivity.
    + reflexivity.
    + reflexivity.
    + left. reflexivity.
Defined.

(** ** The hardware surface resolver *)
Section Resolver.
Context {av : Libav}.

(** What [resolve] does with a frame, by the result of the transfer. *)
Lemma resolve_cases (frame : AVFrame) (w : HwDecode.world) :
  HwDecode.resolve frame w =
    if format frame =? HwDecode.hw_pix_fmt w then
      let '(ret, sw_frame, l') := av_hwframe_transfer_data frame (HwDecode.lib w) in
      let w1 := HwDecode.set_log (HwDecode.log w ++ [EvTransfer ret])
                  (HwDecode.set_lib l' w) in
      if ret <? 0 then
        Done (inl ret)
          (HwDecode.set_stderr
             (HwDecode.stderr w
              ++ ["Error transferring the data to system memory" ++ nl]%string) w1)
      else Done (inr sw_frame) w1
    else Done (inr frame) w.
Proof.
  unfold HwDecode.resolve. unfold bind at 1. unfold gets.
  destruct (format frame =? HwDecode.hw_pix_fmt w); [|reflexivity].
  unfold bind at 1. unfold HwDecode.call.
  destruct (av_hwframe_transfer_data frame (HwDecode.lib w)) as [[ret sw] l'].
  cbn. destruct (ret <? 0); reflexivity.
Qed.

End Resolver.

(** ** The packed buffer *)
Section Packing.
Context {av : Libav}.

Lemma count_from_length (count : nat) :
  forall i, List.length (count_from i count) = count.
Proof.
  induction count as [|count IH]; intros i; cbn; [reflexivity|].
  rewrite IH. reflexivity.
Qed.

Lemma upto_length (n : Z) : List.length (upto n) = Z.to_nat n.
Proof. apply count_from_length. Qed.

Lemma rows_length {A} (f : Z -> Z -> A) (bw : Z) (ys : list Z) :
  List.length (flat_map (fun y => map (f y) (upto bw)) ys)
  = (List.length ys * Z.to_nat bw)%nat.
Proof.
  induction ys as [|y ys IH]; [reflexivity|].
  cbn [flat_map List.length]. rewrite length_app, length_map, upto_length, IH.
  lia.
Qed.

Lemma packed_from_length (geometry : list (Z * Z)) (planes : Z -> Z -> byte)
  (stride : Z -> Z) :
  Forall (fun g => 0 <= fst g /\ 0 <= snd g) geometry ->
  forall p, Z.of_nat (List.length (packed_from p geometry planes stride))
            = packed_size geometry.
Proof.
  induction 1 as [|[bw rows] rest [Hbw Hrows] _ IH]; intros p; [reflexivity|].
  cbn [packed_from packed_size fst snd] in *.
  rewrite length_app, Nat2Z.inj_add, IH.
  rewrite (rows_length (fun y x => planes p (y * stride p + x))), upto_length.
  rewrite Nat2Z.inj_mul, !Z2Nat.id by assumption. lia.
Qed.

(** C7.  The size of the output buffer is
    [av_image_get_buffer_size(format, width, height, 1)]: two frames of the
    same pixel format, width and height get the same size, whatever their
    strides and samples.  [av_image_copy_to_buffer] is called with that
    size, the frame's planes and strides and alignment 1, and exactly that
    many bytes of the buffer go to the output file; so, where the two
    libavutil functions follow the documented layout of the format, the
    bytes appended to the file are the rows of the planes one after the
    other, each row cut to its bytes, without any stride padding. *)
Theorem output_is_packed :
  (forall f g : AVFrame,
      format f = format g -> width f = width g -> height f = height g ->
      HwDecode.buffer_size f = HwDecode.buffer_size g)
  /\ (forall geometry tmp_frame (w : HwDecode.world) written l',
      Forall (fun g => 0 <= fst g /\ 0 <= snd g) geometry ->
      packed_size geometry < 2 ^ 31 ->
      av_image_get_buffer_size (format tmp_frame) (width tmp_frame)
        (height tmp_frame) 1 = packed_size geometry ->
      av_image_copy_to_buffer (packed_size geometry) (data tmp_frame)
        (linesize tmp_frame) (format tmp_frame) (width tmp_frame)
        (height tmp_frame) 1
      = (packed_size geometry, packed geometry (data tmp_frame) (linesize tmp_frame)) ->
      HwDecode.output_file w = Some written ->
      av_malloc (to_size_t (packed_size geometry)) (HwDecode.lib w) = (true, l') ->
      exists w',
        HwDecode.dump tmp_frame w = Done (packed_size geometry) w'
        /\ HwDecode.output_file w'
           = Some (written ++ packed geometry (data tmp_frame) (linesize tmp_frame))
        /\ HwDecode.log w'
           = HwDecode.log w
             ++ [EvCopy (packed_size geometry) (format tmp_frame) (width tmp_frame)
                   (height tmp_frame) 1]
        /\ HwDecode.stderr w' = HwDecode.stderr w).
Proof.
  split.
  - intros f g Hf Hw Hh. unfold HwDecode.buffer_size. rewrite Hf, Hw, Hh. reflexivity.
  - intros geometry tmp w written l' Hgeo Hint Hsize Hcopy Hout Hmalloc.
    pose proof (packed_from_length geometry (data tmp) (linesize tmp) Hgeo 0) as Hlen.
    fold (packed geometry (data tmp) (linesize tmp)) in Hlen.
    assert (Hnonneg : 0 <= packed_size geometry) by (rewrite <- Hlen; lia).
    assert (Hsz : to_size_t (packed_size geometry) = packed_size geometry).
    { unfold to_size_t. apply Z.mod_small. lia. }
    unfold HwDecode.dump, HwDecode.buffer_size. rewrite Hsize. cbv zeta.
    unfold bind at 1. unfold HwDecode.call at 1. rewrite Hmalloc. cbn [fst snd negb].
    unfold bind at 1. cbn [HwDecode.note modify].
    rewrite Hcopy.
    assert (Hlt : (packed_size geometry <? 0) = false) by (apply Z.ltb_ge; lia).
    rewrite Hlt.
    unfold bind at 1. unfold HwDecode.fwrite.
    cbn [HwDecode.output_file HwDecode.set_log HwDecode.set_lib].
    rewrite Hout, Hsz.
    assert (Hn : Z.to_nat (packed_size geometry)
                 = List.length (packed geometry (data tmp) (linesize tmp))).
    { rewrite <- Hlen. apply Nat2Z.id. }
    rewrite Hn, firstn_all, Hlen.
    assert (Hti : to_int (packed_size geometry) = packed_size geometry).
    { unfold to_int. rewrite Z.mod_small by lia. lia. }
    rewrite Hti, Hlt.
    eexists. split; [reflexivity|]. cbn. repeat split.
Qed.

End Packing.

(** On the toy library, 8-bit grey at 2x2 has the geometry of one plane of
    two rows of two bytes; the picture has a stride of 4. *)
Lemma output_is_packed_witness :
  exists w',
    @HwDecode.dump Toy.lib (Toy.picture 1 3) (Toy.hw_running 0 0 []) = Done 4 w'
    /\ HwDecode.output_file w' = Some [3; 4; 7; 8].
Proof.
  destruct (proj2 (@output_is_packed Toy.lib) [(2, 2)] (Toy.picture 1 3)
              (Toy.hw_running 0 0 []) [] (Toy.with_transfer 0 (Toy.fresh 0 [] [])))
    as [w' [E [O _]]].
  - repeat constructor; cbn; lia.
  - cbn. lia.
  - reflexivity.
  - reflexivity.
  - reflexivity.
  - reflexivity.
  - exists w'. split; [exact E|]. rewrite O. reflexivity.
Defined.

(** ** The packets that reach the hardware decoder *)

Ltac invariant_step :=
  lazymatch goal with
  | |- invariant _ (bind _ _) => apply invariant_bind; [|intros]
  | |- invariant _ (pure _) => apply invariant_pure
  | |- invariant _ (exit _) => apply invariant_exit
  | |- invariant _ fault => apply invariant_fault
  | |- invariant _ out_of_fuel => apply invariant_out_of_fuel
  | |- invariant _ (gets _) => apply invariant_gets
  | |- invariant _ (when _ _) => apply invariant_when
  | |- invariant _ (if ?b then _ else _) => destruct b
  | |- invariant _ (match ?x with _ => _ end) => destruct x
  end.

Section HwLog.
Context {av : Libav}.

Lemma hw_invariant_call {A} (I : HwDecode.world -> Prop) (f : Lib -> A * Lib) :
  (forall l w, I w -> I (HwDecode.set_lib l w)) -> invariant I (HwDecode.call f).
Proof. intros H w Hw. apply H, Hw. Qed.

Lemma hw_invariant_fwrite (I : HwDecode.world -> Prop) (buffer : list byte) (size : Z) :
  (forall x w, I w -> I (HwDecode.set_output_file x w)) ->
  invariant I (HwDecode.fwrite buffer size).
Proof.
  intros H w Hw. unfold HwDecode.fwrite.
  destruct (HwDecode.output_file w); cbn; [apply H, Hw|exact Hw].
Qed.

(** Properties of the log that survive the events of a kind [q]. *)
Section Quiet.
Variable R : list event -> Prop.
Variable q : event -> bool.
Hypothesis R_q : forall log e, q e = true -> R log -> R (log ++ [e]).
Hypothesis q_receive : forall r f c, q (EvReceiveFrame r f c) = true.
Hypothesis q_transfer : forall r, q (EvTransfer r) = true.
Hypothesis q_copy : forall s f w h a, q (EvCopy s f w h a) = true.

Let I (w : HwDecode.world) : Prop := R (HwDecode.log w).

Ltac hw_quiet :=
  repeat first
    [ invariant_step
    | apply hw_invariant_call; intros ? ? H; exact H
    | apply hw_invariant_fwrite; intros ? ? H; exact H
    | apply invariant_modify; intros ? H;
      first [ exact H
            | apply R_q;
              [first [apply q_receive | apply q_transfer | apply q_copy]|exact H] ] ].

Lemma hw_round_quiet : invariant I HwDecode.round.
Proof.
  unfold HwDecode.round, HwDecode.resolve, HwDecode.dump, HwDecode.fail,
    HwDecode.note, HwDecode.eprintf.
  hw_quiet.
Qed.

Lemma hw_rounds_quiet (fuel : nat) : invariant I (HwDecode.rounds fuel).
Proof.
  induction fuel as [|fuel IH]; cbn [HwDecode.rounds].
  - apply invariant_out_of_fuel.
  - apply invariant_bind; [apply hw_round_quiet|].
    intros [ret|]; [apply invariant_pure|exact IH].
Qed.

Hypothesis q_send : forall p r, q (EvSendPacket p r) = true.
Hypothesis q_read : forall r p, q (EvReadFrame r p) = true.

Lemma hw_decode_write_quiet (fuel : nat) (pkt : AVPacket) :
  invariant I (HwDecode.decode_write fuel pkt).
Proof.
  unfold HwDecode.decode_write, HwDecode.note, HwDecode.eprintf.
  apply invariant_bind; [apply hw_invariant_call; intros ? ? H; exact H|intros s].
  apply invariant_bind;
    [apply invariant_modify; intros ? H; apply R_q; [apply q_send|exact H]|intros _].
  destruct (s <? 0); [|apply hw_rounds_quiet].
  apply invariant_bind; [apply invariant_modify; intros ? H; exact H|intros _].
  apply invariant_pure.
Qed.

Lemma hw_read_loop_quiet (video_stream : Z) (fuel : nat) :
  forall ret, invariant I (HwDecode.read_loop fuel video_stream ret).
Proof.
  induction fuel as [|fuel IH]; intros ret; cbn [HwDecode.read_loop].
  - destruct (ret <? 0); [apply invariant_pure|apply invariant_out_of_fuel].
  - destruct (ret <? 0); [apply invariant_pure|].
    apply invariant_bind; [apply hw_invariant_call; intros ? ? H; exact H|intros [r pkt]].
    apply invariant_bind; [apply invariant_modify; intros ? H; exact H|intros _].
    apply invariant_bind;
      [apply invariant_modify; intros ? H; apply R_q; [apply q_read|exact H]|intros _].
    destruct (r <? 0); [apply invariant_pure|].
    apply invariant_bind.
    + destruct (video_stream =? stream_index pkt);
        [apply hw_decode_write_quiet|apply invariant_pure].
    + intros ret'.
      apply invariant_bind; [apply invariant_modify; intros ? H; exact H|intros _].
      apply IH.
Qed.

Lemma hw_pump_quiet (video_stream : Z) (fuel : nat) (ret : Z) :
  invariant I (HwDecode.pump fuel video_stream ret).
Proof.
  unfold HwDecode.pump.
  apply invariant_bind; [apply hw_read_loop_quiet|intros _].
  apply invariant_bind; [apply invariant_gets|intros pkt].
  apply invariant_bind; [apply invariant_modify; intros ? H; exact H|intros _].
  apply invariant_bind; [apply hw_decode_write_quiet|intros _].
  apply invariant_bind; [apply invariant_modify; intros ? H; exact H|intros _].
  apply invariant_pure.
Qed.

End Quiet.

Lemma submitted_app (l1 l2 : list event) :
  submitted (l1 ++ l2) = submitted l1 ++ submitted l2.
Proof. apply flat_map_app. Qed.

Lemma demuxed_app (l1 l2 : list event) :
  demuxed (l1 ++ l2) = demuxed l1 ++ demuxed l2.
Proof. apply flat_map_app. Qed.

(** [decode_write] submits its packet, and nothing else, and reads no
    packet from the container. *)
Lemma hw_decode_write_submits (fuel : nat) (pkt : AVPacket) (w : HwDecode.world) :
  let w' := final (HwDecode.decode_write fuel pkt w) in
  submitted (HwDecode.log w') = submitted (HwDecode.log w) ++ [pkt]
  /\ demuxed (HwDecode.log w') = demuxed (HwDecode.log w).
Proof.
  set (P := fun lg => submitted lg = submitted (HwDecode.log w) ++ [pkt]
                      /\ demuxed lg = demuxed (HwDecode.log w)).
  change (P (HwDecode.log (final (HwDecode.decode_write fuel pkt w)))).
  assert (HP : forall lg e, quiet e = true -> P lg -> P (lg ++ [e])).
  { intros lg e He [Hs Hd]. unfold P. rewrite submitted_app, demuxed_app, Hs, Hd.
    destruct e; try discriminate He; cbn; rewrite !app_nil_r; split; reflexivity. }
  unfold HwDecode.decode_write.
  unfold bind at 1. unfold HwDecode.call at 1.
  destruct (avcodec_send_packet (Some pkt) (HwDecode.lib w)) as [s l0].
  cbn [fst snd]. unfold bind at 1. cbn [HwDecode.note modify].
  set (w1 := HwDecode.set_log _ _).
  assert (H1 : P (HwDecode.log w1)).
  { subst w1. cbn [HwDecode.log HwDecode.set_log HwDecode.set_lib]. unfold P.
    rewrite submitted_app, demuxed_app. cbn. rewrite app_nil_r. split; reflexivity. }
  destruct (s <? 0).
  - exact H1.
  - refine (hw_rounds_quiet P quiet HP _ _ _ fuel w1 H1); reflexivity.
Qed.

(** In the read loop the submitted packets are the packets of the selected
    stream among those the demuxer delivered. *)
Lemma hw_read_loop_filters (video_stream : Z) (fuel : nat) :
  forall ret,
    invariant (fun w => submitted (HwDecode.log w)
                        = filter (of_stream video_stream) (demuxed (HwDecode.log w)))
      (HwDecode.read_loop fuel video_stream ret).
Proof.
  set (J := fun w => submitted (HwDecode.log w)
                     = filter (of_stream video_stream) (demuxed (HwDecode.log w))).
  induction fuel as [|fuel IH]; intros ret w Hw; cbn [HwDecode.read_loop].
  - destruct (ret <? 0); exact Hw.
  - destruct (ret <? 0); [exact Hw|].
    unfold bind at 1. unfold HwDecode.call at 1.
    destruct (av_read_frame (HwDecode.lib w)) as [[r pkt] l1].
    cbn [fst snd]. unfold bind at 1. cbn [modify].
    unfold bind at 1. cbn [HwDecode.note modify].
    set (w1 := HwDecode.set_log _ _).
    assert (Hs1 : submitted (HwDecode.log w1) = submitted (HwDecode.log w)).
    { subst w1. cbn [HwDecode.log HwDecode.set_log HwDecode.set_packet HwDecode.set_lib].
      rewrite submitted_app. cbn. apply app_nil_r. }
    assert (Hd1 : demuxed (HwDecode.log w1)
                  = demuxed (HwDecode.log w) ++ (if r <? 0 then [] else [pkt])).
    { subst w1. cbn [HwDecode.log HwDecode.set_log HwDecode.set_packet HwDecode.set_lib].
      rewrite demuxed_app. cbn. rewrite app_nil_r. reflexivity. }
    unfold J in Hw.
    destruct (r <? 0) eqn:Hr.
    + cbn [final pure]. unfold J. rewrite Hs1, Hd1, app_nil_r. exact Hw.
    + fold (of_stream video_stream pkt).
      destruct (of_stream video_stream pkt) eqn:Hidx.
      * unfold bind at 1.
        pose proof (hw_decode_write_submits fuel pkt w1) as [Hs2 Hd2].
        assert (Hw2 : J (final (HwDecode.decode_write fuel pkt w1))).
        { unfold J. rewrite Hs2, Hd2, Hs1, Hd1, filter_app, Hw. cbn.
          rewrite Hidx. reflexivity. }
        destruct (HwDecode.decode_write fuel pkt w1) as [ret' w2|c w2|w2|w2];
          cbn [final] in Hw2; try exact Hw2.
        unfold bind at 1. cbn [modify].
        apply IH. exact Hw2.
      * unfold bind at 1. cbn [pure].
        unfold bind at 1. cbn [modify].
        apply IH. unfold J. cbn [HwDecode.log HwDecode.set_packet].
        rewrite Hs1, Hd1, filter_app, Hw. cbn. rewrite Hidx, app_nil_r. reflexivity.
Qed.

Lemma hw_pump_filters (video_stream : Z) (fuel : nat) (ret : Z) (w : HwDecode.world) :
  submitted (HwDecode.log w)
  = filter (of_stream video_stream) (demuxed (HwDecode.log w)) ->
  single_stream video_stream
    (HwDecode.log (final (HwDecode.pump fuel video_stream ret w))).
Proof.
  intros Hw.
  pose proof (hw_read_loop_filters video_stream fuel ret w Hw) as H1.
  cbv beta in H1.
  unfold HwDecode.pump. unfold bind at 1.
  destruct (HwDecode.read_loop fuel video_stream ret w) as [r w1|c w1|w1|w1];
    cbn [final] in H1 |- *;
    try (exists []; rewrite app_nil_r; split; [exact H1|left; reflexivity]).
  unfold bind at 1. cbn [gets]. unfold bind at 1. cbn [modify].
  set (w2 := HwDecode.set_packet _ w1).
  set (flush := HwDecode.flush_packet (HwDecode.packet w1)).
  pose proof (hw_decode_write_submits fuel flush w2) as [Hs Hd].
  change (HwDecode.log w2) with (HwDecode.log w1) in Hs, Hd.
  assert (H2 : single_stream video_stream
                 (HwDecode.log (final (HwDecode.decode_write fuel flush w2)))).
  { exists [flush]. rewrite Hs, Hd, H1. split; [reflexivity|].
    right. exists flush. split; [reflexivity|]. split; reflexivity. }
  unfold bind at 1.
  destruct (HwDecode.decode_write fuel flush w2) as [r' w3|c w3|w3|w3];
    cbn [final] in H2 |- *; exact H2.
Qed.

Lemma hw_list_types (types : list Z) :
  forall w, exists w', HwDecode.list_types types w = Done tt w'
                       /\ HwDecode.log w' = HwDecode.log w
                       /\ HwDecode.output_file w' = HwDecode.output_file w.
Proof.
  induction types as [|t ts IH]; intros w.
  - exists w. repeat split.
  - cbn [HwDecode.list_types]. unfold bind at 1. cbn [HwDecode.eprintf modify].
    match goal with |- context [HwDecode.list_types ts ?w0] =>
      destruct (IH w0) as [w' [E [L O]]]
    end.
    exists w'. split; [exact E|]. split; [exact L|exact O].
Qed.

(** [main] either returns -1 or AVERROR(ENOMEM) before any packet is read,
    or goes on as [pump] with the index that [av_find_best_stream]
    returned. *)
Lemma hw_main_cases (fuel : nat) (argv : list string) (w : HwDecode.world) :
  (exists v w', HwDecode.main fuel argv w = Done v w'
                /\ (v = -1 \/ v = AVERROR_ENOMEM)
                /\ (HwDecode.log w' = HwDecode.log w
                    \/ exists r, HwDecode.log w' = HwDecode.log w ++ [EvBestStream r])
                /\ HwDecode.output_file w' = HwDecode.output_file w)
  \/ (exists video_stream ret w1,
         HwDecode.main fuel argv w = HwDecode.pump fuel video_stream ret w1
         /\ HwDecode.log w1 = HwDecode.log w ++ [EvBestStream video_stream]
         /\ (4 <= Z.of_nat (List.length argv))).
Proof.
  set (P := fun o : outcome HwDecode.world Z =>
    (exists v w', o = Done v w'
                /\ (v = -1 \/ v = AVERROR_ENOMEM)
                /\ (HwDecode.log w' = HwDecode.log w
                    \/ exists r, HwDecode.log w' = HwDecode.log w ++ [EvBestStream r])
                /\ HwDecode.output_file w' = HwDecode.output_file w)
    \/ (exists video_stream ret w1,
         o = HwDecode.pump fuel video_stream ret w1
         /\ HwDecode.log w1 = HwDecode.log w ++ [EvBestStream video_stream]
         /\ (4 <= Z.of_nat (List.length argv)))).
  change (P (HwDecode.main fuel argv w)).
  assert (early : forall v w', (v = -1 \/ v = AVERROR_ENOMEM) ->
            (HwDecode.log w' = HwDecode.log w
             \/ exists r, HwDecode.log w' = HwDecode.log w ++ [EvBestStream r]) ->
            HwDecode.output_file w' = HwDecode.output_file w -> P (Done v w')).
  { intros v w' Hv Hl Ho. left. exists v, w'. auto. }
  unfold HwDecode.main.
  destruct (Z.of_nat (List.length argv) <? 4) eqn:Hargc.
  { apply early; [left; reflexivity|left; reflexivity|reflexivity]. }
  apply Z.ltb_ge in Hargc.
  destruct (av_hwdevice_find_type_by_name (nth 1 argv "") =? AV_HWDEVICE_TYPE_NONE).
  { unfold bind at 1. cbn [HwDecode.eprintf modify].
    unfold bind at 1. cbn [HwDecode.eprintf modify].
    unfold bind at 1.
    match goal with |- context [HwDecode.list_types ?ts ?w0] =>
      destruct (hw_list_types ts w0) as [w' [E [L O]]]; rewrite E
    end.
    unfold bind at 1. cbn [HwDecode.eprintf modify]. cbn [pure].
    apply early; [left; reflexivity| |];
      cbn [HwDecode.log HwDecode.set_stderr HwDecode.output_file].
    - left. rewrite L. reflexivity.
    - rewrite O. reflexivity. }
  unfold bind at 1. unfold HwDecode.call at 1.
  destruct (avformat_open_input (nth 2 argv "") (HwDecode.lib w)) as [r1 l1].
  cbn [fst snd].
  destruct (negb (r1 =? 0)).
  { apply early; [left; reflexivity|left; reflexivity|reflexivity]. }
  unfold bind at 1. unfold HwDecode.call at 1. cbn [HwDecode.lib HwDecode.set_lib].
  destruct (avformat_find_stream_info l1) as [r2 l2]. cbn [fst snd].
  destruct (r2 <? 0).
  { apply early; [left; reflexivity|left; reflexivity|reflexivity]. }
  unfold bind at 1. unfold HwDecode.call at 1. cbn [HwDecode.lib HwDecode.set_lib].
  destruct (av_find_best_stream l2) as [[vs name] l3]. cbn [fst snd].
  unfold bind at 1. cbn [HwDecode.note modify].
  destruct (vs <? 0).
  { apply early; [left; reflexivity|right; exists vs; reflexivity|reflexivity]. }
  unfold bind at 1. cbn [gets].
  cbn [HwDecode.lib HwDecode.set_lib HwDecode.set_log].
  destruct (HwDecode.find_hw_config (avcodec_hw_configs l3) _) as [fmt|].
  2:{ apply early; [left; reflexivity|right; exists vs; reflexivity|reflexivity]. }
  unfold bind at 1. cbn [modify].
  unfold bind at 1. unfold HwDecode.call at 1.
  cbn [HwDecode.lib HwDecode.set_lib HwDecode.set_log HwDecode.set_hw_pix_fmt].
  destruct (avcodec_alloc_context3 l3) as [ctx l4]. cbn [fst snd].
  destruct (negb ctx).
  { apply early; [right; reflexivity|right; exists vs; reflexivity|reflexivity]. }
  unfold bind at 1. unfold HwDecode.call at 1. cbn [HwDecode.lib HwDecode.set_lib].
  destruct (avcodec_parameters_to_context vs l4) as [r5 l5]. cbn [fst snd].
  destruct (r5 <? 0).
  { apply early; [left; reflexivity|right; exists vs; reflexivity|reflexivity]. }
  unfold bind at 1. unfold HwDecode.hw_decoder_init.
  unfold bind at 1. unfold HwDecode.call at 1. cbn [HwDecode.lib HwDecode.set_lib].
  destruct (av_hwdevice_ctx_create _ l5) as [r6 l6]. cbn [fst snd].
  destruct (r6 <? 0) eqn:Hr6.
  { unfold bind at 1. cbn [HwDecode.eprintf modify pure]. rewrite Hr6.
    apply early; [left; reflexivity|right; exists vs; reflexivity|reflexivity]. }
  cbn [pure]. rewrite Hr6.
  unfold bind at 1. unfold HwDecode.call at 1. cbn [HwDecode.lib HwDecode.set_lib].
  destruct (avcodec_open2 None l6) as [r7 l7]. cbn [fst snd].
  destruct (r7 <? 0).
  { apply early; [left; reflexivity|right; exists vs; reflexivity|reflexivity]. }
  unfold bind at 1. unfold HwDecode.call at 1. cbn [HwDecode.lib HwDecode.set_lib].
  destruct (fopen_write (nth 3 argv "") l7) as [f l8]. cbn [fst snd].
  unfold bind at 1. cbn [modify].
  right. eexists vs, r7, _. split; [reflexivity|]. split; [reflexivity|exact Hargc].
Qed.

End HwLog.

Section SingleStream.
Context {av : Libav}.

(** C10.  In any run of [video_hw_decode.cpp], cut off anywhere, the
    packets handed to [avcodec_send_packet] are exactly the packets
    delivered by [av_read_frame] whose [stream_index] is the index that
    [av_find_best_stream] returned, in the order of delivery, followed at
    most by the packet of the flush, which carries nothing ([data = NULL]
    and [size = 0]).  A packet of another stream is not submitted: the
    round of the read loop that reads it logs the read and nothing else,
    leaves the error stream and the output file alone, hands the packet to
    [av_packet_unref], and goes on to the next round with the result of
    the read. *)
Theorem only_selected_stream_submitted :
  (forall fuel argv l pkt0 video_stream,
      In (EvBestStream video_stream)
         (HwDecode.log (final (HwDecode.main fuel argv (HwDecode.start l pkt0)))) ->
      single_stream video_stream
         (HwDecode.log (final (HwDecode.main fuel argv (HwDecode.start l pkt0)))))
  /\ (forall fuel video_stream ret (w : HwDecode.world) r pkt l',
        0 <= ret ->
        av_read_frame (HwDecode.lib w) = (r, pkt, l') ->
        0 <= r ->
        stream_index pkt <> video_stream ->
        HwDecode.read_loop (S fuel) video_stream ret w
        = HwDecode.read_loop fuel video_stream r
            (HwDecode.mkWorld l' (HwDecode.stderr w) (HwDecode.hw_pix_fmt w)
               (HwDecode.output_file w) (av_packet_unref pkt)
               (HwDecode.log w ++ [EvReadFrame r pkt]))).
Proof.
  split.
  - intros fuel argv l pkt0 video_stream.
    destruct (hw_main_cases fuel argv (HwDecode.start l pkt0))
      as [[v [w' [E [_ [L _]]]]] | [vs [ret [w1 [E [L _]]]]]]; rewrite E.
    + cbn [final]. intros _. exists [].
      destruct L as [L | [r L]]; rewrite L; cbn; split; auto.
    + cbn [HwDecode.log HwDecode.start app] in L. intros Hin.
      assert (Hvs : video_stream = vs).
      { refine (hw_pump_quiet
                  (fun log => forall v, In (EvBestStream v) log -> v = vs)
                  (fun e => match e with EvBestStream _ => false | _ => true end)
                  _ _ _ _ _ _ vs fuel ret w1 _ video_stream Hin); try reflexivity.
        - intros log e He H v Hv. apply in_app_or in Hv. destruct Hv as [Hv|[Hv|[]]].
          + apply H, Hv.
          + subst e. discriminate He.
        - rewrite L. intros v [Hv|[]]. congruence. }
      subst vs. apply hw_pump_filters. rewrite L. reflexivity.
  - intros fuel video_stream ret w r pkt l' Hret E Hr Hidx.
    cbn [HwDecode.read_loop].
    apply Z.ltb_ge in Hret. rewrite Hret.
    unfold bind at 1. unfold HwDecode.call at 1. rewrite E. cbn [fst snd].
    unfold bind at 1. cbn [modify].
    unfold bind at 1. cbn [HwDecode.note modify].
    apply Z.ltb_ge in Hr. rewrite Hr.
    assert (Hne : (video_stream =? stream_index pkt) = false).
    { apply Z.eqb_neq. intros H. apply Hidx. symmetry. exact H. }
    rewrite Hne. unfold bind at 1. cbn [pure].
    unfold bind at 1. cbn [modify].
    cbn [HwDecode.lib HwDecode.stderr HwDecode.hw_pix_fmt HwDecode.output_file
         HwDecode.packet HwDecode.log HwDecode.set_lib HwDecode.set_packet
         HwDecode.set_log].
    reflexivity.
Qed.

End SingleStream.

(** A container with packets of the streams 0, 1, 0 and 1; the toy demuxer
    selects stream 1.  The packets of stream 1 and the flush packet are
    submitted; the round that reads the first packet, of stream 0,
    releases it and submits nothing. *)
Lemma only_selected_stream_submitted_witness :
  (let w := final (@HwDecode.main Toy.lib 20 ["hwdecode"; "toy"; "in"; "out"]
                    (Toy.hw_decoding 0
                       [Toy.packet_of 0 [1]; Toy.packet_of 1 [2];
                        Toy.packet_of 0 [3]; Toy.packet_of 1 [4]])) in
   single_stream 1 (HwDecode.log w)
   /\ submitted (HwDecode.log w)
      = [Toy.packet_of 1 [2]; Toy.packet_of 1 [4]; mkPacket None 0 0 0])
  /\ @HwDecode.read_loop Toy.lib 3 1 0
       (Toy.hw_decoding 0 [Toy.packet_of 0 [1]; Toy.packet_of 1 [2]])
     = @HwDecode.read_loop Toy.lib 2 1 0
         (@HwDecode.mkWorld Toy.lib (Toy.fresh 0 [] [Toy.packet_of 1 [2]]) [] 0 None
            Toy.empty_packet [EvReadFrame 0 (Toy.packet_of 0 [1])]).
Proof.
  destruct (@only_selected_stream_submitted Toy.lib) as [H1 H2].
  split; [split|].
  - apply H1. vm_compute. left. reflexivity.
  - vm_compute. reflexivity.
  - apply (H2 2%nat 1 0 (Toy.hw_decoding 0 [Toy.packet_of 0 [1]; Toy.packet_of 1 [2]])
              0 (Toy.packet_of 0 [1]) (Toy.fresh 0 [] [Toy.packet_of 1 [2]])).
    + lia.
    + reflexivity.
    + lia.
    + cbn. lia.
Defined.

(** ** The encoder's output file *)

Ltac encode_fields :=
  cbn [final Encode.outfile Encode.log Encode.stderr Encode.stdout Encode.lib
       Encode.set_log Encode.set_lib Encode.set_stderr Encode.set_outfile
       Encode.set_stdout].

Ltac encode_fields_in H :=
  cbn [final Encode.outfile Encode.log Encode.stderr Encode.stdout Encode.lib
       Encode.set_log Encode.set_lib Encode.set_stderr Encode.set_outfile
       Encode.set_stdout] in H.

Ltac hw_fields :=
  cbn [final HwDecode.lib HwDecode.stderr HwDecode.hw_pix_fmt HwDecode.output_file
       HwDecode.packet HwDecode.log HwDecode.set_lib HwDecode.set_stderr
       HwDecode.set_hw_pix_fmt HwDecode.set_output_file HwDecode.set_packet
       HwDecode.set_log].

Ltac hw_fields_in H :=
  cbn [final HwDecode.lib HwDecode.stderr HwDecode.hw_pix_fmt HwDecode.output_file
       HwDecode.packet HwDecode.log HwDecode.set_lib HwDecode.set_stderr
       HwDecode.set_hw_pix_fmt HwDecode.set_output_file HwDecode.set_packet
       HwDecode.set_log] in H.

Section EncodeFile.
Context {av : Libav}.

Lemma packets_bytes_app (l1 l2 : list event) :
  packets_bytes (l1 ++ l2) = packets_bytes l1 ++ packets_bytes l2.
Proof. apply flat_map_app. Qed.

Lemma produced_cases (r : Z) :
  produced r = if stops r then false else negb (r <? 0).
Proof. unfold produced, stops. destruct (_ || _); reflexivity. Qed.

Lemma encode_drain_file (fuel : nat) :
  forall ret, invariant file_follows_log (Encode.drain fuel ret).
Proof.
  induction fuel as [|fuel IH]; intros ret w Hw.
  - cbn [Encode.drain]. destruct (ret <? 0); exact Hw.
  - destruct (ret <? 0) eqn:Hret.
    + cbn [Encode.drain]. rewrite Hret. exact Hw.
    + apply Z.ltb_ge in Hret.
      pose proof (encode_drain_round fuel ret w Hret) as R.
      destruct (avcodec_receive_packet (Encode.lib w)) as [[r pkt] l'].
      cbv zeta in R. rewrite R. clear R.
      assert (Hlog : packets_bytes (Encode.log w ++ [EvReceivePacket r pkt])
                     = packets_bytes (Encode.log w)
                       ++ (if produced r
                           then firstn (Z.to_nat (to_size_t (pkt_size pkt)))
                                  (Encode.payload pkt)
                           else [])).
      { rewrite packets_bytes_app. cbn. rewrite app_nil_r. reflexivity. }
      rewrite produced_cases in Hlog. unfold file_follows_log in Hw.
      destruct (stops r).
      * unfold file_follows_log. encode_fields. rewrite Hlog, app_nil_r. exact Hw.
      * destruct (r <? 0).
        -- unfold file_follows_log. encode_fields. rewrite Hlog, app_nil_r. exact Hw.
        -- unfold bind at 1. cbn [Encode.printf modify].
           unfold bind at 1. cbn [Encode.fwrite modify].
           apply IH. unfold file_follows_log. encode_fields.
           rewrite Hlog, Hw. reflexivity.
Qed.

Lemma encode_file (fuel : nat) (frame : option AVFrame) :
  invariant file_follows_log (Encode.encode fuel frame).
Proof.
  assert (Hq : forall e w, packets_bytes [e] = [] -> file_follows_log w ->
                 file_follows_log (Encode.set_log (Encode.log w ++ [e]) w)).
  { intros e w He H. unfold file_follows_log in *. encode_fields.
    rewrite packets_bytes_app, He, app_nil_r. exact H. }
  unfold Encode.encode, Encode.note, Encode.eprintf, Encode.printf.
  apply invariant_bind.
  { destruct frame; [apply invariant_modify; intros ? H; exact H|apply invariant_pure]. }
  intros _. apply invariant_bind.
  { intros w H. exact H. }
  intros ret. apply invariant_bind.
  { apply invariant_modify. intros w H. apply Hq; [reflexivity|exact H]. }
  intros _. destruct (ret <? 0); [|apply encode_drain_file].
  apply invariant_bind; [apply invariant_modify; intros ? H; exact H|intros _].
  apply invariant_exit.
Qed.

Lemma encode_frames_loop_file (fuel : nat) (c : AVCodecContext) (values : list Z) :
  forall frame, invariant file_follows_log (Encode.frames_loop fuel c frame values).
Proof.
  induction values as [|i rest IH]; intros frame; cbn [Encode.frames_loop].
  - apply invariant_pure.
  - apply invariant_bind; [apply encode_file|intros _; apply IH].
Qed.

(** [main] stops at the usage test with code 0, or stops during set-up with
    code 1, or goes on as [pump]; nothing is written to the file before. *)
Lemma encode_main_cases (fuel : nat) (argv : list string) (w : Encode.world) :
  (Z.of_nat (List.length argv) <= 2
   /\ Encode.main fuel argv w
      = Exit 0 (Encode.set_stderr
                  (Encode.stderr w
                   ++ ["Usage: " ++ nth 0 argv "" ++ " <output file> <codec name>" ++ nl]%string)
                  w))
  \/ (2 < Z.of_nat (List.length argv)
      /\ exists w', Encode.main fuel argv w = Exit 1 w'
           /\ Encode.outfile w' = Encode.outfile w
           /\ Encode.log w' = Encode.log w
           /\ ((exists msg, Encode.stderr w' = Encode.stderr w ++ [msg])
               \/ (Encode.stderr w' = Encode.stderr w
                   /\ exists l l', av_packet_alloc l = (false, l'))))
  \/ (2 < Z.of_nat (List.length argv)
      /\ exists c frame w1, Encode.main fuel argv w = Encode.pump fuel c frame w1
           /\ Encode.outfile w1 = Encode.outfile w
           /\ Encode.log w1 = Encode.log w
           /\ Encode.stderr w1 = Encode.stderr w).
Proof.
  unfold Encode.main.
  destruct (Z.of_nat (List.length argv) <=? 2) eqn:Hargc.
  { left. apply Z.leb_le in Hargc. split; [exact Hargc|reflexivity]. }
  apply Z.leb_gt in Hargc. right.
  set (P := fun o : outcome Encode.world Z =>
    (2 < Z.of_nat (List.length argv)
      /\ exists w', o = Exit 1 w'
           /\ Encode.outfile w' = Encode.outfile w
           /\ Encode.log w' = Encode.log w
           /\ ((exists msg, Encode.stderr w' = Encode.stderr w ++ [msg])
               \/ (Encode.stderr w' = Encode.stderr w
                   /\ exists l l', av_packet_alloc l = (false, l'))))
    \/ (2 < Z.of_nat (List.length argv)
      /\ exists c frame w1, o = Encode.pump fuel c frame w1
           /\ Encode.outfile w1 = Encode.outfile w
           /\ Encode.log w1 = Encode.log w
           /\ Encode.stderr w1 = Encode.stderr w)).
  match goal with |- _ \/ (_ /\ exists c frame w1, ?o = _ /\ _) => change (P o) end.
  assert (die : forall msg l,
            P (Exit 1 (Encode.set_stderr (Encode.stderr w ++ [msg]) (Encode.set_lib l w)))).
  { intros msg l. left. split; [exact Hargc|]. eexists. split; [reflexivity|].
    encode_fields. repeat split. left. exists msg. reflexivity. }
  unfold bind at 1. unfold Encode.call at 1.
  destruct (avcodec_find_encoder_by_name (nth 2 argv "") (Encode.lib w)) as [[id|] l1];
    cbn [fst snd]; [|apply die].
  unfold bind at 1. unfold Encode.call at 1. encode_fields.
  destruct (avcodec_alloc_context3 l1) as [ctx l2]. cbn [fst snd].
  unfold bind at 1.
  destruct ctx; cbn [negb when bind Encode.eprintf modify exit pure]; [|apply die].
  unfold bind at 1.
  assert (Hopt : exists l3,
            when (id =? AV_CODEC_ID_H264)
              (modify (fun w0 => Encode.set_lib (av_opt_set "preset" "slow" (Encode.lib w0)) w0))
              (Encode.set_lib l2 (Encode.set_lib l1 w))
            = Done tt (Encode.set_lib l3 w)).
  { destruct (id =? AV_CODEC_ID_H264); eexists; reflexivity. }
  destruct Hopt as [l3 Hopt]. rewrite Hopt. clear Hopt.
  unfold bind at 1. unfold Encode.call at 1. encode_fields.
  destruct (avcodec_open2 (Some Encode.settings) l3) as [r4 l4]. cbn [fst snd].
  unfold bind at 1.
  destruct (r4 <? 0); cbn [when bind Encode.eprintf modify exit pure]; [apply die|].
  unfold bind at 1. unfold Encode.call at 1. encode_fields.
  destruct (fopen_write (nth 1 argv "") l4) as [f l5]. cbn [fst snd].
  unfold bind at 1.
  destruct f; cbn [negb when bind Encode.eprintf modify exit pure]; [|apply die].
  unfold bind at 1. unfold Encode.call at 1. encode_fields.
  destruct (av_packet_alloc l5) as [pkt l6] eqn:Epkt. cbn [fst snd].
  unfold bind at 1.
  destruct pkt; cbn [negb when bind Encode.eprintf modify exit pure].
  2:{ left. split; [exact Hargc|]. eexists. split; [reflexivity|].
      encode_fields. repeat split. right. split; [reflexivity|].
      exists l5, l6. exact Epkt. }
  unfold bind at 1. unfold Encode.call at 1. encode_fields.
  destruct (av_frame_alloc l6) as [fr l7]. cbn [fst snd].
  unfold bind at 1.
  destruct fr; cbn [negb when bind Encode.eprintf modify exit pure]; [|apply die].
  unfold bind at 1. unfold Encode.call at 1. encode_fields.
  destruct (av_frame_get_buffer _ l7) as [[r8 frame] l8]. cbn [fst snd].
  unfold bind at 1.
  destruct (r8 <? 0); cbn [when bind Encode.eprintf modify exit pure]; [apply die|].
  right. split; [exact Hargc|]. eexists _, _, _. split; [reflexivity|].
  encode_fields. repeat split.
Qed.

(** C5.  When [video_encode.cpp] runs to its [return 0], the output file
    holds the bytes of every packet the encoder handed out, in the order
    of retrieval and through the flush, followed by the four constant
    bytes 0x00 0x00 0x01 0xB7, which are its last bytes. *)
Theorem end_code_is_last (fuel : nat) (argv : list string) (l : Lib)
  (v : Z) (w : Encode.world) :
  Encode.main fuel argv (Encode.start l) = Done v w ->
  v = 0 /\ Encode.outfile w = packets_bytes (Encode.log w) ++ [0; 0; 1; 183].
Proof.
  intros Hrun.
  destruct (encode_main_cases fuel argv (Encode.start l))
    as [[_ E] | [[_ [w' [E _]]] | [_ [c [frame [w1 [E [Ho [Hl _]]]]]]]]];
    rewrite E in Hrun; try discriminate Hrun.
  assert (H1 : file_follows_log w1).
  { unfold file_follows_log. rewrite Ho, Hl. reflexivity. }
  unfold Encode.pump in Hrun. unfold bind at 1 in Hrun.
  pose proof (encode_frames_loop_file fuel c (upto 25) frame w1 H1) as H2.
  destruct (Encode.frames_loop fuel c frame (upto 25) w1) as [[] w2| | |];
    try discriminate Hrun.
  cbn [final] in H2. unfold bind at 1 in Hrun.
  pose proof (encode_file fuel None w2 H2) as H3.
  destruct (Encode.encode fuel None w2) as [[] w3| | |]; try discriminate Hrun.
  cbn [final] in H3. cbn in Hrun. injection Hrun as Hv Hw. subst v w.
  split; [reflexivity|]. encode_fields. rewrite H3. reflexivity.
Qed.

End EncodeFile.

(** The encoder of the toy library, with a latency of one picture: 25
    packets of two bytes, then the end code. *)
Lemma end_code_is_last_witness :
  exists w,
    @Encode.main Toy.lib 5 ["encode"; "out"; "toy"] (Toy.encoding 1) = Done 0 w
    /\ Encode.outfile w = @packets_bytes Toy.lib (Encode.log w) ++ [0; 0; 1; 183].
Proof.
  remember (@Encode.main Toy.lib 5 ["encode"; "out"; "toy"] (Toy.encoding 1))
    as o eqn:Ho.
  assert (Hd : match o with Done v _ => v =? 0 | _ => false end = true).
  { subst o. vm_compute. reflexivity. }
  destruct o as [v w| | |]; try discriminate Hd.
  apply Z.eqb_eq in Hd. subst v. exists w. split; [reflexivity|].
  exact (proj2 (@end_code_is_last Toy.lib 5 ["encode"; "out"; "toy"]
                  (Toy.fresh 1 [] []) 0 w (eq_sym Ho))).
Defined.

(** ** The decode artifacts *)

Ltac decode_fields :=
  cbn [final Decode.lib Decode.stdout Decode.stderr Decode.saved Decode.fin
       Decode.fin_eof Decode.inbuf Decode.cursor Decode.data_size Decode.log
       Decode.set_lib Decode.set_stdout Decode.set_stderr Decode.set_saved
       Decode.set_file Decode.set_inbuf Decode.set_cursor Decode.set_data_size
       Decode.set_log].

Ltac decode_fields_in H :=
  cbn [final Decode.lib Decode.stdout Decode.stderr Decode.saved Decode.fin
       Decode.fin_eof Decode.inbuf Decode.cursor Decode.data_size Decode.log
       Decode.set_lib Decode.set_stdout Decode.set_stderr Decode.set_saved
       Decode.set_file Decode.set_inbuf Decode.set_cursor Decode.set_data_size
       Decode.set_log] in H.

Ltac triple_step :=
  lazymatch goal with
  | |- triple _ (bind _ _) _ _ => apply triple_seq; [|intros]
  | |- triple _ (pure _) _ _ => apply triple_pure; intros ? H; exact H
  | |- triple _ (gets _) _ _ => apply triple_gets; intros ? H; exact H
  | |- triple _ (when _ _) _ _ => apply triple_when
  | |- triple _ (if ?b then _ else _) _ _ => destruct b
  | |- triple _ (match ?x with _ => _ end) _ _ => destruct x
  end.

Section DecodeLog.
Context {av : Libav}.

Lemma decode_triple_call {A} (P I : Decode.world -> Prop) (f : Lib -> A * Lib) :
  (forall l w, P w -> P (Decode.set_lib l w)) ->
  triple P (Decode.call f) (fun _ => P) I.
Proof. intros H w Hw. apply H, Hw. Qed.

(** Properties of the saved files and the log that the drain loop keeps
    are kept by the whole read loop, as long as the events of the other
    calls do not disturb them. *)
Section Pump.
Variables R R' : list (string * list byte) -> list event -> Prop.
Variable q : event -> bool.
Variable outfilename : string.

Let J (w : Decode.world) : Prop := R (Decode.saved w) (Decode.log w).
Let J' (w : Decode.world) : Prop := R' (Decode.saved w) (Decode.log w).

Hypothesis R_weak : forall s log, R s log -> R' s log.
Hypothesis R_q : forall s log e, q e = true -> R s log -> R s (log ++ [e]).
Hypothesis q_fread : forall c, q (EvFread c) = true.
Hypothesis q_parse : forall b c s r o, q (EvParse b c s r o) = true.
Hypothesis q_payload : forall d s r,
  s <> 0 -> q (EvSendPacket (Some (mkPacket d s AV_NOPTS_VALUE 0)) r) = true.
Hypothesis drain_ok : forall fuel ret,
  triple J (Decode.drain fuel outfilename ret) (fun _ => J) J'.

Ltac plain :=
  first [ apply decode_triple_call; intros ? ? H; exact H
        | apply triple_modify; intros ? H; exact H
        | apply triple_exit; intros ? H; apply R_weak; exact H
        | apply triple_out_of_fuel; intros ? H; apply R_weak; exact H ].

Lemma decode_log (fuel : nat) (pkt : option AVPacket) :
  (forall r, q (EvSendPacket pkt r) = true) ->
  triple J (Decode.decode fuel pkt outfilename) (fun _ => J) J'.
Proof.
  intros Hq. unfold Decode.decode, Decode.note, Decode.eprintf.
  apply triple_seq; [plain|intros ret].
  apply triple_seq.
  { apply triple_modify. intros w H. apply R_q; [apply Hq|exact H]. }
  intros _. destruct (ret <? 0); [|apply drain_ok].
  apply triple_seq; [plain|intros _; plain].
Qed.

Lemma parse_chunk_log (fuel : nat) :
  triple J (Decode.parse_chunk fuel outfilename) (fun _ => J) J'.
Proof.
  induction fuel as [|fuel IH]; cbn [Decode.parse_chunk].
  - apply triple_seq; [triple_step|intros size].
    destruct (size >? 0); [plain|triple_step].
  - apply triple_seq; [triple_step|intros size].
    destruct (size >? 0); [|triple_step].
    apply triple_seq; [triple_step|intros w0].
    apply triple_seq; [plain|intros [[ret poutbuf] poutbuf_size]].
    apply triple_seq.
    { apply triple_modify. intros w H. apply R_q; [apply q_parse|exact H]. }
    intros _. unfold Decode.eprintf. destruct (ret <? 0).
    { apply triple_seq; [plain|intros _; plain]. }
    apply triple_seq; [plain|intros _].
    apply triple_seq; [|intros _; exact IH].
    destruct (poutbuf_size =? 0) eqn:Hsize; cbn [negb when]; [triple_step|].
    apply decode_log. intros r. apply q_payload. apply Z.eqb_neq, Hsize.
Qed.

Lemma read_loop_log (fuel : nat) :
  triple J (Decode.read_loop fuel outfilename) (fun _ => J) J'.
Proof.
  induction fuel as [|fuel IH]; cbn [Decode.read_loop].
  - apply triple_seq; [triple_step|intros eof]. destruct eof; [triple_step|plain].
  - apply triple_seq; [triple_step|intros eof]. destruct eof; [triple_step|].
    apply triple_seq.
    { intros w H. unfold Decode.fread, Decode.after_fread. unfold J. decode_fields.
      apply R_q; [apply q_fread|exact H]. }
    intros n. apply triple_seq; [plain|intros _].
    destruct (n =? 0); [triple_step|].
    apply triple_seq; [plain|intros _].
    apply triple_seq; [apply parse_chunk_log|intros _; exact IH].
Qed.

End Pump.
Lemma retrieved_app (l1 l2 : list event) :
  retrieved (l1 ++ l2) = retrieved l1 ++ retrieved l2.
Proof. apply flat_map_app. Qed.

Lemma named_after_weak (base : string) (saved : list (string * list byte))
  (log : list event) :
  named_after base saved log -> named_after_so_far base saved log.
Proof.
  unfold named_after, named_after_so_far. intros H.
  assert (Hlen : List.length saved = List.length (retrieved log)).
  { apply (f_equal (@List.length string)) in H. rewrite !length_map in H. exact H. }
  rewrite Hlen, firstn_all. exact H.
Qed.

(** The drain loop names each file after the count read at its retrieval. *)
Lemma drain_names (base : string) (fuel : nat) :
  forall ret,
    triple (fun w => named_after base (Decode.saved w) (Decode.log w))
      (Decode.drain fuel base ret)
      (fun _ w => named_after base (Decode.saved w) (Decode.log w))
      (fun w => named_after_so_far base (Decode.saved w) (Decode.log w)).
Proof.
  induction fuel as [|fuel IH]; intros ret w Hw.
  - cbn [Decode.drain]. destruct (ret <? 0); [exact Hw|apply named_after_weak, Hw].
  - destruct (ret <? 0) eqn:Hret.
    { cbn [Decode.drain]. rewrite Hret. exact Hw. }
    apply Z.ltb_ge in Hret.
    pose proof (decode_drain_round fuel base ret w Hret) as Rd.
    destruct (avcodec_receive_frame (Decode.lib w)) as [[r frame] l'].
    cbv zeta in Rd. rewrite Rd. clear Rd.
    assert (Hlog : retrieved (Decode.log w ++ [EvReceiveFrame r (format frame) (frame_number l')])
                   = retrieved (Decode.log w)
                     ++ (if produced r then [frame_number l'] else [])).
    { rewrite retrieved_app. cbn. rewrite app_nil_r. reflexivity. }
    rewrite produced_cases in Hlog. unfold named_after in Hw.
    destruct (stops r).
    + unfold named_after. decode_fields. rewrite Hlog, app_nil_r. exact Hw.
    + destruct (r <? 0).
      * apply named_after_weak. unfold named_after. decode_fields.
        rewrite Hlog, app_nil_r. exact Hw.
      * cbn [negb] in Hlog.
        unfold bind at 1. cbn [Decode.printf modify].
        unfold bind at 1. unfold Decode.pgm_save.
        unfold bind at 1. unfold Decode.call at 1. decode_fields.
        destruct (fopen_write _ l') as [f l2]. cbn [fst snd].
        destruct f; cbn [negb fault modify].
        -- apply IH. unfold named_after. decode_fields.
           rewrite Hlog, !map_app, Hw. reflexivity.
        -- unfold named_after_so_far. decode_fields.
           rewrite Hlog, firstn_app.
           assert (Hlen : List.length (Decode.saved w)
                          = List.length (retrieved (Decode.log w))).
           { apply (f_equal (@List.length string)) in Hw.
             rewrite !length_map in Hw. exact Hw. }
           rewrite Hlen, firstn_all, Nat.sub_diag. cbn [firstn].
           rewrite app_nil_r. exact Hw.
Qed.

(** [main] stops at the usage test with code 0, or stops during set-up with
    code 1, or goes on as [pump] once the input file is open and the
    padding of [inbuf] is cleared. *)
Lemma decode_main_cases (fuel : nat) (argv : list string) (w : Decode.world) :
  (Z.of_nat (List.length argv) <= 3
   /\ Decode.main fuel argv w
      = Exit 0 (Decode.set_stderr
                  (Decode.stderr w
                   ++ ["Usage: " ++ nth 0 argv ""
                       ++ " <input file> <output file> <codec name>" ++ nl]%string)
                  w))
  \/ (3 < Z.of_nat (List.length argv)
      /\ exists w', Decode.main fuel argv w = Exit 1 w'
           /\ w' = Decode.set_stderr (Decode.stderr w') (Decode.set_lib (Decode.lib w') w)
           /\ ((exists msg, Decode.stderr w' = Decode.stderr w ++ [msg])
               \/ (Decode.stderr w' = Decode.stderr w
                   /\ exists l l', av_packet_alloc l = (false, l'))))
  \/ (3 < Z.of_nat (List.length argv)
      /\ exists content l1,
           Decode.main fuel argv w
           = Decode.pump fuel (nth 2 argv "")
               (Decode.set_inbuf Decode.inbuf_init
                  (Decode.set_file content false (Decode.set_lib l1 w)))).
Proof.
  unfold Decode.main.
  destruct (Z.of_nat (List.length argv) <=? 3) eqn:Hargc.
  { left. apply Z.leb_le in Hargc. split; [exact Hargc|reflexivity]. }
  apply Z.leb_gt in Hargc. right.
  set (P := fun o : outcome Decode.world Z =>
    (3 < Z.of_nat (List.length argv)
      /\ exists w', o = Exit 1 w'
           /\ w' = Decode.set_stderr (Decode.stderr w') (Decode.set_lib (Decode.lib w') w)
           /\ ((exists msg, Decode.stderr w' = Decode.stderr w ++ [msg])
               \/ (Decode.stderr w' = Decode.stderr w
                   /\ exists l l', av_packet_alloc l = (false, l'))))
    \/ (3 < Z.of_nat (List.length argv)
      /\ exists content l1,
           o = Decode.pump fuel (nth 2 argv "")
                 (Decode.set_inbuf Decode.inbuf_init
                    (Decode.set_file content false (Decode.set_lib l1 w))))).
  match goal with |- _ \/ (_ /\ exists content l1, ?o = _) => change (P o) end.
  assert (die : forall msg l,
            P (Exit 1 (Decode.set_stderr (Decode.stderr w ++ [msg]) (Decode.set_lib l w)))).
  { intros msg l. left. split; [exact Hargc|]. eexists. split; [reflexivity|].
    decode_fields. split; [reflexivity|]. left. exists msg. reflexivity. }
  unfold bind at 1. unfold Decode.call at 1.
  destruct (avcodec_find_decoder_by_name (nth 3 argv "") (Decode.lib w)) as [codec l1].
  cbn [fst snd]. unfold bind at 1.
  destruct codec; cbn [negb when bind Decode.eprintf modify exit pure]; [|apply die].
  unfold bind at 1. unfold Decode.call at 1. decode_fields.
  destruct (av_parser_init l1) as [parser l2]. cbn [fst snd]. unfold bind at 1.
  destruct parser; cbn [negb when bind Decode.eprintf modify exit pure]; [|apply die].
  unfold bind at 1. unfold Decode.call at 1. decode_fields.
  destruct (avcodec_alloc_context3 l2) as [c l3]. cbn [fst snd]. unfold bind at 1.
  destruct c; cbn [negb when bind Decode.eprintf modify exit pure]; [|apply die].
  unfold bind at 1. unfold Decode.call at 1. decode_fields.
  destruct (av_frame_alloc l3) as [frame l4]. cbn [fst snd]. unfold bind at 1.
  destruct frame; cbn [negb when bind Decode.eprintf modify exit pure]; [|apply die].
  unfold bind at 1. unfold Decode.call at 1. decode_fields.
  destruct (av_packet_alloc l4) as [pkt l5] eqn:Epkt. cbn [fst snd]. unfold bind at 1.
  destruct pkt; cbn [negb when bind Decode.eprintf modify exit pure].
  2:{ left. split; [exact Hargc|]. eexists. split; [reflexivity|].
      decode_fields. split; [destruct w; reflexivity|]. right. split; [reflexivity|].
      exists l4, l5. exact Epkt. }
  unfold bind at 1. unfold Decode.call at 1. decode_fields.
  destruct (avcodec_open2 None l5) as [r l6]. cbn [fst snd]. unfold bind at 1.
  destruct (r <? 0); cbn [when bind Decode.eprintf modify exit pure]; [apply die|].
  unfold bind at 1. unfold Decode.call at 1. decode_fields.
  destruct (fopen_read (nth 1 argv "") l6) as [[content|] l7]; cbn [fst snd];
    [|apply die].
  unfold bind at 1. cbn [modify]. unfold bind at 1. cbn [modify].
  right. split; [exact Hargc|]. exists content, l7. reflexivity.
Qed.

Lemma list_ascii_length (s : string) :
  List.length (list_ascii_of_string s) = String.length s.
Proof. induction s as [|c s IH]; cbn; [reflexivity|rewrite IH; reflexivity]. Qed.

Lemma pump_names (base : string) (fuel : nat) :
  triple (fun w => named_after base (Decode.saved w) (Decode.log w))
    (Decode.pump fuel base)
    (fun _ w => named_after base (Decode.saved w) (Decode.log w))
    (fun w => named_after_so_far base (Decode.saved w) (Decode.log w)).
Proof.
  assert (Hq : forall s log e,
             (match e with EvReceiveFrame _ _ _ => false | _ => true end) = true ->
             named_after base s log -> named_after base s (log ++ [e])).
  { intros s log e He H. unfold named_after in *. rewrite retrieved_app.
    destruct e; try discriminate He; cbn; rewrite app_nil_r; exact H. }
  unfold Decode.pump.
  apply triple_seq.
  { apply (read_loop_log (named_after base) (named_after_so_far base)
             (fun e => match e with EvReceiveFrame _ _ _ => false | _ => true end)
             base (named_after_weak base) Hq); try reflexivity.
    apply drain_names. }
  intros _. apply triple_seq.
  { apply (decode_log (named_after base) (named_after_so_far base)
             (fun e => match e with EvReceiveFrame _ _ _ => false | _ => true end)
             base (named_after_weak base) Hq); try reflexivity.
    apply drain_names. }
  intros _. apply triple_pure. auto.
Qed.

(** The names of the files of [video_decode.cpp].  In any run, cut off
    anywhere, the i-th file written by [pgm_save] is named by what
    [snprintf] leaves in [buf] of the text [<base>-<count>], where
    [<base>] is the output argument and [<count>] is
    [dec_ctx->frame_number] as read after the i-th retrieval that handed
    out a frame; when the program returns, every such retrieval has its
    file.  The name is the whole text [<base>-<count>] whenever that text
    has at most 1023 characters. *)
Theorem artifact_names (fuel : nat) (argv : list string) (l : Lib) :
  let o := Decode.main fuel argv (Decode.start l) in
  let base := nth 2 argv "" in
  named_after_so_far base (Decode.saved (final o)) (Decode.log (final o))
  /\ (forall v w, o = Done v w -> named_after base (Decode.saved w) (Decode.log w))
  /\ (forall count,
        (String.length (base ++ "-" ++ dec count) <= 1023)%nat ->
        artifact_name base count = (base ++ "-" ++ dec count)%string).
Proof.
  cbv zeta. split; [|split].
  - destruct (decode_main_cases fuel argv (Decode.start l))
      as [[_ E] | [[_ [w' [E [Hw' _]]]] | [_ [content [l1 E]]]]]; rewrite E.
    + reflexivity.
    + cbn [final]. rewrite Hw'. reflexivity.
    + refine (@triple_final _
                (fun w => named_after_so_far (nth 2 argv "") (Decode.saved w) (Decode.log w))
                _ _ _ _ _ (pump_names (nth 2 argv "") fuel) _ _).
      * intros _ w'. apply named_after_weak.
      * reflexivity.
  - intros v w Hrun.
    destruct (decode_main_cases fuel argv (Decode.start l))
      as [[_ E] | [[_ [w' [E _]]] | [_ [content [l1 E]]]]];
      rewrite E in Hrun; try discriminate Hrun.
    pose proof (pump_names (nth 2 argv "") fuel
                  (Decode.set_inbuf Decode.inbuf_init
                     (Decode.set_file content false (Decode.set_lib l1 (Decode.start l))))
                  eq_refl) as H.
    rewrite Hrun in H. exact H.
  - intros count Hlen. unfold artifact_name, snprintf.
    rewrite firstn_all2.
    + apply string_of_list_ascii_of_string.
    + rewrite list_ascii_length. cbn [Nat.sub]. lia.
Qed.

End DecodeLog.

(** A run on the toy library with the output argument [out]: three frames,
    named [out-1], [out-2] and [out-3]. *)
Lemma artifact_names_witness :
  let o := @Decode.main Toy.lib 50 ["decode"; "in"; "out"; "toy"]
             (Toy.decoding 1 [1; 2; 3; 4; 5; 6; 7; 8; 9; 10]) in
  @named_after_so_far Toy.lib "out" (Decode.saved (final o)) (Decode.log (final o))
  /\ map fst (Decode.saved (final o)) = ["out-1"; "out-2"; "out-3"]
  /\ artifact_name "out" 3 = "out-3".
Proof.
  destruct (@artifact_names Toy.lib 50 ["decode"; "in"; "out"; "toy"]
              (Toy.fresh 1 [1; 2; 3; 4; 5; 6; 7; 8; 9; 10] [])) as [H1 [_ H3]].
  cbv zeta. split; [exact H1|]. split.
  - vm_compute. reflexivity.
  - apply (H3 3). vm_compute. lia.
Defined.

(** C8.  The text [<base>-<count>] goes through [snprintf] into
    [char buf[1024]], and what does not fit is dropped.  With an output
    argument of 1025 characters the toy decoder, run on two packets,
    returns 0; the engine's counts at the two retrievals are 1 and 2, and
    both frames are written under one and the same name, the first 1023
    characters of the argument, which is neither [<base>-1] nor
    [<base>-2].  The comment in [main] has every frame go to the file
    [outfilename-{idx}]. *)
Theorem long_base_names_collide :
  let o := @Decode.main Toy.lib 20 ["decode"; "in"; Toy.long_base; "toy"]
             (Toy.decoding 0 [1; 2; 3; 4; 5; 6]) in
  let cut := string_of_list_ascii (firstn 1023 (list_ascii_of_string Toy.long_base)) in
  (exists w, o = Done 0 w)
  /\ String.length Toy.long_base = 1025%nat
  /\ @retrieved Toy.lib (Decode.log (final o)) = [1; 2]
  /\ map fst (Decode.saved (final o)) = [cut; cut]
  /\ cut <> (Toy.long_base ++ "-" ++ dec 1)%string
  /\ cut <> (Toy.long_base ++ "-" ++ dec 2)%string.
Proof.
  cbv zeta. split; [|split; [|split; [|split; [|split]]]].
  - remember (@Decode.main Toy.lib 20 ["decode"; "in"; Toy.long_base; "toy"]
                (Toy.decoding 0 [1; 2; 3; 4; 5; 6])) as o eqn:Ho.
    assert (Hdone : match o with Done v _ => v =? 0 | _ => false end = true).
    { subst o. vm_compute. reflexivity. }
    destruct o as [v w| | |]; try discriminate Hdone.
    apply Z.eqb_eq in Hdone. subst v. exists w. reflexivity.
  - vm_compute. reflexivity.
  - vm_compute. reflexivity.
  - vm_compute. reflexivity.
  - intros H. apply (f_equal String.length) in H. vm_compute in H. discriminate H.
  - intros H. apply (f_equal String.length) in H. vm_compute in H. discriminate H.
Qed.

(** ** The index in the names of the frames *)

Lemma to_int_digits (z : Z) :
  Z.to_int z <> Decimal.Pos Decimal.Nil /\ Z.to_int z <> Decimal.Neg Decimal.Nil.
Proof.
  destruct z as [|p|p]; cbn; split; intros E; try discriminate E;
    injection E as E; exact (DecimalPos.Unsigned.to_uint_nonnil p E).
Qed.

(** [printf("%d", z)] prints different numbers differently. *)
Lemma dec_injective (a b : Z) : dec a = dec b -> a = b.
Proof.
  unfold dec. intros H.
  apply (f_equal NilZero.int_of_string) in H.
  rewrite !NilZero.isi in H by apply to_int_digits.
  injection H as H.
  apply (f_equal Z.of_int) in H.
  rewrite !DecimalZ.of_to in H. exact H.
Qed.

Lemma append_injective (s a b : string) : (s ++ a = s ++ b)%string -> a = b.
Proof.
  induction s as [|c s IH]; cbn; intros H; [exact H|].
  injection H as H. apply IH, H.
Qed.

Section DecodeIndex.
Context {av : Libav}.

(** A run of [main] that returns has a file for every frame retrieved. *)
Lemma decode_main_named (fuel : nat) (argv : list string) (l : Lib) (v : Z)
  (w : Decode.world) :
  Decode.main fuel argv (Decode.start l) = Done v w ->
  named_after (nth 2 argv "") (Decode.saved w) (Decode.log w).
Proof.
  intros Hrun.
  destruct (decode_main_cases fuel argv (Decode.start l))
    as [[_ E] | [[_ [w' [E _]]] | [_ [content [l1 E]]]]];
    rewrite E in Hrun; try discriminate Hrun.
  pose proof (pump_names (nth 2 argv "") fuel
                (Decode.set_inbuf Decode.inbuf_init
                   (Decode.set_file content false (Decode.set_lib l1 (Decode.start l))))
                eq_refl) as H.
  rewrite Hrun in H. exact H.
Qed.

Lemma names_fit (base : string) (counts : list Z) :
  (forall count, In count counts ->
     (String.length (base ++ "-" ++ dec count) <= 1023)%nat) ->
  map (artifact_name base) counts
  = map (fun count => (base ++ "-" ++ dec count)%string) counts.
Proof.
  intros Hfit. apply map_ext_in. intros count Hin.
  unfold artifact_name, snprintf.
  rewrite firstn_all2.
  - apply string_of_list_ascii_of_string.
  - rewrite list_ascii_length. cbn [Nat.sub]. apply Hfit, Hin.
Qed.

Lemma names_differ (base : string) (counts : list Z) :
  StronglySorted Z.lt counts ->
  NoDup (map (fun count => (base ++ "-" ++ dec count)%string) counts).
Proof.
  induction 1 as [|c counts Hs IH Hall]; cbn [map]; constructor; [|exact IH].
  intros Hin. apply in_map_iff in Hin. destruct Hin as [c' [Heq Hin]].
  apply append_injective, append_injective, dec_injective in Heq. subst c'.
  rewrite Forall_forall in Hall. specialize (Hall c Hin). lia.
Qed.

(** X21.  When the frame count of the engine grows from one retrieval to
    the next and every text [<base>-<count>] fits into [buf], a run of
    [video_decode.cpp] that returns has written its files under the names
    [<base>-<c1>], [<base>-<c2>], ... of the counts [c1 < c2 < ...] that
    the engine gave, in this order: the index in the names increases, and
    no two frames share a file. *)
Theorem artifact_index_increases (fuel : nat) (argv : list string) (l : Lib) (v : Z)
  (w : Decode.world) :
  Decode.main fuel argv (Decode.start l) = Done v w ->
  StronglySorted Z.lt (retrieved (Decode.log w)) ->
  (forall count, In count (retrieved (Decode.log w)) ->
     (String.length (nth 2 argv "" ++ "-" ++ dec count) <= 1023)%nat) ->
  map fst (Decode.saved w)
  = map (fun count => (nth 2 argv "" ++ "-" ++ dec count)%string)
      (retrieved (Decode.log w))
  /\ NoDup (map fst (Decode.saved w)).
Proof.
  intros Hrun Hsorted Hfit.
  pose proof (decode_main_named fuel argv l v w Hrun) as Hnamed.
  unfold named_after in Hnamed.
  rewrite (names_fit _ _ Hfit) in Hnamed.
  split; [exact Hnamed|].
  rewrite Hnamed. apply names_differ, Hsorted.
Qed.

End DecodeIndex.

(** A run on the toy library with the output argument [out]: the counts
    are 1, 2 and 3, and the files are [out-1], [out-2] and [out-3]. *)
Lemma artifact_index_increases_witness :
  let o := @Decode.main Toy.lib 50 ["decode"; "in"; "out"; "toy"]
             (@Decode.start Toy.lib (Toy.fresh 1 [1; 2; 3; 4; 5; 6; 7; 8; 9; 10] [])) in
  @retrieved Toy.lib (Decode.log (final o)) = [1; 2; 3]
  /\ map fst (Decode.saved (final o)) = ["out-1"; "out-2"; "out-3"]
  /\ NoDup (map fst (Decode.saved (final o))).
Proof.
  cbv zeta.
  assert (Hcounts : @retrieved Toy.lib
            (Decode.log (final (@Decode.main Toy.lib 50 ["decode"; "in"; "out"; "toy"]
               (@Decode.start Toy.lib (Toy.fresh 1 [1; 2; 3; 4; 5; 6; 7; 8; 9; 10] [])))))
          = [1; 2; 3]).
  { vm_compute. reflexivity. }
  remember (@Decode.main Toy.lib 50 ["decode"; "in"; "out"; "toy"]
              (@Decode.start Toy.lib (Toy.fresh 1 [1; 2; 3; 4; 5; 6; 7; 8; 9; 10] [])))
    as o eqn:Ho.
  assert (Hdone : match o with Done _ _ => true | _ => false end = true).
  { subst o. vm_compute. reflexivity. }
  destruct o as [v w| | |]; try discriminate Hdone.
  cbn [final] in Hcounts |- *.
  destruct (@artifact_index_increases Toy.lib 50 ["decode"; "in"; "out"; "toy"]
              (Toy.fresh 1 [1; 2; 3; 4; 5; 6; 7; 8; 9; 10] []) v w (eq_sym Ho))
    as [Hnames Hdiff].
  - rewrite Hcounts. repeat constructor.
  - rewrite Hcounts. intros count [H|[H|[H|[]]]]; subst count; vm_compute; lia.
  - split; [exact Hcounts|]. split; [|exact Hdiff].
    rewrite Hnames, Hcounts. reflexivity.
Defined.

(** ** The input buffer of the decoder *)
Section DecodeBuffer.
Context {av : Libav}.

(** [decode] leaves alone what does not depend on the library state, the
    output streams, the saved files and the events of the codec engine. *)
Section Frame.
Variable I : Decode.world -> Prop.
Hypothesis I_lib : forall x w, I w -> I (Decode.set_lib x w).
Hypothesis I_stdout : forall x w, I w -> I (Decode.set_stdout x w).
Hypothesis I_stderr : forall x w, I w -> I (Decode.set_stderr x w).
Hypothesis I_saved : forall x w, I w -> I (Decode.set_saved x w).
Hypothesis I_send : forall p r w,
  I w -> I (Decode.set_log (Decode.log w ++ [EvSendPacket p r]) w).
Hypothesis I_receive : forall r f c w,
  I w -> I (Decode.set_log (Decode.log w ++ [EvReceiveFrame r f c]) w).

Lemma decode_invariant_call {A} (f : Lib -> A * Lib) : invariant I (Decode.call f).
Proof. intros w Hw. apply I_lib, Hw. Qed.

Ltac frame :=
  repeat first
    [ invariant_step
    | apply decode_invariant_call
    | apply invariant_modify; intros ? H;
      first [apply I_stdout | apply I_stderr | apply I_saved | apply I_send
            | apply I_receive]; exact H ].

Lemma drain_keeps (filename : string) (fuel : nat) :
  forall ret, invariant I (Decode.drain fuel filename ret).
Proof.
  induction fuel as [|fuel IH]; intros ret; cbn [Decode.drain].
  - frame.
  - destruct (ret <? 0); [frame|].
    unfold Decode.note, Decode.eprintf, Decode.printf, Decode.pgm_save.
    apply invariant_bind; [frame|intros [r frame]].
    apply invariant_bind; [frame|intros count].
    apply invariant_bind; [frame|intros _].
    destruct (_ || _); [frame|]. destruct (r <? 0); [frame|].
    apply invariant_bind; [frame|intros n].
    apply invariant_bind; [frame|intros _].
    apply invariant_bind; [frame|intros _]. apply IH.
Qed.

Lemma decode_keeps (fuel : nat) (pkt : option AVPacket) (filename : string) :
  invariant I (Decode.decode fuel pkt filename).
Proof.
  unfold Decode.decode, Decode.note, Decode.eprintf.
  apply invariant_bind; [frame|intros ret].
  apply invariant_bind; [frame|intros _].
  destruct (ret <? 0); [frame|apply drain_keeps].
Qed.

End Frame.
End DecodeBuffer.

(** ** The read loop and the input buffer *)
Section ReadLoop.
Context {av : Libav}.

(** A property [I] of the states between the steps of the read loop: it is
    kept by [decode], by the error message, by a read that finds the
    previous chunk used up, and by a parse call with its cursor update. *)
Variable I : Decode.world -> Prop.
Hypothesis I_nonneg : forall w, I w -> 0 <= Decode.data_size w.
Hypothesis I_decode : forall fuel pkt filename,
  invariant I (Decode.decode fuel pkt filename).
Hypothesis I_read : forall w,
  I w -> Decode.data_size w = 0 ->
  let n := Z.of_nat (List.length (Decode.next_chunk Decode.INBUF_SIZE w)) in
  let w1 := Decode.after_fread Decode.INBUF_SIZE w in
  (n = 0 -> I (Decode.set_data_size n w1))
  /\ (n <> 0 -> I (Decode.set_cursor 0 (Decode.set_data_size n w1))).
Hypothesis I_parse : forall w ret poutbuf poutbuf_size l',
  I w -> 0 < Decode.data_size w ->
  av_parser_parse2 (Decode.window w) (to_int (Decode.data_size w)) (Decode.lib w)
  = (ret, poutbuf, poutbuf_size, l') ->
  let w1 := Decode.set_log
              (Decode.log w
               ++ [EvParse (Decode.inbuf w) (Decode.cursor w)
                     (to_int (Decode.data_size w)) ret poutbuf_size])
              (Decode.set_lib l' w) in
  (ret < 0 ->
   I (Decode.set_stderr (Decode.stderr w ++ ["Error while parsing" ++ nl]%string) w1))
  /\ (0 <= ret ->
      I (Decode.set_cursor (Decode.cursor w + ret)
           (Decode.set_data_size (to_size_t (Decode.data_size w - ret)) w1))).

Let I0 (w : Decode.world) : Prop := I w /\ Decode.data_size w = 0.

Lemma parse_chunk_buffer (outfilename : string) (fuel : nat) :
  triple I (Decode.parse_chunk fuel outfilename) (fun _ => I0) I.
Proof.
  induction fuel as [|fuel IH]; intros w Hw; cbn [Decode.parse_chunk];
    unfold bind at 1; cbn [gets];
    pose proof (I_nonneg w Hw) as Hds;
    destruct (Decode.data_size w >? 0) eqn:Hpos.
  - exact Hw.
  - split; [exact Hw|]. rewrite Z.gtb_ltb in Hpos. apply Z.ltb_ge in Hpos. lia.
  - apply Z.gtb_lt in Hpos.
    unfold bind at 1. cbn [gets].
    unfold bind at 1. unfold Decode.call at 1.
    destruct (av_parser_parse2 (Decode.window w) (to_int (Decode.data_size w))
                (Decode.lib w)) as [[[ret poutbuf] poutbuf_size] l'] eqn:E.
    cbn [fst snd]. unfold bind at 1. cbn [Decode.note modify].
    destruct (I_parse w ret poutbuf poutbuf_size l' Hw Hpos E) as [Hneg Hok].
    cbv zeta in Hneg, Hok.
    destruct (ret <? 0) eqn:Hret.
    + apply Z.ltb_lt in Hret. exact (Hneg Hret).
    + apply Z.ltb_ge in Hret. specialize (Hok Hret).
      unfold bind at 1. cbn [modify]. decode_fields.
      unfold bind at 1.
      match goal with |- context [when ?b ?m ?w1] =>
        assert (Hd : I (final (when b m w1)));
        [ destruct b; cbn [when]; [apply I_decode; exact Hok|exact Hok]
        | destruct (when b m w1) as [[] w2|c w2|w2|w2]; cbn [final] in Hd;
          try exact Hd ]
      end.
      apply IH. exact Hd.
  - split; [exact Hw|]. rewrite Z.gtb_ltb in Hpos. apply Z.ltb_ge in Hpos. lia.
Qed.

Lemma read_loop_buffer (outfilename : string) (fuel : nat) :
  triple I0 (Decode.read_loop fuel outfilename) (fun _ => I0) I.
Proof.
  induction fuel as [|fuel IH]; intros w [Hw H0]; cbn [Decode.read_loop];
    unfold bind at 1; cbn [gets]; destruct (Decode.fin_eof w) eqn:Heof.
  - split; assumption.
  - exact Hw.
  - split; assumption.
  - unfold bind at 1. unfold Decode.fread.
    destruct (I_read w Hw H0) as [Hzero Hmore].
    set (n := Z.of_nat (List.length (Decode.next_chunk Decode.INBUF_SIZE w))) in *.
    set (w1 := Decode.after_fread Decode.INBUF_SIZE w) in *.
    unfold bind at 1. cbn [modify].
    destruct (n =? 0) eqn:Hn.
    + apply Z.eqb_eq in Hn. split; [exact (Hzero Hn)|]. decode_fields. exact Hn.
    + apply Z.eqb_neq in Hn. specialize (Hmore Hn).
      unfold bind at 1. cbn [modify].
      unfold bind at 1.
      pose proof (parse_chunk_buffer outfilename fuel _ Hmore) as Hp.
      destruct (Decode.parse_chunk fuel outfilename _) as [[] w2|c w2|w2|w2];
        try exact Hp.
      apply IH. exact Hp.
Qed.

Lemma pump_buffer (outfilename : string) (fuel : nat) :
  triple I0 (Decode.pump fuel outfilename) (fun _ => I0) I.
Proof.
  unfold Decode.pump. intros w Hw.
  unfold bind at 1.
  pose proof (read_loop_buffer outfilename fuel w Hw) as H1.
  destruct (Decode.read_loop fuel outfilename w) as [[] w1|c w1|w1|w1]; try exact H1.
  destruct H1 as [H1 H10].
  unfold bind at 1.
  pose proof (I_decode fuel None outfilename w1 H1) as H2.
  assert (Hds : Decode.data_size (final (Decode.decode fuel None outfilename w1)) = 0).
  { refine (decode_keeps (fun w => Decode.data_size w = 0) _ _ _ _ _ _
              fuel None outfilename w1 H10); intros; assumption. }
  destruct (Decode.decode fuel None outfilename w1) as [[] w2|c w2|w2|w2];
    cbn [final] in H2, Hds; try exact H2.
  split; assumption.
Qed.

End ReadLoop.

Section BufferFacts.
Context {av : Libav}.

Lemma firstn_split {A} (a b : nat) (l : list A) :
  firstn (a + b) l = firstn a l ++ firstn b (skipn a l).
Proof.
  revert l. induction a as [|a IH]; intros l; [reflexivity|].
  destruct l as [|x l]; cbn; [destruct b; reflexivity|].
  rewrite IH. reflexivity.
Qed.

Lemma consumed_app (l1 l2 : list event) :
  consumed (l1 ++ l2) = consumed l1 ++ consumed l2.
Proof. apply flat_map_app. Qed.

Lemma read_so_far_app (l1 l2 : list event) :
  read_so_far (l1 ++ l2) = read_so_far l1 ++ read_so_far l2.
Proof. apply flat_map_app. Qed.

Lemma Forall_snoc {A} (P : A -> Prop) (l : list A) (x : A) :
  Forall P l -> P x -> Forall P (l ++ [x]).
Proof. intros Hl Hx. apply Forall_app. split; [exact Hl|]. constructor; [exact Hx|constructor]. Qed.

(** A chunk of at most [INBUF_SIZE] bytes stored at the start of the array
    leaves its length and its padding as they were. *)
Lemma store_keeps_padding (buf chunk : list byte) :
  Z.of_nat (List.length chunk) <= Decode.INBUF_SIZE ->
  padding_clear buf -> padding_clear (store buf chunk).
Proof.
  intros Hlen [Hbuf Hpad]. unfold padding_clear, store.
  assert (Hk : (List.length chunk <= Z.to_nat Decode.INBUF_SIZE)%nat) by lia.
  split.
  - rewrite length_app, length_skipn. lia.
  - rewrite skipn_app, skipn_skipn.
    rewrite (skipn_all2 chunk) by lia. cbn [app].
    replace (Z.to_nat Decode.INBUF_SIZE - List.length chunk + List.length chunk)%nat
      with (Z.to_nat Decode.INBUF_SIZE) by lia.
    exact Hpad.
Qed.

(** The array after its declaration and the [memset]. *)
Lemma inbuf_init_padding : padding_clear Decode.inbuf_init.
Proof.
  unfold padding_clear, Decode.inbuf_init, memset.
  set (n := Z.to_nat Decode.INBUF_SIZE). set (p := AV_INPUT_BUFFER_PADDING_SIZE).
  set (arr := map uninitialized (seq 0 (n + p))).
  assert (Harr : List.length arr = (n + p)%nat).
  { subst arr. rewrite length_map, length_seq. reflexivity. }
  assert (Hfirst : List.length (firstn n arr) = n).
  { rewrite length_firstn. lia. }
  rewrite (skipn_all2 arr) by lia. rewrite app_nil_r. split.
  - rewrite length_app, repeat_length. lia.
  - rewrite skipn_app, Hfirst, Nat.sub_diag. cbn [skipn].
    rewrite (skipn_all2 (firstn n arr)) by lia. reflexivity.
Qed.

Lemma fread_chunk (w : Decode.world) :
  Z.of_nat (List.length (Decode.next_chunk Decode.INBUF_SIZE w)) <= Decode.INBUF_SIZE.
Proof.
  unfold Decode.next_chunk. rewrite length_firstn. unfold Decode.INBUF_SIZE. lia.
Qed.

(** The padding stays clear through the whole read loop, whatever the
    parser returns. *)
Lemma pump_padded (outfilename : string) (fuel : nat) :
  triple (fun w => padded w /\ Decode.data_size w = 0)
    (Decode.pump fuel outfilename)
    (fun _ w => padded w /\ Decode.data_size w = 0) padded.
Proof.
  apply pump_buffer.
  - intros w [_ [H _]]. exact H.
  - intros fuel' pkt filename. apply decode_keeps; try (intros ? ? H; exact H).
    + intros p r w [H1 [H2 H3]]. split; [exact H1|]. split; [exact H2|].
      decode_fields. apply Forall_snoc; [exact H3|exact I].
    + intros r f c w [H1 [H2 H3]]. split; [exact H1|]. split; [exact H2|].
      decode_fields. apply Forall_snoc; [exact H3|exact I].
  - intros w [H1 [H2 H3]] H0. cbv zeta.
    pose proof (fread_chunk w) as Hc.
    assert (Hp : padded
                   (Decode.set_data_size
                      (Z.of_nat (List.length (Decode.next_chunk Decode.INBUF_SIZE w)))
                      (Decode.after_fread Decode.INBUF_SIZE w))).
    { unfold padded, Decode.after_fread. decode_fields. split; [|split].
      - apply store_keeps_padding; assumption.
      - lia.
      - apply Forall_snoc; [exact H3|exact Hc]. }
    split; intros _; exact Hp.
  - intros w ret poutbuf poutbuf_size l' [H1 [H2 H3]] Hpos E. cbv zeta.
    split; intros _; unfold padded; decode_fields.
    + split; [exact H1|]. split; [exact H2|]. apply Forall_snoc; [exact H3|exact H1].
    + split; [exact H1|]. split.
      * unfold to_size_t. apply Z.mod_pos_bound. lia.
      * apply Forall_snoc; [exact H3|exact H1].
Qed.

End BufferFacts.

Section Conservation.
Context {av : Libav}.
Hypothesis contract : parser_contract.

Lemma to_int_small (z : Z) : 0 <= z < 2 ^ 31 -> to_int z = z.
Proof. intros H. unfold to_int. rewrite Z.mod_small by lia. lia. Qed.

Lemma to_size_t_small (z : Z) : 0 <= z < 2 ^ 64 -> to_size_t z = z.
Proof. intros H. unfold to_size_t. apply Z.mod_small. exact H. Qed.

(** With a parser that keeps its contract, the cursor stays inside the
    chunk and no byte of a chunk is lost or used twice. *)
Lemma pump_conserving (outfilename : string) (fuel : nat) :
  triple (fun w => conserving w /\ Decode.data_size w = 0)
    (Decode.pump fuel outfilename)
    (fun _ w => conserving w /\ Decode.data_size w = 0) conserving.
Proof.
  assert (Hengine : forall e (w : Decode.world),
            (forall st, expect (Some st) e = Some st) ->
            bounded_call e -> consumed [e] = [] -> read_so_far [e] = [] ->
            conserving w -> conserving (Decode.set_log (Decode.log w ++ [e]) w)).
  { intros e w Hx Hb Hc Hr [H1 [H2 [H3 [H4 [H5 [c [H6 H7]]]]]]].
    unfold conserving, pending, Decode.window. decode_fields.
    repeat split; try assumption.
    - apply Forall_snoc; assumption.
    - rewrite consumed_app, read_so_far_app, Hc, Hr, !app_nil_r. exact H5.
    - exists c. split; [|exact H7].
      unfold in_step in *. rewrite fold_left_app, H6. cbn [fold_left]. apply Hx. }
  apply pump_buffer.
  - intros w [_ [H _]]. exact H.
  - intros fuel' pkt filename. apply decode_keeps; try (intros ? ? H; exact H).
    + intros p r w H. apply Hengine; try reflexivity; [|exact H].
      intros [c s]. reflexivity.
    + intros r f c w H. apply Hengine; try reflexivity; [|exact H].
      intros [c' s]. reflexivity.
  - intros w [H1 [H2 [H3 [H4 [H5 [c [H6 H7]]]]]]] H0. cbv zeta.
    pose proof (fread_chunk w) as Hc.
    set (chunk := Decode.next_chunk Decode.INBUF_SIZE w) in *.
    assert (Hold : consumed (Decode.log w) = read_so_far (Decode.log w)).
    { unfold pending in H5. rewrite H0 in H5. cbn in H5. rewrite app_nil_r in H5. exact H5. }
    assert (Hstep : in_step (Decode.log w ++ [EvFread chunk])
                    = Some (0, Z.of_nat (List.length chunk))).
    { unfold in_step in *. rewrite fold_left_app, H6, H0. reflexivity. }
    split; intros Hn; unfold conserving, pending, Decode.window, Decode.after_fread;
      fold chunk; decode_fields.
    + assert (Hnil : chunk = []).
      { apply length_zero_iff_nil. lia. }
      rewrite Hstep. rewrite Hnil. cbn [List.length Z.of_nat Z.to_nat firstn].
      repeat split; try lia.
      * apply Forall_snoc; [exact H4|exact I].
      * rewrite consumed_app, read_so_far_app. cbn. rewrite !app_nil_r. exact Hold.
      * exists 0. split; [reflexivity|left; reflexivity].
    + rewrite Hstep. repeat split; try lia.
      * apply Forall_snoc; [exact H4|exact I].
      * rewrite consumed_app, read_so_far_app. cbn [consumed read_so_far flat_map].
        rewrite !app_nil_r, Hold. f_equal.
        cbn [Z.to_nat skipn]. rewrite Nat2Z.id. unfold store.
        rewrite firstn_app, firstn_all, Nat.sub_diag. cbn [firstn].
        apply app_nil_r.
      * exists 0. split; [reflexivity|right; reflexivity].
  - intros w ret poutbuf poutbuf_size l' [H1 [H2 [H3 [H4 [H5 [c [H6 H7]]]]]]] Hpos E.
    cbv zeta. unfold Decode.INBUF_SIZE in H3.
    assert (Hsz : to_int (Decode.data_size w) = Decode.data_size w).
    { apply to_int_small. lia. }
    pose proof (contract (Decode.window w) (to_int (Decode.data_size w)) (Decode.lib w)) as Hc.
    rewrite E in Hc. cbn [fst] in Hc. rewrite Hsz in Hc. specialize (Hc Hpos).
    assert (Hcur : c = Decode.cursor w) by (destruct H7 as [H7|H7]; [lia|exact H7]).
    subst c.
    assert (Hstep : in_step (Decode.log w
                             ++ [EvParse (Decode.inbuf w) (Decode.cursor w)
                                   (Decode.data_size w) ret poutbuf_size])
                    = Some (if ret <? 0
                            then (Decode.cursor w, Decode.data_size w)
                            else (Decode.cursor w + ret, Decode.data_size w - ret))).
    { unfold in_step in *. rewrite fold_left_app, H6. cbn [fold_left expect].
      rewrite !Z.eqb_refl. apply Z.ltb_lt in Hpos. rewrite Hpos. reflexivity. }
    split; intros Hret; unfold conserving, pending, Decode.window; decode_fields;
      rewrite Hsz, Hstep; unfold Decode.INBUF_SIZE.
    + apply Z.ltb_lt in Hret. rewrite Hret. apply Z.ltb_lt in Hret.
      repeat split; try assumption.
      * apply Forall_snoc; [exact H4|]. unfold bounded_call, Decode.INBUF_SIZE. lia.
      * rewrite consumed_app, read_so_far_app. cbn [consumed read_so_far flat_map].
        rewrite !app_nil_r.
        replace (Z.to_nat ret) with 0%nat by lia. cbn [firstn]. rewrite app_nil_r.
        exact H5.
      * exists (Decode.cursor w). split; [reflexivity|right; reflexivity].
    + apply Z.ltb_ge in Hret. rewrite Hret. apply Z.ltb_ge in Hret.
      rewrite to_size_t_small by lia.
      repeat split; try lia.
      * apply Forall_snoc; [exact H4|]. unfold bounded_call, Decode.INBUF_SIZE. lia.
      * rewrite consumed_app, read_so_far_app. cbn [consumed read_so_far flat_map].
        rewrite !app_nil_r, <- H5, <- app_assoc. f_equal.
        unfold pending, Decode.window.
        replace (Z.to_nat (Decode.data_size w))
          with (Z.to_nat ret + Z.to_nat (Decode.data_size w - ret))%nat by lia.
        rewrite firstn_split, skipn_skipn. f_equal. f_equal. f_equal. lia.
      * exists (Decode.cursor w + ret). split; [reflexivity|right; reflexivity].
Qed.

End Conservation.

Section InputBuffer.
Context {av : Libav}.

(** The process at the first [fread]: nothing read, nothing parsed. *)
Lemma pump_start (content : list byte) (l1 l : Lib) :
  let w1 := Decode.set_inbuf Decode.inbuf_init
              (Decode.set_file content false (Decode.set_lib l1 (Decode.start l))) in
  (padded w1 /\ Decode.data_size w1 = 0) /\ (conserving w1 /\ Decode.data_size w1 = 0).
Proof.
  cbv zeta. unfold padded, conserving, pending, Decode.window, Decode.INBUF_SIZE.
  decode_fields. cbn [Decode.start Decode.data_size Decode.cursor Decode.log Decode.inbuf].
  destruct inbuf_init_padding as [Hlen Hpad].
  repeat split; try lia; try constructor; try assumption.
  exists 0. split; [reflexivity|left; reflexivity].
Qed.

(** C4.  [inbuf] is declared with [INBUF_SIZE + AV_INPUT_BUFFER_PADDING_SIZE]
    bytes and the padding is set to zero before the first read.  In any
    run, cut off anywhere: every [fread] delivers at most [INBUF_SIZE]
    bytes; at every call of the parser the array still has its full length
    and its padding still holds zeros; and, when the parser keeps its
    contract, the bytes offered to it (from the cursor, [data_size] of
    them) end inside the first [INBUF_SIZE] bytes, so the padding is not
    part of them. *)
Theorem padding_stays_clear (fuel : nat) (argv : list string) (l : Lib) :
  let w := final (Decode.main fuel argv (Decode.start l)) in
  padding_clear Decode.inbuf_init
  /\ Forall padded_call (Decode.log w)
  /\ (parser_contract -> Forall bounded_call (Decode.log w)).
Proof.
  cbv zeta. split; [apply inbuf_init_padding|].
  destruct (decode_main_cases fuel argv (Decode.start l))
    as [[_ E] | [[_ [w' [E [Hw' _]]]] | [_ [content [l1 E]]]]]; rewrite E.
  - split; [constructor|intros _; constructor].
  - cbn [final]. rewrite Hw'. split; [constructor|intros _; constructor].
  - destruct (pump_start content l1 l) as [Hp Hc]. cbv zeta in Hp, Hc. split.
    + refine (proj2 (proj2 (@triple_final _ padded _ _ _ _ _
                 (pump_padded (nth 2 argv "") fuel) _ Hp))).
      intros _ w' [H _]. exact H.
    + intros contract.
      refine (proj1 (proj2 (proj2 (proj2 (@triple_final _ conserving _ _ _ _ _
                 (pump_conserving contract (nth 2 argv "") fuel) _ Hc))))).
      intros _ w' [H _]. exact H.
Qed.

(** C3.  When the parser keeps its contract, the parse calls of a run are
    in step: a chunk is read only when nothing is left of the previous
    one, the first parse call on a chunk is offered the whole chunk, and
    every further call is offered what the call before left, the cursor
    moved forward by exactly the number of bytes that call reported as
    used.  So, at every point of a run, the bytes the parser has used,
    call after call, followed by the part of the current chunk not used
    yet, are exactly the bytes read from the file so far, in order; and
    when the program returns, nothing of any chunk is left: the bytes used
    are the bytes read. *)
Theorem chunk_bytes_parsed_once (fuel : nat) (argv : list string) (l : Lib) :
  parser_contract ->
  let o := Decode.main fuel argv (Decode.start l) in
  in_step (Decode.log (final o)) <> None
  /\ consumed (Decode.log (final o)) ++ pending (final o)
     = read_so_far (Decode.log (final o))
  /\ (forall v w, o = Done v w ->
        pending w = [] /\ consumed (Decode.log w) = read_so_far (Decode.log w)).
Proof.
  intros contract. cbv zeta.
  destruct (decode_main_cases fuel argv (Decode.start l))
    as [[_ E] | [[_ [w' [E [Hw' _]]]] | [_ [content [l1 E]]]]]; rewrite E.
  - split; [discriminate|]. split; [reflexivity|discriminate].
  - cbn [final]. rewrite Hw'. split; [discriminate|]. split; [reflexivity|discriminate].
  - destruct (pump_start content l1 l) as [_ Hc]. cbv zeta in Hc.
    pose proof (pump_conserving contract (nth 2 argv "") fuel _ Hc) as H.
    assert (Hfinal : conserving (final (Decode.pump fuel (nth 2 argv "")
                       (Decode.set_inbuf Decode.inbuf_init
                          (Decode.set_file content false
                             (Decode.set_lib l1 (Decode.start l))))))).
    { refine (@triple_final _ conserving _ _ _ _ _
                (pump_conserving contract (nth 2 argv "") fuel) _ Hc).
      intros _ w' [H' _]. exact H'. }
    destruct Hfinal as [_ [_ [_ [_ [H5 [c [H6 _]]]]]]].
    split; [rewrite H6; discriminate|]. split; [exact H5|].
    intros v w Hrun. rewrite Hrun in H. destruct H as [[_ [_ [_ [_ [H5' _]]]]] H0].
    assert (Hp : pending w = []).
    { unfold pending. rewrite H0. reflexivity. }
    split; [exact Hp|]. rewrite Hp, app_nil_r in H5'. exact H5'.
Qed.

End InputBuffer.

(** The toy parser uses at most the bytes that complete a packet, hence at
    most the bytes it is offered. *)
Lemma toy_parser_contract : @parser_contract Toy.lib.
Proof.
  intros buf size l Hsize. cbn [av_parser_parse2 Toy.lib]. unfold Toy.parse.
  destruct (_ =? 3); cbn [fst]; lia.
Qed.

(** A file of ten bytes on the toy library: one read, four parse calls
    (3 + 3 + 3 + 1 bytes), and the ten bytes are the bytes used. *)
Lemma chunk_bytes_parsed_once_witness :
  let o := @Decode.main Toy.lib 50 ["decode"; "in"; "out"; "toy"]
             (Toy.decoding 1 [1; 2; 3; 4; 5; 6; 7; 8; 9; 10]) in
  in_step (Decode.log (final o)) <> None
  /\ consumed (Decode.log (final o)) ++ pending (final o)
     = read_so_far (Decode.log (final o))
  /\ consumed (Decode.log (final o)) = [1; 2; 3; 4; 5; 6; 7; 8; 9; 10].
Proof.
  destruct (@chunk_bytes_parsed_once Toy.lib 50 ["decode"; "in"; "out"; "toy"]
              (Toy.fresh 1 [1; 2; 3; 4; 5; 6; 7; 8; 9; 10] [])
              toy_parser_contract) as [H1 [H2 _]].
  split; [exact H1|]. split; [exact H2|].
  vm_compute. reflexivity.
Defined.

(** The same run: the parser is offered 10, 7, 4 and 1 bytes at the
    cursors 0, 3, 6 and 9. *)
Lemma padding_stays_clear_witness :
  let w := final (@Decode.main Toy.lib 50 ["decode"; "in"; "out"; "toy"]
                    (Toy.decoding 1 [1; 2; 3; 4; 5; 6; 7; 8; 9; 10])) in
  Forall (@padded_call Toy.lib) (Decode.log w)
  /\ Forall bounded_call (Decode.log w)
  /\ flat_map (fun e => match e with
                        | EvParse _ cursor size _ _ => [(cursor, size)]
                        | _ => []
                        end) (Decode.log w)
     = [(0, 10); (3, 7); (6, 4); (9, 1)].
Proof.
  destruct (@padding_stays_clear Toy.lib 50 ["decode"; "in"; "out"; "toy"]
              (Toy.fresh 1 [1; 2; 3; 4; 5; 6; 7; 8; 9; 10] [])) as [_ [H1 H2]].
  split; [exact H1|]. split; [exact (H2 toy_parser_contract)|].
  vm_compute. reflexivity.
Defined.

(** ** Exit codes *)
Section ExitRules.
Context {W : Type}.
Variable X : Z -> W -> Prop.

Lemma exits_pure {A} (a : A) : exits X (pure a).
Proof. intros w. exact I. Qed.

Lemma exits_fault {A} : exits X (@fault W A).
Proof. intros w. exact I. Qed.

Lemma exits_out_of_fuel {A} : exits X (@out_of_fuel W A).
Proof. intros w. exact I. Qed.

Lemma exits_gets {A} (f : W -> A) : exits X (gets f).
Proof. intros w. exact I. Qed.

Lemma exits_modify (f : W -> W) : exits X (modify f).
Proof. intros w. exact I. Qed.

Lemma exits_bind {A B} (m : prog W A) (k : A -> prog W B) :
  exits X m -> (forall a, exits X (k a)) -> exits X (bind m k).
Proof.
  intros Hm Hk w. unfold bind. specialize (Hm w).
  destruct (m w) as [a w'|c w'|w'|w']; try exact I; [apply Hk|exact Hm].
Qed.

Lemma exits_when (b : bool) (m : prog W unit) : exits X m -> exits X (when b m).
Proof. intros Hm. destruct b; [exact Hm|apply exits_pure]. Qed.

(** [fprintf(stderr, ...); exit(code);] with the state change [f] of the
    message. *)
Lemma exits_die {A} (f : W -> W) (code : Z) :
  (forall w, X code (f w)) -> exits X (bind (modify f) (fun _ => @exit W A code)).
Proof. intros H w. apply H. Qed.

End ExitRules.

Ltac exits_step :=
  lazymatch goal with
  | |- exits _ (bind (modify _) (fun _ => exit _)) => apply exits_die; intros
  | |- exits _ (bind _ _) => apply exits_bind; [|intros]
  | |- exits _ (pure _) => apply exits_pure
  | |- exits _ fault => apply exits_fault
  | |- exits _ out_of_fuel => apply exits_out_of_fuel
  | |- exits _ (gets _) => apply exits_gets
  | |- exits _ (modify _) => apply exits_modify
  | |- exits _ (when _ _) => apply exits_when
  | |- exits _ (if ?b then _ else _) => destruct b
  | |- exits _ (match ?x with _ => _ end) => destruct x
  end.

Section ExitCodes.
Context {av : Libav}.

(** Every [exit] of the decoder after its set-up has code 1 and follows a
    message on the error stream. *)
Lemma exits_decode_call {A} (X : Z -> Decode.world -> Prop) (f : Lib -> A * Lib) :
  exits X (Decode.call f).
Proof. intros w. exact I. Qed.

Ltac decode_exits :=
  repeat first
    [ exits_step
    | apply exits_decode_call
    | split; [reflexivity|decode_fields; apply not_eq_sym, app_cons_not_nil] ].

Lemma decode_drain_exits (filename : string) (fuel : nat) :
  forall ret, exits loud_failure_decode (Decode.drain fuel filename ret).
Proof.
  induction fuel as [|fuel IH]; intros ret; cbn [Decode.drain].
  - decode_exits.
  - destruct (ret <? 0); [decode_exits|].
    unfold Decode.note, Decode.eprintf, Decode.printf, Decode.pgm_save.
    apply exits_bind; [decode_exits|intros [r frame]].
    apply exits_bind; [decode_exits|intros count].
    apply exits_bind; [decode_exits|intros _].
    destruct (_ || _); [decode_exits|]. destruct (r <? 0); [decode_exits|].
    apply exits_bind; [decode_exits|intros n].
    apply exits_bind; [decode_exits|intros _].
    apply exits_bind; [decode_exits|intros _]. apply IH.
Qed.

Lemma decode_exits (fuel : nat) (pkt : option AVPacket) (filename : string) :
  exits loud_failure_decode (Decode.decode fuel pkt filename).
Proof.
  unfold Decode.decode, Decode.note, Decode.eprintf.
  apply exits_bind; [decode_exits|intros ret].
  apply exits_bind; [decode_exits|intros _].
  destruct (ret <? 0); [decode_exits|apply decode_drain_exits].
Qed.





End ExitCodes.

Section ExitCodesMore.
Context {av : Libav}.

Lemma exits_encode_call {A} (X : Z -> Encode.world -> Prop) (f : Lib -> A * Lib) :
  exits X (Encode.call f).
Proof. intros w. exact I. Qed.

Ltac encode_exits :=
  repeat first
    [ exits_step
    | apply exits_encode_call
    | split; [reflexivity|encode_fields; apply not_eq_sym, app_cons_not_nil] ].

Lemma encode_drain_exits (fuel : nat) :
  forall ret, exits loud_failure_encode (Encode.drain fuel ret).
Proof.
  induction fuel as [|fuel IH]; intros ret; cbn [Encode.drain].
  - encode_exits.
  - destruct (ret <? 0); [encode_exits|].
    unfold Encode.note, Encode.eprintf, Encode.printf, Encode.fwrite.
    apply exits_bind; [encode_exits|intros [r pkt]].
    apply exits_bind; [encode_exits|intros _].
    destruct (_ || _); [encode_exits|]. destruct (r <? 0); [encode_exits|].
    apply exits_bind; [encode_exits|intros _].
    apply exits_bind; [encode_exits|intros _]. apply IH.
Qed.

Lemma encode_exits (fuel : nat) (frame : option AVFrame) :
  exits loud_failure_encode (Encode.encode fuel frame).
Proof.
  unfold Encode.encode, Encode.note, Encode.eprintf, Encode.printf.
  apply exits_bind; [encode_exits|intros _].
  apply exits_bind; [encode_exits|intros ret].
  apply exits_bind; [encode_exits|intros _].
  destruct (ret <? 0); [encode_exits|apply encode_drain_exits].
Qed.











Lemma hw_pump_returns (video_stream : Z) (fuel : nat) (ret : Z)
  (w w' : HwDecode.world) (v : Z) :
  HwDecode.pump fuel video_stream ret w = Done v w' -> v = 0.
Proof.
  unfold HwDecode.pump, bind.
  destruct (HwDecode.read_loop fuel video_stream ret w); try discriminate.
  unfold gets, modify.
  destruct (HwDecode.decode_write fuel _ _); try discriminate.
  unfold pure. intros H. injection H as Hv _. symmetry. exact Hv.
Qed.

End ExitCodesMore.

(** ** The flush *)
Section Flush.
Context {av : Libav}.
Variable draining : Lib -> Prop.
Hypothesis contract : flush_contract draining.

Lemma invariant_triple {W A} (I : W -> Prop) (m : prog W A) :
  invariant I m -> triple I m (fun _ => I) I.
Proof. intros H w Hw. specialize (H w Hw). destruct (m w); exact H. Qed.

Lemma drained_cons (e : event) (events : list event) :
  hands_out e -> drained_to_end events -> drained_to_end (e :: events).
Proof.
  intros He [outputs [last [E [Ho Hl]]]]. exists (e :: outputs), last.
  rewrite E. split; [reflexivity|]. split; [constructor; assumption|exact Hl].
Qed.

Lemma stops_not_eagain (r : Z) :
  stops r = true -> r <> AVERROR_EAGAIN -> r = AVERROR_EOF.
Proof.
  unfold stops. intros H Hne. apply orb_prop in H. destruct H as [H|H].
  - apply Z.eqb_eq in H. contradiction.
  - apply Z.eqb_eq in H. exact H.
Qed.

(** The drain loop of [decode] on a flushed engine: if it returns, it has
    retrieved frames until the engine answered AVERROR_EOF. *)
Lemma decode_drain_flushed (filename : string) (fuel : nat) :
  forall ret w w',
    0 <= ret -> draining (Decode.lib w) ->
    Decode.drain fuel filename ret w = Done tt w' ->
    exists events, Decode.log w' = Decode.log w ++ events /\ drained_to_end events.
Proof.
  destruct contract as [_ [_ [Hrecv [_ [Hopen _]]]]].
  induction fuel as [|fuel IH]; intros ret w w' Hret Hd Hrun.
  - cbn [Decode.drain] in Hrun. apply Z.ltb_ge in Hret. rewrite Hret in Hrun.
    discriminate Hrun.
  - pose proof (decode_drain_round fuel filename ret w Hret) as Rd.
    specialize (Hrecv (Decode.lib w) Hd).
    destruct (avcodec_receive_frame (Decode.lib w)) as [[r frame] l'].
    cbn [fst snd] in Hrecv. destruct Hrecv as [Hne Hd'].
    cbv zeta in Rd. rewrite Rd in Hrun. clear Rd.
    destruct (stops r) eqn:Hstop.
    + injection Hrun as Hw. subst w'. decode_fields.
      exists [EvReceiveFrame r (format frame) (frame_number l')]. split; [reflexivity|].
      exists [], (EvReceiveFrame r (format frame) (frame_number l')).
      split; [reflexivity|]. split; [constructor|].
      exact (stops_not_eagain r Hstop Hne).
    + destruct (r <? 0) eqn:Hr; [discriminate Hrun|].
      unfold bind at 1 in Hrun. cbn [Decode.printf modify] in Hrun.
      unfold bind at 1 in Hrun. unfold Decode.pgm_save in Hrun.
      unfold bind at 1 in Hrun. unfold Decode.call at 1 in Hrun.
      decode_fields_in Hrun.
      specialize (Hopen (snprintf 1024 (filename ++ "-" ++ dec (frame_number l'))) l' Hd').
      destruct (fopen_write _ l') as [f l2]. cbn [fst snd] in Hrun, Hopen.
      destruct f; cbn [negb fault modify] in Hrun; [|discriminate Hrun].
      apply Z.ltb_ge in Hr.
      apply IH in Hrun; [|exact Hr|exact Hopen].
      destruct Hrun as [events [Hlog Hdr]]. decode_fields_in Hlog.
      exists (EvReceiveFrame r (format frame) (frame_number l') :: events). split.
      * rewrite Hlog, <- app_assoc. reflexivity.
      * apply drained_cons; [|exact Hdr]. cbn. rewrite produced_cases, Hstop.
        apply Z.ltb_ge in Hr. rewrite Hr. reflexivity.
Qed.

(** [decode] with the NULL packet. *)
Lemma decode_flush (filename : string) (fuel : nat) (w w' : Decode.world) :
  Decode.decode fuel None filename w = Done tt w' ->
  exists flush events,
    Decode.log w' = Decode.log w ++ flush :: events
    /\ flushes flush = true /\ drained_to_end events.
Proof.
  destruct contract as [Hsend _].
  unfold Decode.decode. intros Hrun.
  unfold bind at 1 in Hrun. unfold Decode.call at 1 in Hrun.
  specialize (Hsend None (Decode.lib w) eq_refl).
  destruct (avcodec_send_packet None (Decode.lib w)) as [s l0].
  cbn [fst snd] in Hrun, Hsend.
  unfold bind at 1 in Hrun. cbn [Decode.note modify] in Hrun.
  destruct (s <? 0) eqn:Hs; [discriminate Hrun|].
  apply Z.ltb_ge in Hs.
  apply decode_drain_flushed in Hrun; [|exact Hs|exact (Hsend Hs)].
  destruct Hrun as [events [Hlog Hdr]]. decode_fields_in Hlog.
  exists (EvSendPacket None s), events. split; [|split; [reflexivity|exact Hdr]].
  rewrite Hlog, <- app_assoc. reflexivity.
Qed.

(** Before the flush the decoder submits packets with a payload only. *)
Lemma decode_read_loop_no_flush (outfilename : string) (fuel : nat) :
  triple (fun w => Forall (fun e => flushes e = false) (Decode.log w))
    (Decode.read_loop fuel outfilename)
    (fun _ w => Forall (fun e => flushes e = false) (Decode.log w))
    (fun w => Forall (fun e => flushes e = false) (Decode.log w)).
Proof.
  apply (read_loop_log
           (fun _ log => Forall (fun e => flushes e = false) log)
           (fun _ log => Forall (fun e => flushes e = false) log)
           (fun e => negb (flushes e)) outfilename).
  - auto.
  - intros s log e He H. apply Forall_snoc; [exact H|].
    apply negb_true_iff. exact He.
  - reflexivity.
  - reflexivity.
  - intros d s r Hs. cbn. apply Z.eqb_neq in Hs. rewrite Hs. reflexivity.
  - intros fuel' ret. apply invariant_triple.
    apply (drain_keeps (fun w => Forall (fun e => flushes e = false) (Decode.log w)));
      try (intros ? ? H; exact H).
    intros r f c w H. decode_fields. apply Forall_snoc; [exact H|reflexivity].
Qed.

Lemma decode_main_flushed (fuel : nat) (argv : list string) (l : Lib)
  (v : Z) (w : Decode.world) :
  Decode.main fuel argv (Decode.start l) = Done v w ->
  flushed_and_drained (Decode.log w).
Proof.
  intros Hrun.
  destruct (decode_main_cases fuel argv (Decode.start l))
    as [[_ E] | [[_ [w' [E _]]] | [_ [content [l1 E]]]]];
    rewrite E in Hrun; try discriminate Hrun.
  unfold Decode.pump in Hrun. unfold bind at 1 in Hrun.
  match type of Hrun with context [Decode.read_loop fuel ?o ?w1] =>
    pose proof (decode_read_loop_no_flush o fuel w1 (Forall_nil _)) as H1
  end.
  destruct (Decode.read_loop fuel (nth 2 argv "") _) as [[] w1| | |];
    try discriminate Hrun.
  unfold bind at 1 in Hrun.
  destruct (Decode.decode fuel None (nth 2 argv "") w1) as [[] w2| | |] eqn:Hd;
    try discriminate Hrun.
  unfold pure in Hrun. injection Hrun as _ Hw. subst w2.
  apply decode_flush in Hd. destruct Hd as [flush [events [Hlog [Hf Hdr]]]].
  exists (Decode.log w1), flush, events. auto.
Qed.

(** The same for the encoder. *)
Lemma encode_drain_flushed (fuel : nat) :
  forall ret w w',
    0 <= ret -> draining (Encode.lib w) ->
    Encode.drain fuel ret w = Done tt w' ->
    exists events, Encode.log w' = Encode.log w ++ events /\ drained_to_end events.
Proof.
  destruct contract as [_ [_ [_ [Hrecv _]]]].
  induction fuel as [|fuel IH]; intros ret w w' Hret Hd Hrun.
  - cbn [Encode.drain] in Hrun. apply Z.ltb_ge in Hret. rewrite Hret in Hrun.
    discriminate Hrun.
  - pose proof (encode_drain_round fuel ret w Hret) as Rd.
    specialize (Hrecv (Encode.lib w) Hd).
    destruct (avcodec_receive_packet (Encode.lib w)) as [[r pkt] l'].
    cbn [fst snd] in Hrecv. destruct Hrecv as [Hne Hd'].
    cbv zeta in Rd. rewrite Rd in Hrun. clear Rd.
    destruct (stops r) eqn:Hstop.
    + injection Hrun as Hw. subst w'. encode_fields.
      exists [EvReceivePacket r pkt]. split; [reflexivity|].
      exists [], (EvReceivePacket r pkt).
      split; [reflexivity|]. split; [constructor|].
      exact (stops_not_eagain r Hstop Hne).
    + destruct (r <? 0) eqn:Hr; [discriminate Hrun|].
      unfold bind at 1 in Hrun. cbn [Encode.printf modify] in Hrun.
      unfold bind at 1 in Hrun. cbn [Encode.fwrite modify] in Hrun.
      apply Z.ltb_ge in Hr.
      apply IH in Hrun; [|exact Hr|exact Hd'].
      destruct Hrun as [events [Hlog Hdr]]. encode_fields_in Hlog.
      exists (EvReceivePacket r pkt :: events). split.
      * rewrite Hlog, <- app_assoc. reflexivity.
      * apply drained_cons; [|exact Hdr]. cbn. rewrite produced_cases, Hstop.
        apply Z.ltb_ge in Hr. rewrite Hr. reflexivity.
Qed.

(** [encode] with the NULL frame. *)
Lemma encode_flush (fuel : nat) (w w' : Encode.world) :
  Encode.encode fuel None w = Done tt w' ->
  exists flush events,
    Encode.log w' = Encode.log w ++ flush :: events
    /\ flushes flush = true /\ drained_to_end events.
Proof.
  destruct contract as [_ [Hsend _]].
  unfold Encode.encode. intros Hrun.
  unfold bind at 1 in Hrun. cbn [pure] in Hrun.
  unfold bind at 1 in Hrun. unfold Encode.call at 1 in Hrun.
  specialize (Hsend (Encode.lib w)).
  destruct (avcodec_send_frame None (Encode.lib w)) as [s l0].
  cbn [fst snd] in Hrun, Hsend.
  unfold bind at 1 in Hrun. cbn [Encode.note modify option_map] in Hrun.
  destruct (s <? 0) eqn:Hs; [discriminate Hrun|].
  apply Z.ltb_ge in Hs.
  apply encode_drain_flushed in Hrun; [|exact Hs|exact (Hsend Hs)].
  destruct Hrun as [events [Hlog Hdr]]. encode_fields_in Hlog.
  exists (EvSendFrame None s), events. split; [|split; [reflexivity|exact Hdr]].
  rewrite Hlog, <- app_assoc. reflexivity.
Qed.

(** Before the flush the encoder submits frames only. *)
Lemma encode_frames_loop_no_flush (fuel : nat) (c : AVCodecContext) (values : list Z) :
  forall frame,
    invariant (fun w => Forall (fun e => flushes e = false) (Encode.log w))
      (Encode.frames_loop fuel c frame values).
Proof.
  set (I := fun w => Forall (fun e => flushes e = false) (Encode.log w)).
  assert (Hcall : forall A (f : Lib -> A * Lib), invariant I (Encode.call f)).
  { intros A f w H. exact H. }
  assert (Hdrain : forall fuel' ret, invariant I (Encode.drain fuel' ret)).
  { induction fuel' as [|fuel' IH]; intros ret; cbn [Encode.drain].
    - destruct (ret <? 0); [apply invariant_pure|apply invariant_out_of_fuel].
    - destruct (ret <? 0); [apply invariant_pure|].
      unfold Encode.note, Encode.eprintf, Encode.printf, Encode.fwrite.
      apply invariant_bind; [apply Hcall|intros [r pkt]].
      apply invariant_bind.
      { apply invariant_modify. intros w H. unfold I. encode_fields.
        apply Forall_snoc; [exact H|reflexivity]. }
      intros _. destruct (_ || _); [apply invariant_pure|].
      destruct (r <? 0).
      { apply invariant_bind; [apply invariant_modify; intros ? H; exact H|intros _].
        apply invariant_exit. }
      apply invariant_bind; [apply invariant_modify; intros ? H; exact H|intros _].
      apply invariant_bind; [apply invariant_modify; intros ? H; exact H|intros _].
      apply IH. }
  induction values as [|i rest IH]; intros frame; cbn [Encode.frames_loop].
  - apply invariant_pure.
  - apply invariant_bind; [|intros _; apply IH].
    unfold Encode.encode, Encode.note, Encode.eprintf, Encode.printf.
    apply invariant_bind; [apply invariant_modify; intros ? H; exact H|intros _].
    apply invariant_bind; [apply Hcall|intros ret].
    apply invariant_bind.
    { apply invariant_modify. intros w H. unfold I. encode_fields.
      apply Forall_snoc; [exact H|reflexivity]. }
    intros _. destruct (ret <? 0); [|apply Hdrain].
    apply invariant_bind; [apply invariant_modify; intros ? H; exact H|intros _].
    apply invariant_exit.
Qed.

Lemma encode_main_flushed (fuel : nat) (argv : list string) (l : Lib)
  (v : Z) (w : Encode.world) :
  Encode.main fuel argv (Encode.start l) = Done v w ->
  flushed_and_drained (Encode.log w).
Proof.
  intros Hrun.
  destruct (encode_main_cases fuel argv (Encode.start l))
    as [[_ E] | [[_ [w' [E _]]] | [_ [c [frame [w1 [E [_ [Hl _]]]]]]]]];
    rewrite E in Hrun; try discriminate Hrun.
  unfold Encode.pump in Hrun. unfold bind at 1 in Hrun.
  assert (H0 : Forall (fun e => flushes e = false) (Encode.log w1)).
  { rewrite Hl. constructor. }
  pose proof (encode_frames_loop_no_flush fuel c (upto 25) frame w1 H0) as H1.
  destruct (Encode.frames_loop fuel c frame (upto 25) w1) as [[] w2| | |];
    try discriminate Hrun.
  cbn [final] in H1. unfold bind at 1 in Hrun.
  destruct (Encode.encode fuel None w2) as [[] w3| | |] eqn:Hd;
    try discriminate Hrun.
  apply encode_flush in Hd. destruct Hd as [flush [events [Hlog [Hf Hdr]]]].
  unfold bind at 1 in Hrun. cbn [Encode.fwrite modify pure] in Hrun.
  injection Hrun as _ Hw. subst w. encode_fields.
  exists (Encode.log w2), flush, events. auto.
Qed.

End Flush.

Section FlushHw.
Context {av : Libav}.
Variable draining : Lib -> Prop.
Hypothesis contract : flush_contract draining.

Lemma hw_dump_goes_on (tmp_frame : AVFrame) (w : HwDecode.world) :
  draining (HwDecode.lib w) -> goes_on draining w (HwDecode.dump tmp_frame w).
Proof.
  destruct contract as [_ [_ [_ [_ [_ [_ [_ Hmalloc]]]]]]].
  intros Hd. unfold HwDecode.dump. cbv zeta.
  unfold bind at 1. unfold HwDecode.call at 1.
  specialize (Hmalloc (to_size_t (HwDecode.buffer_size tmp_frame)) (HwDecode.lib w) Hd).
  destruct (av_malloc _ (HwDecode.lib w)) as [buffer l1]. cbn [fst snd] in *.
  destruct buffer; cbn [negb].
  - unfold bind at 1. cbn [HwDecode.note modify].
    destruct (av_image_copy_to_buffer _ _ _ _ _ _ _) as [ret bytes].
    destruct (ret <? 0).
    + cbn. split; [exact Hmalloc|]. eexists. split; [reflexivity|].
      constructor; [exact I|constructor].
    + unfold bind at 1. unfold HwDecode.fwrite. hw_fields.
      destruct (HwDecode.output_file w); [|exact I].
      destruct (_ <? 0); cbn; (split; [exact Hmalloc|]); eexists;
        (split; [reflexivity|]); (constructor; [exact I|constructor]).
  - cbn. split; [exact Hmalloc|]. exists []. split; [symmetry; apply app_nil_r|constructor].
Qed.

(** One round of [decode_write] on a flushed engine: it returns 0 only
    after the engine answered AVERROR_EOF, and it goes on to the next round
    only after a frame was handed out, with the engine still flushed. *)
Lemma hw_round_flushed (w : HwDecode.world) :
  draining (HwDecode.lib w) ->
  match HwDecode.round w with
  | Done (Some ret) w' =>
    ret = 0 ->
    exists last, HwDecode.log w' = HwDecode.log w ++ [last] /\ exhausted last
  | Done None w' =>
    draining (HwDecode.lib w')
    /\ exists events,
         HwDecode.log w' = HwDecode.log w ++ events /\ Forall hands_out events
  | _ => True
  end.
Proof.
  pose proof contract as [_ [_ [Hrecv [_ [_ [Halloc [Htransfer _]]]]]]].
  intros Hd.
  assert (Hfail : forall ret w1,
            draining (HwDecode.lib w1) ->
            (exists events, HwDecode.log w1 = HwDecode.log w ++ events
                            /\ Forall hands_out events) ->
            match HwDecode.fail ret w1 with
            | Done (Some ret) w' =>
              ret = 0 ->
              exists last, HwDecode.log w' = HwDecode.log w ++ [last] /\ exhausted last
            | Done None w' =>
              draining (HwDecode.lib w')
              /\ exists events,
                   HwDecode.log w' = HwDecode.log w ++ events /\ Forall hands_out events
            | _ => True
            end).
  { intros ret w1 Hd1 He1. unfold HwDecode.fail.
    destruct (ret <? 0) eqn:Hr; cbn.
    - intros H0. apply Z.ltb_lt in Hr. lia.
    - split; assumption. }
  assert (Hquiet : forall w1 : HwDecode.world,
            HwDecode.log w1 = HwDecode.log w ->
            exists events, HwDecode.log w1 = HwDecode.log w ++ events
                           /\ Forall hands_out events).
  { intros w1 H1. exists []. rewrite app_nil_r. split; [exact H1|constructor]. }
  pose proof (Halloc (HwDecode.lib w) Hd) as Hd1.
  destruct (av_frame_alloc (HwDecode.lib w)) as [f1 l1] eqn:E1. cbn [snd] in Hd1.
  destruct f1.
  2:{ unfold HwDecode.round.
      unfold bind at 1. unfold HwDecode.call at 1. rewrite E1. cbn [fst snd].
      unfold bind at 1. cbn [pure negb orb].
      unfold bind at 1. cbn [HwDecode.eprintf modify].
      apply Hfail; [exact Hd1|apply Hquiet; reflexivity]. }
  pose proof (Halloc l1 Hd1) as Hd2.
  destruct (av_frame_alloc l1) as [f2 l2] eqn:E2. cbn [snd] in Hd2.
  destruct f2.
  2:{ unfold HwDecode.round.
      unfold bind at 1. unfold HwDecode.call at 1. rewrite E1. cbn [fst snd].
      unfold bind at 1. unfold HwDecode.call at 1. hw_fields. rewrite E2.
      cbn [fst snd negb orb].
      unfold bind at 1. cbn [HwDecode.eprintf modify].
      apply Hfail; [exact Hd2|apply Hquiet; reflexivity]. }
  pose proof (hw_round w l1 l2 E1 E2) as R.
  pose proof (Hrecv l2 Hd2) as [Hne Hd3].
  destruct (avcodec_receive_frame l2) as [[r frame] l3]. cbn [fst snd] in Hne, Hd3.
  cbv zeta in R. rewrite R. clear R.
  set (ev := EvReceiveFrame r (format frame) (frame_number l3)).
  destruct (stops r) eqn:Hstop.
  { intros _. exists ev. split; [reflexivity|]. exact (stops_not_eagain r Hstop Hne). }
  destruct (r <? 0) eqn:Hr.
  { intros H0. apply Z.ltb_lt in Hr. lia. }
  assert (Hev : hands_out ev).
  { cbn. rewrite produced_cases, Hstop, Hr. reflexivity. }
  unfold bind at 1. rewrite resolve_cases. hw_fields.
  assert (Hdump : forall tmp_frame w1,
            draining (HwDecode.lib w1) ->
            (exists events, HwDecode.log w1 = HwDecode.log w ++ events
                            /\ Forall hands_out events) ->
            match bind (HwDecode.dump tmp_frame) HwDecode.fail w1 with
            | Done (Some ret) w' =>
              ret = 0 ->
              exists last, HwDecode.log w' = HwDecode.log w ++ [last] /\ exhausted last
            | Done None w' =>
              draining (HwDecode.lib w')
              /\ exists events,
                   HwDecode.log w' = HwDecode.log w ++ events /\ Forall hands_out events
            | _ => True
            end).
  { intros tmp w1 Hd' [events [Hl He]].
    pose proof (hw_dump_goes_on tmp w1 Hd') as Hg. unfold bind.
    destruct (HwDecode.dump tmp w1) as [ret w2| | |]; try exact I.
    destruct Hg as [Hd'' [events' [Hl' He']]].
    apply Hfail; [exact Hd''|].
    exists (events ++ events'). split.
    - rewrite Hl', Hl, app_assoc. reflexivity.
    - apply Forall_app. split; assumption. }
  destruct (format frame =? HwDecode.hw_pix_fmt w).
  - pose proof (Htransfer frame l3 Hd3) as Hd4.
    destruct (av_hwframe_transfer_data frame l3) as [[ret sw_frame] l4].
    cbn [snd] in Hd4.
    destruct (ret <? 0) eqn:Hret.
    + unfold HwDecode.fail. rewrite Hret. cbn.
      intros H0. apply Z.ltb_lt in Hret. lia.
    + apply Hdump; [exact Hd4|].
      exists [ev; EvTransfer ret]. split.
      * hw_fields. rewrite <- app_assoc. reflexivity.
      * constructor; [exact Hev|]. constructor; [exact I|constructor].
  - apply Hdump; [exact Hd3|].
    exists [ev]. split; [reflexivity|]. constructor; [exact Hev|constructor].
Qed.

Lemma hw_rounds_flushed (fuel : nat) :
  forall w w',
    draining (HwDecode.lib w) ->
    HwDecode.rounds fuel w = Done 0 w' ->
    exists events, HwDecode.log w' = HwDecode.log w ++ events /\ drained_to_end events.
Proof.
  induction fuel as [|fuel IH]; intros w w' Hd Hrun; cbn [HwDecode.rounds] in Hrun.
  - discriminate Hrun.
  - unfold bind at 1 in Hrun.
    pose proof (hw_round_flushed w Hd) as Hr.
    destruct (HwDecode.round w) as [[ret|] w1| | |]; try discriminate Hrun.
    + unfold pure in Hrun. injection Hrun as Hret Hw. subst ret w1.
      destruct (Hr eq_refl) as [last [Hl He]].
      exists [last]. split; [exact Hl|]. exists [], last.
      split; [reflexivity|]. split; [constructor|exact He].
    + destruct Hr as [Hd1 [events [Hl He]]].
      destruct (IH w1 w' Hd1 Hrun) as [events' [Hl' [outputs [last [E [Ho Hlast]]]]]].
      exists (events ++ events'). split.
      * rewrite Hl', Hl, app_assoc. reflexivity.
      * exists (events ++ outputs), last. rewrite E, app_assoc.
        split; [reflexivity|]. split; [|exact Hlast].
        apply Forall_app. split; assumption.
Qed.

(** [decode_write] with a packet that has no payload: when it returns 0,
    the packet was submitted and the engine was drained to the end. *)
Lemma hw_decode_write_flush (fuel : nat) (pkt : AVPacket) (w w' : HwDecode.world) :
  no_payload (Some pkt) = true ->
  HwDecode.decode_write fuel pkt w = Done 0 w' ->
  exists ret events,
    HwDecode.log w' = HwDecode.log w ++ EvSendPacket (Some pkt) ret :: events
    /\ drained_to_end events.
Proof.
  destruct contract as [Hsend _].
  intros Hp Hrun. unfold HwDecode.decode_write in Hrun.
  unfold bind at 1 in Hrun. unfold HwDecode.call at 1 in Hrun.
  specialize (Hsend (Some pkt) (HwDecode.lib w) Hp).
  destruct (avcodec_send_packet (Some pkt) (HwDecode.lib w)) as [s l0].
  cbn [fst snd] in Hrun, Hsend.
  unfold bind at 1 in Hrun. cbn [HwDecode.note modify] in Hrun.
  destruct (s <? 0) eqn:Hs.
  - unfold bind at 1 in Hrun. cbn [HwDecode.eprintf modify pure] in Hrun.
    injection Hrun as H0 _. apply Z.ltb_lt in Hs. lia.
  - apply Z.ltb_ge in Hs.
    apply hw_rounds_flushed in Hrun; [|exact (Hsend Hs)].
    destruct Hrun as [events [Hlog Hdr]]. hw_fields_in Hlog.
    exists s, events. split; [|exact Hdr].
    rewrite Hlog, <- app_assoc. reflexivity.
Qed.

End FlushHw.

(** The toy engine keeps the contract of a flush. *)
Lemma toy_flush_contract :
  @flush_contract Toy.lib (fun s => Toy.draining s = true).
Proof.
  assert (Hsend : forall b s,
            0 <= fst (Toy.send b s) -> b = true -> Toy.draining (snd (Toy.send b s)) = true).
  { intros b s. unfold Toy.send. destruct (Toy.draining s) eqn:Hd; cbn.
    - intros _ _. exact Hd.
    - intros _ Hb. subst b. reflexivity. }
  assert (Hframe : forall s, Toy.draining s = true ->
            fst (fst (Toy.receive_frame s)) <> Toy.eagain
            /\ Toy.draining (snd (Toy.receive_frame s)) = true).
  { intros s H. unfold Toy.receive_frame, Toy.stop_code.
    destruct (Toy.ready s); cbn; rewrite H; split; try reflexivity; discriminate. }
  assert (Hpacket : forall s, Toy.draining s = true ->
            fst (fst (Toy.receive_packet s)) <> Toy.eagain
            /\ Toy.draining (snd (Toy.receive_packet s)) = true).
  { intros s H. unfold Toy.receive_packet, Toy.stop_code.
    destruct (Toy.ready s); cbn; rewrite H; split; try reflexivity; discriminate. }
  unfold flush_contract. split; [|split; [|split; [|split; [|split; [|split; [|split]]]]]].
  - intros pkt s Hp H. apply Hsend; [exact H|]. destruct pkt; exact Hp.
  - intros s H. apply Hsend; [exact H|reflexivity].
  - exact Hframe.
  - exact Hpacket.
  - intros name s H. exact H.
  - intros s H. exact H.
  - intros f s H. exact H.
  - intros n s H. exact H.
Qed.

(** * The code around the pumps *)

(** ** More rules *)

(** One step of a run. *)
Lemma bind_run {W A B} (m : prog W A) (k : A -> prog W B) (w : W) :
  bind m k w = match m w with
               | Done a w' => k a w'
               | Exit c w' => Exit c w'
               | Fault w' => Fault w'
               | OutOfFuel w' => OutOfFuel w'
               end.
Proof. reflexivity. Qed.

Lemma invariant_final_triple {W A} (I : W -> Prop) (m : prog W A) :
  triple I m (fun _ => I) I -> invariant I m.
Proof. intros H w Hw. specialize (H w Hw). destruct (m w); exact H. Qed.

(** ** The files written by [pgm_save] *)
Section Pgm.
Context {av : Libav}.

Lemma count_from_nth (count : nat) :
  forall i k, (k < count)%nat -> nth k (count_from i count) 0 = i + Z.of_nat k.
Proof.
  induction count as [|count IH]; intros i k Hk; [lia|].
  destruct k as [|k]; cbn [count_from nth]; [lia|].
  rewrite IH by lia. lia.
Qed.

Lemma count_from_in (count : nat) :
  forall i z, In z (count_from i count) -> i <= z < i + Z.of_nat count.
Proof.
  induction count as [|count IH]; intros i z Hz; [destruct Hz|].
  cbn [count_from] in Hz. destruct Hz as [Hz|Hz]; [lia|].
  apply IH in Hz. lia.
Qed.

Lemma upto_in (n z : Z) : In z (upto n) -> 0 <= z < n.
Proof. intros H. apply count_from_in in H. lia. Qed.

(** Sample [x] of row [k] in a list of rows of [bw] samples. *)
Lemma rows_nth (f : Z -> Z -> byte) (bw : nat) (count : nat) :
  forall i k x, (k < count)%nat -> (x < bw)%nat ->
    nth (k * bw + x) (flat_map (fun y => map (f y) (count_from 0 bw)) (count_from i count)) 0
    = f (i + Z.of_nat k) (Z.of_nat x).
Proof.
  induction count as [|count IH]; intros i k x Hk Hx; [lia|].
  cbn [count_from flat_map].
  destruct k as [|k].
  - rewrite app_nth1 by (rewrite length_map, count_from_length; lia).
    cbn [Nat.mul Nat.add].
    rewrite (nth_indep _ 0 (f i 0)) by (rewrite length_map, count_from_length; lia).
    rewrite map_nth, count_from_nth by lia.
    f_equal; lia.
  - rewrite app_nth2 by (rewrite length_map, count_from_length; lia).
    rewrite length_map, count_from_length.
    replace (S k * bw + x - bw)%nat with (k * bw + x)%nat by lia.
    rewrite IH by lia. f_equal; lia.
Qed.

(** X1.  [pgm_save] writes one file: when [fopen] succeeds, a file of the
    given name is added to the files written so far, and it holds the
    header [P5], width, height, 255 followed by exactly [xsize * ysize]
    bytes, the byte of column [x] in row [i] being the sample at offset
    [i * wrap + x] of the plane.  The result of [fopen] is not tested:
    when it fails the function runs into undefined behaviour and no file
    is added. *)
Theorem pgm_save_writes (buf : Z -> byte) (wrap xsize ysize : Z) (filename : string)
  (w : Decode.world) :
  0 <= xsize -> 0 <= ysize ->
  match Decode.pgm_save buf wrap xsize ysize filename w with
  | Done _ w' =>
    fst (fopen_write filename (Decode.lib w)) = true
    /\ exists body,
         Decode.saved w' = Decode.saved w ++ [(filename, pgm_header xsize ysize ++ body)]
         /\ Z.of_nat (List.length body) = xsize * ysize
         /\ forall i x, 0 <= i < ysize -> 0 <= x < xsize ->
              nth (Z.to_nat (i * xsize + x)) body 0 = buf (i * wrap + x)
  | Fault w' =>
    fst (fopen_write filename (Decode.lib w)) = false
    /\ Decode.saved w' = Decode.saved w
  | _ => False
  end.
Proof.
  intros Hx Hy. unfold Decode.pgm_save, bind, Decode.call.
  destruct (fst (fopen_write filename (Decode.lib w))); cbn [negb].
  - cbn [modify]. split; [reflexivity|].
    exists (flat_map (fun i => map (fun x => buf (i * wrap + x)) (upto xsize)) (upto ysize)).
    split; [reflexivity|]. split.
    + rewrite (rows_length (fun i x => buf (i * wrap + x))), upto_length. lia.
    + intros i x Hi Hxx. unfold upto.
      replace (Z.to_nat (i * xsize + x))
        with (Z.to_nat i * Z.to_nat xsize + Z.to_nat x)%nat
        by (rewrite Z2Nat.inj_add by nia; rewrite Z2Nat.inj_mul by lia; reflexivity).
      rewrite (rows_nth (fun i x => buf (i * wrap + x))) by lia.
      rewrite !Z2Nat.id by lia. reflexivity.
  - cbn [fault]. split; reflexivity.
Qed.

Lemma flat_map_agree {A B} (f g : A -> list B) (l : list A) :
  (forall a, In a l -> f a = g a) -> flat_map f l = flat_map g l.
Proof.
  induction l as [|a l IH]; intros H; [reflexivity|].
  cbn [flat_map]. rewrite (H a) by (left; reflexivity).
  rewrite IH; [reflexivity|]. intros b Hb. apply H. right. exact Hb.
Qed.

(** X2.  The bytes [pgm_save] writes depend on the visible samples only:
    two planes with different strides that agree on the [xsize] samples
    of each of the [ysize] rows give the same file, whatever lies in the
    padding at the end of the rows. *)
Theorem pgm_ignores_stride_padding (buf1 buf2 : Z -> byte) (wrap1 wrap2 xsize ysize : Z) :
  0 <= xsize ->
  (forall i x, 0 <= i < ysize -> 0 <= x < xsize ->
     buf1 (i * wrap1 + x) = buf2 (i * wrap2 + x)) ->
  Decode.pgm_bytes buf1 wrap1 xsize ysize = Decode.pgm_bytes buf2 wrap2 xsize ysize.
Proof.
  intros _ H. unfold Decode.pgm_bytes. f_equal.
  apply flat_map_agree. intros i Hi. apply map_ext_in. intros x Hx.
  apply H; apply upto_in; assumption.
Qed.

End Pgm.

(** A plane of three rows of two samples, four bytes apart. *)
Lemma pgm_save_writes_witness :
  0 <= 2 /\ 0 <= 3
  /\ match @Decode.pgm_save Toy.lib (fun o => o) 4 2 3 "out-1" (Toy.decoding 0 []) with
     | Done _ w' =>
       exists body,
         Decode.saved w' = [("out-1", pgm_header 2 3 ++ body)]
         /\ Z.of_nat (List.length body) = 2 * 3
         /\ forall i x, 0 <= i < 3 -> 0 <= x < 2 ->
              nth (Z.to_nat (i * 2 + x)) body 0 = i * 4 + x
     | _ => False
     end.
Proof.
  split; [lia|]. split; [lia|].
  pose proof (@pgm_save_writes Toy.lib (fun o => o) 4 2 3 "out-1" (Toy.decoding 0 [])) as H.
  destruct (@Decode.pgm_save Toy.lib (fun o => o) 4 2 3 "out-1" (Toy.decoding 0 []))
    as [[] w'| | |] eqn:E; try discriminate E.
  destruct H as [_ H]; [lia|lia|]. exact H.
Defined.

(** The same four samples with a stride of 4, the padding set to 255, and
    with a stride of 3. *)
Lemma pgm_ignores_stride_padding_witness :
  0 <= 2
  /\ Decode.pgm_bytes (fun o => if o mod 4 <? 2 then o else 255) 4 2 2
     = Decode.pgm_bytes (fun o => 4 * (o / 3) + o mod 3) 3 2 2.
Proof.
  split; [lia|].
  apply pgm_ignores_stride_padding; [lia|].
  intros i x Hi Hx.
  assert (Hi' : i = 0 \/ i = 1) by lia. assert (Hx' : x = 0 \/ x = 1) by lia.
  destruct Hi', Hx'; subst; reflexivity.
Defined.

(** ** The synthetic pictures of the encoder *)
Section DummyImage.
Context {av : Libav}.

Lemma same_outside_refl (T : Z -> Z -> Prop) (a : AVFrame) : same_outside T a a.
Proof. repeat split. Qed.

Lemma same_outside_trans (T : Z -> Z -> Prop) (a b c : AVFrame) :
  same_outside T a b -> same_outside T b c -> same_outside T a c.
Proof.
  intros [A1 [A2 [A3 [A4 [A5 A6]]]]] [B1 [B2 [B3 [B4 [B5 B6]]]]].
  repeat split; try congruence.
  intros p o H. rewrite A6, B6 by exact H. reflexivity.
Qed.

Lemma put_sample_outside (T : Z -> Z -> Prop) (p o v : Z) (fr : AVFrame) :
  T p o -> same_outside T (Encode.put_sample p o v fr) fr.
Proof.
  intros H. unfold same_outside, Encode.put_sample.
  cbn [format width height pts linesize data]. repeat split.
  intros q o' Hn.
  destruct ((q =? p) && (o' =? o)) eqn:E; [|reflexivity].
  apply andb_prop in E. destruct E as [E1 E2].
  apply Z.eqb_eq in E1, E2. subst. contradiction.
Qed.

(** A loop whose rounds change a frame only at the places [T], as long as
    the strides are [stride], changes it only there. *)
Lemma fold_outside (T : Z -> Z -> Prop) (stride : Z -> Z)
  (step : AVFrame -> Z -> AVFrame) (xs : list Z) :
  (forall fr x, In x xs -> linesize fr = stride -> same_outside T (step fr x) fr) ->
  forall fr, linesize fr = stride -> same_outside T (fold_left step xs fr) fr.
Proof.
  induction xs as [|x xs IH]; intros Hstep fr Hfr; [apply same_outside_refl|].
  cbn [fold_left].
  assert (H1 : same_outside T (step fr x) fr).
  { apply Hstep; [left; reflexivity|exact Hfr]. }
  apply same_outside_trans with (b := step fr x); [|exact H1].
  apply IH.
  - intros fr' x' Hx'. apply Hstep. right. exact Hx'.
  - destruct H1 as [_ [_ [_ [_ [H1 _]]]]]. rewrite H1. exact Hfr.
Qed.

(** A loop in which round [x0] stores [v] at a place, and no other round
    changes that place, leaves [v] there. *)
Lemma fold_writes (stride : Z -> Z) (p o : Z) (v : byte)
  (step : AVFrame -> Z -> AVFrame) (x0 : Z) (xs : list Z) :
  (forall fr x, In x xs -> linesize fr = stride ->
     linesize (step fr x) = stride
     /\ (x = x0 -> data (step fr x) p o = v)
     /\ (x <> x0 -> data (step fr x) p o = data fr p o)) ->
  forall fr, linesize fr = stride -> In x0 xs \/ data fr p o = v ->
    data (fold_left step xs fr) p o = v.
Proof.
  induction xs as [|x xs IH]; intros Hstep fr Hfr Hx0.
  - destruct Hx0 as [[]|H]. exact H.
  - cbn [fold_left].
    destruct (Hstep fr x (or_introl eq_refl) Hfr) as [H1 [H2 H3]].
    apply IH.
    + intros fr' x' Hx'. apply Hstep. right. exact Hx'.
    + exact H1.
    + destruct (Z.eq_dec x x0) as [E|E].
      * right. apply H2, E.
      * destruct Hx0 as [[Hx0|Hx0]|Hx0].
        -- contradiction.
        -- left. exact Hx0.
        -- right. rewrite H3 by exact E. exact Hx0.
Qed.

Lemma in_upto (n z : Z) : 0 <= z < n -> In z (upto n).
Proof.
  intros H. unfold upto.
  assert (G : forall count i, i <= z < i + Z.of_nat count -> In z (count_from i count)).
  { induction count as [|count IH]; intros i Hi; [lia|].
    cbn [count_from]. destruct (Z.eq_dec i z) as [E|E]; [left; exact E|].
    right. apply IH. lia. }
  apply G. lia.
Qed.

Lemma put_sample_linesize (p o v : Z) (fr : AVFrame) :
  linesize (Encode.put_sample p o v fr) = linesize fr.
Proof. reflexivity. Qed.

Lemma put_sample_data (p o v : Z) (fr : AVFrame) (q o' : Z) :
  data (Encode.put_sample p o v fr) q o'
  = if (q =? p) && (o' =? o) then to_uint8 v else data fr q o'.
Proof. reflexivity. Qed.

(** Two places in rows of [bw] samples, [stride] bytes apart, are the same
    place only in the same row. *)
Lemma row_disjoint (stride bw y y0 x x0 : Z) :
  bw <= stride -> 0 <= x < bw -> 0 <= x0 < bw ->
  y * stride + x = y0 * stride + x0 -> y = y0.
Proof.
  intros Hs Hx Hx0 E.
  destruct (Z.lt_trichotomy y y0) as [H|[H|H]]; [exfalso|exact H|exfalso]; nia.
Qed.

Section Loops.
Variable c : AVCodecContext.
Variable i : Z.
Variable stride : Z -> Z.

(** One row of the luma loop, and one row of the chroma loop. *)
Let luma_row (fr : AVFrame) (y : Z) : AVFrame :=
  fold_left (fun fr x =>
    Encode.put_sample 0 (y * linesize fr 0 + x) (x + y + i * 3) fr)
    (upto (ctx_width c)) fr.

Let chroma_row (fr : AVFrame) (y : Z) : AVFrame :=
  fold_left (fun fr x =>
    Encode.put_sample 2 (y * linesize fr 2 + x) (64 + x + i * 5)
      (Encode.put_sample 1 (y * linesize fr 1 + x) (128 + y + i * 2) fr))
    (upto (Z.quot (ctx_width c) 2)) fr.

Lemma luma_row_outside (T : Z -> Z -> Prop) (y : Z) (fr : AVFrame) :
  linesize fr = stride ->
  (forall x, 0 <= x < ctx_width c -> T 0 (y * stride 0 + x)) ->
  same_outside T (luma_row fr y) fr.
Proof.
  intros Hfr HT. apply (fold_outside _ stride); [|exact Hfr].
  intros fr' x Hx Hfr'. apply upto_in in Hx.
  apply put_sample_outside. rewrite Hfr'. apply HT, Hx.
Qed.

Lemma chroma_row_outside (T : Z -> Z -> Prop) (y : Z) (fr : AVFrame) :
  linesize fr = stride ->
  (forall x, 0 <= x < Z.quot (ctx_width c) 2 ->
     T 1 (y * stride 1 + x) /\ T 2 (y * stride 2 + x)) ->
  same_outside T (chroma_row fr y) fr.
Proof.
  intros Hfr HT. apply (fold_outside _ stride); [|exact Hfr].
  intros fr' x Hx Hfr'. apply upto_in in Hx.
  eapply same_outside_trans; apply put_sample_outside; rewrite Hfr'; apply HT, Hx.
Qed.

Lemma luma_outside (T : Z -> Z -> Prop) (frame : AVFrame) :
  linesize frame = stride ->
  (forall y x, 0 <= y < ctx_height c -> 0 <= x < ctx_width c ->
     T 0 (y * stride 0 + x)) ->
  same_outside T (fold_left luma_row (upto (ctx_height c)) frame) frame.
Proof.
  intros Hfr HT. apply (fold_outside _ stride); [|exact Hfr].
  intros fr y Hy Hfr'. apply upto_in in Hy.
  apply luma_row_outside; [exact Hfr'|]. intros x Hx. apply HT; assumption.
Qed.

Lemma chroma_outside (T : Z -> Z -> Prop) (frame : AVFrame) :
  linesize frame = stride ->
  (forall y x, 0 <= y < Z.quot (ctx_height c) 2 -> 0 <= x < Z.quot (ctx_width c) 2 ->
     T 1 (y * stride 1 + x) /\ T 2 (y * stride 2 + x)) ->
  same_outside T (fold_left chroma_row (upto (Z.quot (ctx_height c) 2)) frame) frame.
Proof.
  intros Hfr HT. apply (fold_outside _ stride); [|exact Hfr].
  intros fr y Hy Hfr'. apply upto_in in Hy.
  apply chroma_row_outside; [exact Hfr'|]. intros x Hx. apply HT; assumption.
Qed.

Lemma luma_writes (frame : AVFrame) (y0 x0 : Z) :
  linesize frame = stride -> ctx_width c <= stride 0 ->
  0 <= y0 < ctx_height c -> 0 <= x0 < ctx_width c ->
  data (fold_left luma_row (upto (ctx_height c)) frame) 0 (y0 * stride 0 + x0)
  = to_uint8 (x0 + y0 + i * 3).
Proof.
  intros Hfr Hs Hy0 Hx0.
  apply (fold_writes stride) with (x0 := y0);
    [|exact Hfr|left; apply in_upto; exact Hy0].
  intros fr y Hy Hfr'. apply upto_in in Hy. split; [|split].
  - destruct (luma_row_outside (fun _ _ => True) y fr Hfr' (fun _ _ => I))
      as [_ [_ [_ [_ [H _]]]]].
    rewrite H. exact Hfr'.
  - intros ->. apply (fold_writes stride) with (x0 := x0);
      [|exact Hfr'|left; apply in_upto; exact Hx0].
    intros fr' x Hx Hfr''. rewrite put_sample_linesize, put_sample_data, Hfr''.
    split; [reflexivity|]. split.
    + intros ->. rewrite !Z.eqb_refl. reflexivity.
    + intros Hne. replace (y0 * stride 0 + x0 =? y0 * stride 0 + x) with false;
        [reflexivity|]. symmetry. apply Z.eqb_neq. lia.
  - intros Hne.
    destruct (luma_row_outside
                (fun p o => exists x, 0 <= x < ctx_width c /\ o = y * stride 0 + x)
                y fr Hfr') as [_ [_ [_ [_ [_ H]]]]].
    + intros x Hx. exists x. split; [exact Hx|reflexivity].
    + apply H. intros [x [Hx E]]. apply Hne. symmetry.
      exact (row_disjoint _ _ _ _ _ _ Hs Hx0 Hx E).
Qed.

Lemma chroma_writes (frame : AVFrame) (y0 x0 : Z) :
  linesize frame = stride ->
  Z.quot (ctx_width c) 2 <= stride 1 -> Z.quot (ctx_width c) 2 <= stride 2 ->
  0 <= y0 < Z.quot (ctx_height c) 2 -> 0 <= x0 < Z.quot (ctx_width c) 2 ->
  let out := fold_left chroma_row (upto (Z.quot (ctx_height c) 2)) frame in
  data out 1 (y0 * stride 1 + x0) = to_uint8 (128 + y0 + i * 2)
  /\ data out 2 (y0 * stride 2 + x0) = to_uint8 (64 + x0 + i * 5).
Proof.
  intros Hfr Hs1 Hs2 Hy0 Hx0. cbv zeta.
  assert (Hrow : forall fr y, linesize fr = stride -> linesize (chroma_row fr y) = stride).
  { intros fr y Hfr'.
    destruct (chroma_row_outside (fun _ _ => True) y fr Hfr' (fun _ _ => conj I I))
      as [_ [_ [_ [_ [H _]]]]].
    rewrite H. exact Hfr'. }
  assert (Hother : forall fr y, linesize fr = stride -> y <> y0 ->
            data (chroma_row fr y) 1 (y0 * stride 1 + x0) = data fr 1 (y0 * stride 1 + x0)
            /\ data (chroma_row fr y) 2 (y0 * stride 2 + x0)
               = data fr 2 (y0 * stride 2 + x0)).
  { intros fr y Hfr' Hne.
    destruct (chroma_row_outside
                (fun p o => exists x, 0 <= x < Z.quot (ctx_width c) 2
                                      /\ o = y * stride p + x)
                y fr Hfr') as [_ [_ [_ [_ [_ H]]]]].
    - intros x Hx. split; exists x; (split; [exact Hx|reflexivity]).
    - split; apply H; intros [x [Hx E]]; apply Hne; symmetry.
      + exact (row_disjoint _ _ _ _ _ _ Hs1 Hx0 Hx E).
      + exact (row_disjoint _ _ _ _ _ _ Hs2 Hx0 Hx E). }
  split.
  - apply (fold_writes stride) with (x0 := y0);
      [|exact Hfr|left; apply in_upto; exact Hy0].
    intros fr y Hy Hfr'. split; [exact (Hrow fr y Hfr')|]. split.
    + intros ->. apply (fold_writes stride) with (x0 := x0);
        [|exact Hfr'|left; apply in_upto; exact Hx0].
      intros fr' x Hx Hfr''.
      rewrite !put_sample_linesize, !put_sample_data, Hfr''.
      split; [reflexivity|]. cbn [Z.eqb Pos.eqb andb]. split.
      * intros ->. rewrite Z.eqb_refl. reflexivity.
      * intros Hne. replace (y0 * stride 1 + x0 =? y0 * stride 1 + x) with false;
          [reflexivity|]. symmetry. apply Z.eqb_neq. lia.
    + intros Hne. exact (proj1 (Hother fr y Hfr' Hne)).
  - apply (fold_writes stride) with (x0 := y0);
      [|exact Hfr|left; apply in_upto; exact Hy0].
    intros fr y Hy Hfr'. split; [exact (Hrow fr y Hfr')|]. split.
    + intros ->. apply (fold_writes stride) with (x0 := x0);
        [|exact Hfr'|left; apply in_upto; exact Hx0].
      intros fr' x Hx Hfr''.
      rewrite !put_sample_linesize, !put_sample_data, Hfr''.
      split; [reflexivity|]. cbn [Z.eqb Pos.eqb andb]. split.
      * intros ->. rewrite Z.eqb_refl. reflexivity.
      * intros Hne. replace (y0 * stride 2 + x0 =? y0 * stride 2 + x) with false;
          [reflexivity|]. symmetry. apply Z.eqb_neq. lia.
    + intros Hne. exact (proj2 (Hother fr y Hfr' Hne)).
Qed.

End Loops.

(** X4.  Preparing the dummy image of a picture changes nothing but the
    samples of the picture: format, width, height, [pts] and strides of
    the frame stay as they are, and so does every byte of the three
    planes outside the picture area (the stride padding of each row, the
    rows below the picture) and every other plane. *)
Theorem dummy_image_outside (c : AVCodecContext) (i : Z) (frame : AVFrame) :
  same_outside (picture_area c (linesize frame)) (Encode.dummy_image c i frame) frame.
Proof.
  unfold Encode.dummy_image. cbv zeta.
  eapply same_outside_trans.
  - apply (chroma_outside c i (linesize frame)).
    + apply (luma_outside c i (linesize frame) (fun _ _ => True)); [reflexivity|].
      intros; exact I.
    + intros y x Hy Hx. split; exists y, x; (split; [reflexivity|]); right;
        repeat split; lia.
  - apply (luma_outside c i (linesize frame)); [reflexivity|].
    intros y x Hy Hx. exists y, x. split; [reflexivity|]. left. repeat split; lia.
Qed.

(** X3.  In a frame whose strides are at least the width of the planes,
    the dummy image of picture [i] is, whatever the frame held before:
    luma sample [(x, y)] is [x + y + 3 i], and in the chroma planes, of
    half the width and half the height, Cb sample [(x, y)] is
    [128 + y + 2 i] and Cr sample [(x, y)] is [64 + x + 5 i], each taken
    modulo 256. *)
Theorem dummy_image_samples (c : AVCodecContext) (i : Z) (frame : AVFrame) :
  ctx_width c <= linesize frame 0 ->
  Z.quot (ctx_width c) 2 <= linesize frame 1 ->
  Z.quot (ctx_width c) 2 <= linesize frame 2 ->
  let out := Encode.dummy_image c i frame in
  (forall y x, 0 <= y < ctx_height c -> 0 <= x < ctx_width c ->
     data out 0 (y * linesize frame 0 + x) = to_uint8 (x + y + i * 3))
  /\ (forall y x, 0 <= y < Z.quot (ctx_height c) 2 -> 0 <= x < Z.quot (ctx_width c) 2 ->
        data out 1 (y * linesize frame 1 + x) = to_uint8 (128 + y + i * 2)
        /\ data out 2 (y * linesize frame 2 + x) = to_uint8 (64 + x + i * 5)).
Proof.
  intros H0 H1 H2. cbv zeta. unfold Encode.dummy_image. cbv zeta.
  pose proof (luma_outside c i (linesize frame) (fun p _ => p = 0) frame eq_refl
                (fun _ _ _ _ => eq_refl)) as [_ [_ [_ [_ [Hls Hluma]]]]].
  split.
  - intros y x Hy Hx.
    destruct (chroma_outside c i (linesize frame) (fun p _ => p = 1 \/ p = 2) _ Hls)
      as [_ [_ [_ [_ [_ H]]]]].
    + intros. split; [left|right]; reflexivity.
    + rewrite H by lia. apply luma_writes; try assumption. reflexivity.
  - intros y x Hy Hx.
    exact (chroma_writes c i (linesize frame) _ y x Hls H1 H2 Hy Hx).
Qed.

End DummyImage.

(** Picture 7 of the encoder in a frame whose rows are longer than the
    picture is wide. *)
Lemma dummy_image_samples_witness :
  let c := @Encode.settings Toy.lib in
  (ctx_width c <= linesize wide_frame 0
   /\ Z.quot (ctx_width c) 2 <= linesize wide_frame 1
   /\ Z.quot (ctx_width c) 2 <= linesize wide_frame 2)
  /\ (forall y x, 0 <= y < ctx_height c -> 0 <= x < ctx_width c ->
        data (Encode.dummy_image c 7 wide_frame) 0 (y * linesize wide_frame 0 + x)
        = to_uint8 (x + y + 7 * 3))
  /\ (forall y x,
        0 <= y < Z.quot (ctx_height c) 2 -> 0 <= x < Z.quot (ctx_width c) 2 ->
        data (Encode.dummy_image c 7 wide_frame) 1 (y * linesize wide_frame 1 + x)
        = to_uint8 (128 + y + 7 * 2)
        /\ data (Encode.dummy_image c 7 wide_frame) 2 (y * linesize wide_frame 2 + x)
           = to_uint8 (64 + x + 7 * 5)).
Proof.
  cbv zeta.
  assert (H0 : ctx_width (@Encode.settings Toy.lib) <= linesize wide_frame 0)
    by (vm_compute; discriminate).
  assert (H1 : Z.quot (ctx_width (@Encode.settings Toy.lib)) 2 <= linesize wide_frame 1)
    by (vm_compute; discriminate).
  assert (H2 : Z.quot (ctx_width (@Encode.settings Toy.lib)) 2 <= linesize wide_frame 2)
    by (vm_compute; discriminate).
  split; [split; [exact H0|split; [exact H1|exact H2]]|].
  exact (dummy_image_samples (@Encode.settings Toy.lib) 7 wide_frame H0 H1 H2).
Defined.

(** ** The frames submitted by the encoder *)
Section EncodeOrder.
Context {av : Libav}.

Lemma sent_frames_app (l1 l2 : list event) :
  sent_frames (l1 ++ l2) = sent_frames l1 ++ sent_frames l2.
Proof. apply flat_map_app. Qed.

Lemma encode_invariant_call {A} (I : Encode.world -> Prop) (f : Lib -> A * Lib) :
  (forall l w, I w -> I (Encode.set_lib l w)) -> invariant I (Encode.call f).
Proof. intros H w Hw. apply H, Hw. Qed.

(** The drain loop of [encode] submits nothing. *)
Lemma encode_drain_sent (s : list (option Z)) (fuel : nat) :
  forall ret, invariant (fun w => sent_frames (Encode.log w) = s) (Encode.drain fuel ret).
Proof.
  induction fuel as [|fuel IH]; intros ret; cbn [Encode.drain].
  - repeat invariant_step.
  - destruct (ret <? 0); [apply invariant_pure|].
    unfold Encode.note, Encode.eprintf, Encode.printf, Encode.fwrite.
    apply invariant_bind;
      [apply encode_invariant_call; intros ? ? H; exact H|intros [r pkt]].
    apply invariant_bind.
    { apply invariant_modify. intros w H. encode_fields.
      rewrite sent_frames_app, H. apply app_nil_r. }
    intros _. destruct (_ || _); [apply invariant_pure|].
    destruct (r <? 0).
    { apply invariant_bind; [apply invariant_modify; intros ? H; exact H|intros _].
      apply invariant_exit. }
    apply invariant_bind; [apply invariant_modify; intros ? H; exact H|intros _].
    apply invariant_bind; [apply invariant_modify; intros ? H; exact H|intros _].
    apply IH.
Qed.

(** [encode] submits its frame, and nothing else, however it ends. *)
Lemma encode_sent (fuel : nat) (frame : option AVFrame) (w : Encode.world) :
  sent_frames (Encode.log (final (Encode.encode fuel frame w)))
  = sent_frames (Encode.log w) ++ [option_map pts frame].
Proof.
  unfold Encode.encode. unfold bind at 1.
  set (w1 := match frame with
             | Some f => Encode.set_stdout
                           (Encode.stdout w ++ [("Send frame " ++ dec (pts f) ++ nl)%string]) w
             | None => w
             end).
  assert (E1 : (match frame with
                | Some f => Encode.printf ("Send frame " ++ dec (pts f) ++ nl)
                | None => pure tt
                end) w = Done tt w1).
  { destruct frame; reflexivity. }
  rewrite E1.
  assert (L1 : Encode.log w1 = Encode.log w).
  { subst w1. destruct frame; reflexivity. }
  unfold bind at 1. unfold Encode.call at 1.
  destruct (avcodec_send_frame frame (Encode.lib w1)) as [ret l']. cbn [fst snd].
  unfold bind at 1. cbn [Encode.note modify].
  assert (H : sent_frames
                (Encode.log (Encode.set_log
                   (Encode.log (Encode.set_lib l' w1)
                    ++ [EvSendFrame (option_map pts frame) ret]) (Encode.set_lib l' w1)))
              = sent_frames (Encode.log w) ++ [option_map pts frame]).
  { encode_fields. rewrite sent_frames_app, L1. reflexivity. }
  destruct (ret <? 0).
  - unfold bind at 1. cbn [Encode.eprintf modify exit final]. exact H.
  - exact (encode_drain_sent _ fuel ret _ H).
Qed.

(** The picture loop submits its pictures in the order of the loop; when
    it is cut short, the pictures submitted are the first ones. *)
Lemma encode_frames_loop_sent (fuel : nat) (c : AVCodecContext) (values : list Z) :
  forall frame w,
    exists k,
      sent_frames (Encode.log (final (Encode.frames_loop fuel c frame values w)))
      = sent_frames (Encode.log w) ++ map Some (firstn k values)
      /\ (forall w', Encode.frames_loop fuel c frame values w = Done tt w' ->
            firstn k values = values).
Proof.
  induction values as [|i rest IH]; intros frame w; cbn [Encode.frames_loop].
  - exists O. cbn. rewrite app_nil_r. split; [reflexivity|]. intros; reflexivity.
  - rewrite bind_run.
    pose proof (encode_sent fuel (Some (Encode.set_pts i (Encode.dummy_image c i frame))) w)
      as H.
    cbn [option_map Encode.set_pts pts] in H.
    destruct (Encode.encode fuel _ w) as [[] w1|code w1|w1|w1]; cbn [final] in H.
    + destruct (IH (Encode.set_pts i (Encode.dummy_image c i frame)) w1) as [k [Hk Hd]].
      exists (S k). cbn [firstn map]. split.
      * rewrite Hk, H, <- app_assoc. reflexivity.
      * intros w' E. rewrite (Hd w' E). reflexivity.
    + exists 1%nat. cbn [final firstn map]. split; [exact H|discriminate].
    + exists 1%nat. cbn [final firstn map]. split; [exact H|discriminate].
    + exists 1%nat. cbn [final firstn map]. split; [exact H|discriminate].
Qed.

Lemma encode_pump_sent (fuel : nat) (c : AVCodecContext) (frame : AVFrame)
  (w : Encode.world) :
  let o := Encode.pump fuel c frame w in
  (exists rest,
     sent_frames (Encode.log w) ++ map Some (upto 25) ++ [None]
     = sent_frames (Encode.log (final o)) ++ rest)
  /\ (forall v w', o = Done v w' ->
        sent_frames (Encode.log w')
        = sent_frames (Encode.log w) ++ map Some (upto 25) ++ [None]).
Proof.
  cbv zeta. unfold Encode.pump. rewrite bind_run.
  destruct (encode_frames_loop_sent fuel c (upto 25) frame w) as [k [Hk Hd]].
  assert (Hcut : forall w1,
            sent_frames (Encode.log w1)
            = sent_frames (Encode.log w) ++ map Some (firstn k (upto 25)) ->
            exists rest,
              sent_frames (Encode.log w) ++ map Some (upto 25) ++ [None]
              = sent_frames (Encode.log w1) ++ rest).
  { intros w1 H. exists (map Some (skipn k (upto 25)) ++ [None]).
    rewrite H, <- app_assoc. f_equal. rewrite app_assoc, <- map_app, firstn_skipn.
    reflexivity. }
  destruct (Encode.frames_loop fuel c frame (upto 25) w) as [[] w1|code w1|w1|w1];
    cbn [final] in Hk;
    try (split; [apply Hcut; exact Hk|discriminate]).
  rewrite (Hd w1 eq_refl) in Hk.
  pose proof (encode_sent fuel None w1) as H. cbn [option_map] in H.
  rewrite Hk, <- app_assoc in H.
  rewrite bind_run.
  destruct (Encode.encode fuel None w1) as [[] w2|code w2|w2|w2]; cbn [final] in H;
    try (split; [exists []; rewrite app_nil_r; symmetry; exact H|discriminate]).
  rewrite bind_run. cbn [Encode.fwrite modify pure final].
  encode_fields. split.
  - exists []. rewrite app_nil_r. symmetry. exact H.
  - intros v w' E. injection E as _ <-. encode_fields. exact H.
Qed.

(** X5.  [video_encode.cpp] submits the pictures with [pts] 0, 1, ..., 24,
    in this order, and then the NULL frame: in any run, cut off anywhere,
    the frames submitted so far are a prefix of that sequence, and when
    the program returns they are the whole sequence. *)
Theorem frames_sent_in_order (fuel : nat) (argv : list string) (l : Lib) :
  let o := Encode.main fuel argv (Encode.start l) in
  (exists rest,
     map Some (upto 25) ++ [None] = sent_frames (Encode.log (final o)) ++ rest)
  /\ (forall v w, o = Done v w ->
        sent_frames (Encode.log w) = map Some (upto 25) ++ [None]).
Proof.
  cbv zeta.
  destruct (encode_main_cases fuel argv (Encode.start l))
    as [[_ E] | [[_ [w' [E [_ [Hl _]]]]] | [_ [c [frame [w1 [E [_ [Hl _]]]]]]]]];
    rewrite E.
  - split; [eexists; reflexivity|discriminate].
  - cbn [final]. rewrite Hl. split; [eexists; reflexivity|discriminate].
  - pose proof (encode_pump_sent fuel c frame w1) as H. cbv zeta in H.
    rewrite Hl in H. exact H.
Qed.

End EncodeOrder.

(** ** The output file of the encoder in a run that does not return *)
Section EncodeUnfinished.
Context {av : Libav}.

(** X19.  In a run of [video_encode.cpp] that does not reach its
    [return 0] (it called [exit], or was cut off), the output file holds
    exactly the bytes of the packets received so far, in the order of
    retrieval: nothing else was written, and the end code is not there. *)
Theorem unfinished_file_holds_packets (fuel : nat) (argv : list string) (l : Lib) :
  let o := Encode.main fuel argv (Encode.start l) in
  (forall v w, o <> Done v w) ->
  Encode.outfile (final o) = packets_bytes (Encode.log (final o)).
Proof.
  cbv zeta.
  destruct (encode_main_cases fuel argv (Encode.start l))
    as [[_ E] | [[_ [w' [E [Ho [Hl _]]]]] | [_ [c [frame [w1 [E [Ho [Hl _]]]]]]]]];
    rewrite E; intros Hnot.
  - reflexivity.
  - cbn [final]. rewrite Ho, Hl. reflexivity.
  - assert (H1 : file_follows_log w1).
    { unfold file_follows_log. rewrite Ho, Hl. reflexivity. }
    revert Hnot. unfold Encode.pump. rewrite bind_run.
    pose proof (encode_frames_loop_file fuel c (upto 25) frame w1 H1) as H2.
    destruct (Encode.frames_loop fuel c frame (upto 25) w1) as [[] w2| | |];
      cbn [final] in H2; try (intros _; exact H2).
    rewrite bind_run.
    pose proof (encode_file fuel None w2 H2) as H3.
    destruct (Encode.encode fuel None w2) as [[] w3| | |];
      cbn [final] in H3; try (intros _; exact H3).
    rewrite bind_run. cbn [Encode.fwrite modify pure].
    intros Hnot. exfalso. exact (Hnot _ _ eq_refl).
Qed.

End EncodeUnfinished.

(** The toy encoder, cut off after its first packet. *)
Lemma unfinished_file_holds_packets_witness :
  let o := @Encode.main Toy.lib 1 ["encode"; "out"; "toy"]
             (@Encode.start Toy.lib (Toy.fresh 0 [] [])) in
  (forall v w, o <> Done v w)
  /\ Encode.outfile (final o) = [0; 7]
  /\ Encode.outfile (final o) = @packets_bytes Toy.lib (Encode.log (final o)).
Proof.
  cbv zeta.
  assert (Hb : match @Encode.main Toy.lib 1 ["encode"; "out"; "toy"]
                       (@Encode.start Toy.lib (Toy.fresh 0 [] [])) with
               | OutOfFuel w => match Encode.outfile w with
                                | [a; b] => (a =? 0) && (b =? 7)
                                | _ => false
                                end
               | _ => false
               end = true).
  { vm_compute. reflexivity. }
  pose proof (@unfinished_file_holds_packets Toy.lib 1 ["encode"; "out"; "toy"]
                (Toy.fresh 0 [] [])) as T.
  cbv zeta in T.
  destruct (@Encode.main Toy.lib 1 ["encode"; "out"; "toy"]
              (@Encode.start Toy.lib (Toy.fresh 0 [] []))) as [| |w|w];
    try discriminate Hb.
  assert (Hnot : forall (v : Z) (w' : Encode.world), OutOfFuel w <> Done v w')
    by (intros; discriminate).
  split; [exact Hnot|]. split; [|exact (T Hnot)].
  cbn [final].
  destruct (Encode.outfile w) as [|a [|b [|c rest]]]; try discriminate Hb.
  apply andb_prop in Hb. destruct Hb as [Ha Hb].
  apply Z.eqb_eq in Ha, Hb. subst. reflexivity.
Defined.

(** ** The input file of the decoder *)
Section DecodeInput.
Context {av : Libav}.

(** [main] stops during set-up, the log still empty, or opens the input
    file and goes on as [pump] over its content. *)
Lemma decode_main_opens (fuel : nat) (argv : list string) (w : Decode.world) :
  (exists code w', Decode.main fuel argv w = Exit code w'
                   /\ Decode.log w' = Decode.log w
                   /\ Decode.saved w' = Decode.saved w)
  \/ (exists content l1,
        input_content argv (Decode.lib w) = Some content
        /\ Decode.main fuel argv w
           = Decode.pump fuel (nth 2 argv "")
               (Decode.set_inbuf Decode.inbuf_init
                  (Decode.set_file content false (Decode.set_lib l1 w)))).
Proof.
  set (P := fun o : outcome Decode.world Z =>
    (exists code w', o = Exit code w'
                   /\ Decode.log w' = Decode.log w
                   /\ Decode.saved w' = Decode.saved w)
    \/ (exists content l1,
        input_content argv (Decode.lib w) = Some content
        /\ o = Decode.pump fuel (nth 2 argv "")
               (Decode.set_inbuf Decode.inbuf_init
                  (Decode.set_file content false (Decode.set_lib l1 w))))).
  change (P (Decode.main fuel argv w)).
  assert (die : forall code w', Decode.log w' = Decode.log w ->
            Decode.saved w' = Decode.saved w -> P (Exit code w')).
  { intros code w' Hl Hs. left. exists code, w'. auto. }
  unfold Decode.main.
  destruct (Z.of_nat (List.length argv) <=? 3).
  { apply die; reflexivity. }
  unfold input_content, before_fopen in P. cbv zeta in P.
  unfold bind at 1. unfold Decode.call at 1.
  destruct (fst (avcodec_find_decoder_by_name (nth 3 argv "") (Decode.lib w)));
    unfold bind at 1; cbn [negb when bind Decode.eprintf modify exit pure];
    [|apply die; reflexivity].
  unfold bind at 1. unfold Decode.call at 1. decode_fields.
  destruct (fst (av_parser_init _));
    unfold bind at 1; cbn [negb when bind Decode.eprintf modify exit pure];
    [|apply die; reflexivity].
  unfold bind at 1. unfold Decode.call at 1. decode_fields.
  destruct (fst (avcodec_alloc_context3 _));
    unfold bind at 1; cbn [negb when bind Decode.eprintf modify exit pure];
    [|apply die; reflexivity].
  unfold bind at 1. unfold Decode.call at 1. decode_fields.
  destruct (fst (av_frame_alloc _));
    unfold bind at 1; cbn [negb when bind Decode.eprintf modify exit pure];
    [|apply die; reflexivity].
  unfold bind at 1. unfold Decode.call at 1. decode_fields.
  destruct (fst (av_packet_alloc _));
    unfold bind at 1; cbn [negb when bind Decode.eprintf modify exit pure];
    [|apply die; reflexivity].
  unfold bind at 1. unfold Decode.call at 1. decode_fields.
  destruct (fst (avcodec_open2 None _) <? 0);
    unfold bind at 1; cbn [when bind Decode.eprintf modify exit pure];
    [apply die; reflexivity|].
  unfold bind at 1. unfold Decode.call at 1. decode_fields.
  destruct (fst (fopen_read (nth 1 argv "") _)) as [content|] eqn:Eopen;
    [|apply die; reflexivity].
  unfold bind at 1. cbn [modify]. unfold bind at 1. cbn [modify].
  right. eexists content, _. split; reflexivity.
Qed.

Lemma reading_set_cursor (content : list byte) (c : Z) (w : Decode.world) :
  reading content w -> reading content (Decode.set_cursor c w).
Proof. intros [H1 [H2 H3]]. split; [exact H1|]. split; [exact H2|exact H3]. Qed.

(** The account of the file is kept by [decode], by a read and by a parse
    call. *)
Lemma reading_decode (content : list byte) (fuel : nat) (pkt : option AVPacket)
  (filename : string) :
  invariant (reading content) (Decode.decode fuel pkt filename).
Proof.
  apply decode_keeps; try (intros ? ? H; exact H).
  - intros p r w [H1 [H2 H3]]. unfold reading. decode_fields.
    rewrite read_so_far_app. cbn. rewrite app_nil_r. auto.
  - intros r f c w [H1 [H2 H3]]. unfold reading. decode_fields.
    rewrite read_so_far_app. cbn. rewrite app_nil_r. auto.
Qed.

Lemma reading_read (content : list byte) (w : Decode.world) :
  reading content w -> Decode.data_size w = 0 ->
  let n := Z.of_nat (List.length (Decode.next_chunk Decode.INBUF_SIZE w)) in
  let w1 := Decode.after_fread Decode.INBUF_SIZE w in
  (n = 0 -> reading content (Decode.set_data_size n w1))
  /\ (n <> 0 -> reading content (Decode.set_cursor 0 (Decode.set_data_size n w1))).
Proof.
  intros [H1 [H2 H3]] H0. cbv zeta.
  assert (Hr : forall d,
            0 <= d ->
            reading content (Decode.set_data_size d (Decode.after_fread Decode.INBUF_SIZE w))).
  { intros d Hd. unfold reading, Decode.after_fread, Decode.next_chunk. decode_fields.
    split; [exact Hd|]. split.
    - rewrite read_so_far_app. cbn. rewrite app_nil_r, <- app_assoc, firstn_skipn.
      exact H2.
    - intros He. apply orb_prop in He. destruct He as [He|He].
      + rewrite (H3 He). apply skipn_nil.
      + apply Z.ltb_lt in He. apply skipn_all2.
        revert He. generalize Decode.INBUF_SIZE. intros n He. lia. }
  split; intros _; [|apply reading_set_cursor]; apply Hr; apply Nat2Z.is_nonneg.
Qed.

Lemma reading_parse (content : list byte) (w : Decode.world) (ret : Z)
  (poutbuf : option (list byte)) (poutbuf_size : Z) (l' : Lib) :
  reading content w -> 0 < Decode.data_size w ->
  av_parser_parse2 (Decode.window w) (to_int (Decode.data_size w)) (Decode.lib w)
  = (ret, poutbuf, poutbuf_size, l') ->
  let w1 := Decode.set_log
              (Decode.log w
               ++ [EvParse (Decode.inbuf w) (Decode.cursor w)
                     (to_int (Decode.data_size w)) ret poutbuf_size])
              (Decode.set_lib l' w) in
  (ret < 0 ->
   reading content
     (Decode.set_stderr (Decode.stderr w ++ ["Error while parsing" ++ nl]%string) w1))
  /\ (0 <= ret ->
      reading content
        (Decode.set_cursor (Decode.cursor w + ret)
           (Decode.set_data_size (to_size_t (Decode.data_size w - ret)) w1))).
Proof.
  intros [H1 [H2 H3]] Hpos E. cbv zeta.
  split; intros _; unfold reading; decode_fields;
    rewrite read_so_far_app; cbn; rewrite app_nil_r.
  - auto.
  - split; [|auto]. unfold to_size_t. apply Z.mod_pos_bound. lia.
Qed.

(** The read loop keeps account of the file. *)
Lemma read_loop_reading (content : list byte) (outfilename : string) (fuel : nat) :
  triple (fun w => reading content w /\ Decode.data_size w = 0)
    (Decode.read_loop fuel outfilename)
    (fun _ w => reading content w /\ Decode.data_size w = 0) (reading content).
Proof.
  apply read_loop_buffer.
  - intros w [H _]. exact H.
  - apply reading_decode.
  - apply reading_read.
  - apply reading_parse.
Qed.

Lemma pump_reading (content : list byte) (outfilename : string) (fuel : nat) :
  triple (fun w => reading content w /\ Decode.data_size w = 0)
    (Decode.pump fuel outfilename)
    (fun _ w => reading content w /\ Decode.data_size w = 0) (reading content).
Proof.
  apply pump_buffer.
  - intros w [H _]. exact H.
  - apply reading_decode.
  - apply reading_read.
  - apply reading_parse.
Qed.

(** The read loop returns at the end of the file only. *)
Lemma read_loop_done (outfilename : string) (fuel : nat) :
  forall w w', Decode.read_loop fuel outfilename w = Done tt w' ->
    Decode.fin_eof w' = true \/ Decode.fin w' = [].
Proof.
  induction fuel as [|fuel IH]; intros w w'; cbn [Decode.read_loop];
    unfold bind at 1; cbn [gets]; destruct (Decode.fin_eof w) eqn:Heof;
    try discriminate.
  - intros E. injection E as <-. left. exact Heof.
  - intros E. injection E as <-. left. exact Heof.
  - unfold bind at 1. unfold Decode.fread.
    unfold bind at 1. cbn [modify].
    destruct (Z.of_nat (List.length (Decode.next_chunk Decode.INBUF_SIZE w)) =? 0) eqn:Hn.
    + intros E. injection E as <-. right.
      apply Z.eqb_eq in Hn. unfold Decode.after_fread. decode_fields.
      unfold Decode.next_chunk in Hn. rewrite length_firstn in Hn.
      assert (Hlen : List.length (Decode.fin w) = O).
      { unfold Decode.INBUF_SIZE in Hn. lia. }
      apply length_zero_iff_nil in Hlen. rewrite Hlen. apply skipn_nil.
    + unfold bind at 1. cbn [modify]. unfold bind at 1.
      destruct (Decode.parse_chunk fuel outfilename _) as [[] w2| | |]; try discriminate.
      apply IH.
Qed.

Lemma pump_done (content : list byte) (outfilename : string) (fuel : nat)
  (w w' : Decode.world) (v : Z) :
  reading content w -> Decode.data_size w = 0 ->
  Decode.pump fuel outfilename w = Done v w' ->
  read_so_far (Decode.log w') = content /\ Decode.fin w' = [].
Proof.
  intros Hw H0 Hrun.
  pose proof (pump_reading content outfilename fuel w (conj Hw H0)) as H.
  rewrite Hrun in H. destruct H as [[_ [H2 _]] _].
  assert (Hfin : Decode.fin w' = []).
  { unfold Decode.pump in Hrun. unfold bind at 1 in Hrun.
    pose proof (read_loop_reading content outfilename fuel w (conj Hw H0)) as Hloop.
    pose proof (read_loop_done outfilename fuel w) as Hdone.
    destruct (Decode.read_loop fuel outfilename w) as [[] w1| | |];
      try discriminate Hrun.
    specialize (Hdone w1 eq_refl).
    destruct Hloop as [[_ [_ Heof]] _].
    assert (Hfin1 : Decode.fin w1 = []).
    { destruct Hdone as [Hd|Hd]; [exact (Heof Hd)|exact Hd]. }
    unfold bind at 1 in Hrun.
    assert (Hkeep : Decode.fin (final (Decode.decode fuel None outfilename w1)) = []).
    { refine (decode_keeps (fun w => Decode.fin w = []) _ _ _ _ _ _
                fuel None outfilename w1 Hfin1); intros; assumption. }
    destruct (Decode.decode fuel None outfilename w1) as [[] w2| | |];
      try discriminate Hrun.
    cbn [final] in Hkeep. unfold pure in Hrun. injection Hrun as _ <-.
    exact Hkeep. }
  rewrite Hfin, app_nil_r in H2. split; assumption.
Qed.

(** With nothing in the file, [main] reads once, does not call the parser
    and submits nothing but the flush. *)
Lemma pump_empty (outfilename : string) (fuel : nat) (w : Decode.world) :
  Decode.fin w = [] -> Decode.fin_eof w = false ->
  Forall not_parse (Decode.log w) -> submitted (Decode.log w) = [] ->
  let w' := final (Decode.pump fuel outfilename w) in
  Forall not_parse (Decode.log w') /\ submitted (Decode.log w') = [].
Proof.
  intros Hfin Heof Hp Hs. cbv zeta.
  set (J := fun w : Decode.world =>
              Forall not_parse (Decode.log w) /\ submitted (Decode.log w) = []).
  change (J (final (Decode.pump fuel outfilename w))).
  assert (Hw : J w) by (split; assumption).
  destruct fuel as [|fuel].
  - unfold Decode.pump, bind. cbn [Decode.read_loop]. unfold bind. cbn [gets].
    rewrite Heof. exact Hw.
  - unfold Decode.pump. rewrite bind_run. cbn [Decode.read_loop].
    rewrite bind_run. cbn [gets]. rewrite Heof.
    rewrite bind_run. unfold Decode.fread.
    rewrite bind_run. cbn [modify].
    assert (Hn : Decode.next_chunk Decode.INBUF_SIZE w = []).
    { unfold Decode.next_chunk. rewrite Hfin. apply firstn_nil. }
    rewrite Hn. cbn [List.length Z.of_nat Z.eqb pure].
    assert (H1 : J (Decode.set_data_size 0 (Decode.after_fread Decode.INBUF_SIZE w))).
    { unfold J, Decode.after_fread. decode_fields. rewrite Hn. split.
      - apply Forall_snoc; [exact Hp|exact I].
      - rewrite submitted_app, Hs. reflexivity. }
    rewrite bind_run.
    assert (H2 : invariant J (Decode.decode (S fuel) None outfilename)).
    { apply invariant_final_triple.
      apply (decode_log (fun _ log => Forall not_parse log /\ submitted log = [])
                        (fun _ log => Forall not_parse log /\ submitted log = [])
                        (fun e => match e with
                                  | EvReceiveFrame _ _ _ | EvSendPacket None _ => true
                                  | _ => false
                                  end) outfilename).
      - auto.
      - intros s log e He [Ha Hb]. split.
        + apply Forall_snoc; [exact Ha|]. destruct e; try discriminate He; exact I.
        + rewrite submitted_app, Hb.
          destruct e as [| |[p|] r| | | | | | |]; try discriminate He; reflexivity.
      - intros fuel' ret. apply invariant_triple.
        apply (drain_keeps J); try (intros ? ? H; exact H).
        intros r f c w0 [Ha Hb]. unfold J. decode_fields. split.
        + apply Forall_snoc; [exact Ha|exact I].
        + rewrite submitted_app, Hb. reflexivity.
      - reflexivity. }
    specialize (H2 _ H1).
    destruct (Decode.decode (S fuel) None outfilename _) as [[] w2| | |];
      cbn [final] in H2; exact H2.
Qed.

(** X6.  [video_decode.cpp] reads its input file from the start, in order
    and without a gap: at every point of a run the bytes delivered by
    [fread] so far are a prefix of the content of the file.  The read
    loop ends at the end of the file only: when the program returns, the
    bytes read are the whole content, and, when the parser keeps its
    contract, they are also the bytes the parser has used, call after
    call. *)
Theorem input_file_read_whole (fuel : nat) (argv : list string) (l : Lib)
  (content : list byte) :
  input_content argv l = Some content ->
  let o := Decode.main fuel argv (Decode.start l) in
  (exists rest, content = read_so_far (Decode.log (final o)) ++ rest)
  /\ (forall v w, o = Done v w ->
        read_so_far (Decode.log w) = content
        /\ Decode.fin w = []
        /\ (parser_contract -> consumed (Decode.log w) = content)).
Proof.
  intros Hopen. cbv zeta.
  destruct (decode_main_opens fuel argv (Decode.start l))
    as [[code [w' [E [Hl _]]]] | [content' [l1 [Hc E]]]]; rewrite E.
  - cbn [final]. rewrite Hl. split; [exists content; reflexivity|discriminate].
  - cbn [Decode.start Decode.lib] in Hc. rewrite Hopen in Hc.
    injection Hc as <-.
    set (w1 := Decode.set_inbuf Decode.inbuf_init
                 (Decode.set_file content false (Decode.set_lib l1 (Decode.start l)))).
    assert (H1 : reading content w1 /\ Decode.data_size w1 = 0).
    { unfold reading. cbn. repeat split; [lia|discriminate]. }
    split.
    + assert (Hf : reading content (final (Decode.pump fuel (nth 2 argv "") w1))).
      { refine (@triple_final _ (reading content) _ _ _ _ _
                  (pump_reading content (nth 2 argv "") fuel) _ H1).
        intros _ w' [H _]. exact H. }
      destruct Hf as [_ [Hf _]]. eexists. symmetry. exact Hf.
    + intros v w Hrun.
      destruct (pump_done content (nth 2 argv "") fuel w1 w v (proj1 H1) (proj2 H1) Hrun)
        as [Hr Hfin].
      split; [exact Hr|]. split; [exact Hfin|].
      intros contract.
      destruct (pump_start content l1 l) as [_ Hs]. cbv zeta in Hs.
      pose proof (pump_conserving contract (nth 2 argv "") fuel _ Hs) as H.
      fold w1 in H. rewrite Hrun in H.
      destruct H as [[_ [_ [_ [_ [H5 _]]]]] H0].
      unfold pending in H5. rewrite H0 in H5. cbn [Z.to_nat firstn] in H5.
      rewrite app_nil_r in H5. rewrite H5. exact Hr.
Qed.

(** X7.  On an input file without a byte the parser is never called and
    no packet is submitted: the one read finds nothing, and the only
    submission is the flush. *)
Theorem empty_input_only_flushes (fuel : nat) (argv : list string) (l : Lib) :
  input_content argv l = Some [] ->
  let w := final (Decode.main fuel argv (Decode.start l)) in
  Forall not_parse (Decode.log w) /\ submitted (Decode.log w) = [].
Proof.
  intros Hopen. cbv zeta.
  destruct (decode_main_opens fuel argv (Decode.start l))
    as [[code [w' [E [Hl _]]]] | [content' [l1 [Hc E]]]]; rewrite E.
  - cbn [final]. rewrite Hl. split; [constructor|reflexivity].
  - cbn [Decode.start Decode.lib] in Hc. rewrite Hopen in Hc.
    injection Hc as <-.
    apply pump_empty; try reflexivity. constructor.
Qed.

End DecodeInput.

(** Seven bytes through the parser of the toy library. *)
Lemma input_file_read_whole_witness :
  @input_content Toy.lib ["decode"; "in"; "out"; "toy"] (Toy.fresh 1 [1; 2; 3; 4; 5; 6; 7] [])
  = Some [1; 2; 3; 4; 5; 6; 7]
  /\ exists w,
       @Decode.main Toy.lib 20 ["decode"; "in"; "out"; "toy"]
         (Toy.decoding 1 [1; 2; 3; 4; 5; 6; 7]) = Done 0 w
       /\ read_so_far (Decode.log w) = [1; 2; 3; 4; 5; 6; 7]
       /\ Decode.fin w = []
       /\ consumed (Decode.log w) = [1; 2; 3; 4; 5; 6; 7].
Proof.
  split; [reflexivity|].
  remember (@Decode.main Toy.lib 20 ["decode"; "in"; "out"; "toy"]
              (Toy.decoding 1 [1; 2; 3; 4; 5; 6; 7])) as o eqn:Ho.
  assert (Hd : match o with Done v _ => v =? 0 | _ => false end = true).
  { subst o. vm_compute. reflexivity. }
  destruct o as [v w| | |]; try discriminate Hd.
  apply Z.eqb_eq in Hd. subst v. exists w. split; [reflexivity|].
  destruct (@input_file_read_whole Toy.lib 20 ["decode"; "in"; "out"; "toy"]
              (Toy.fresh 1 [1; 2; 3; 4; 5; 6; 7] []) [1; 2; 3; 4; 5; 6; 7] eq_refl)
    as [_ H].
  destruct (H 0 w (eq_sym Ho)) as [H1 [H2 H3]].
  split; [exact H1|]. split; [exact H2|]. exact (H3 toy_parser_contract).
Defined.

(** An empty file on the toy library. *)
Lemma empty_input_only_flushes_witness :
  @input_content Toy.lib ["decode"; "in"; "out"; "toy"] (Toy.fresh 1 [] []) = Some []
  /\ let w := final (@Decode.main Toy.lib 20 ["decode"; "in"; "out"; "toy"]
                       (Toy.decoding 1 [])) in
     Forall not_parse (Decode.log w) /\ submitted (Decode.log w) = [].
Proof.
  split; [reflexivity|].
  exact (@empty_input_only_flushes Toy.lib 20 ["decode"; "in"; "out"; "toy"]
           (Toy.fresh 1 [] []) eq_refl).
Defined.

(** ** The files of the decoder are complete pictures *)
Section ArtifactsProofs.
Context {av : Libav}.

Hypothesis sized : sized_frames.

Lemma pgm_bytes_image (buf : Z -> byte) (wrap xsize ysize : Z) :
  0 <= xsize -> 0 <= ysize -> pgm_image (Decode.pgm_bytes buf wrap xsize ysize).
Proof.
  intros Hx Hy. exists xsize, ysize,
    (flat_map (fun i => map (fun x => buf (i * wrap + x)) (upto xsize)) (upto ysize)).
  split; [exact Hx|]. split; [exact Hy|]. split; [reflexivity|].
  rewrite (rows_length (fun i x => buf (i * wrap + x))), upto_length. lia.
Qed.

Lemma drain_saves_images (filename : string) (fuel : nat) :
  forall ret,
    invariant (fun w => Forall (fun f => pgm_image (snd f)) (Decode.saved w))
      (Decode.drain fuel filename ret).
Proof.
  induction fuel as [|fuel IH]; intros ret w Hw.
  - cbn [Decode.drain]. destruct (ret <? 0); exact Hw.
  - destruct (ret <? 0) eqn:Hret.
    { cbn [Decode.drain]. rewrite Hret. exact Hw. }
    apply Z.ltb_ge in Hret.
    pose proof (decode_drain_round fuel filename ret w Hret) as Rd.
    pose proof (sized (Decode.lib w)) as [Hwidth Hheight].
    destruct (avcodec_receive_frame (Decode.lib w)) as [[r frame] l'].
    cbn [fst snd] in Hwidth, Hheight.
    cbv zeta in Rd. rewrite Rd. clear Rd.
    destruct (stops r); [exact Hw|]. destruct (r <? 0); [exact Hw|].
    unfold bind at 1. cbn [Decode.printf modify].
    unfold bind at 1. unfold Decode.pgm_save.
    unfold bind at 1. unfold Decode.call at 1. decode_fields.
    destruct (fst (fopen_write _ l')); cbn [negb fault modify final]; [|exact Hw].
    apply IH. decode_fields. apply Forall_snoc; [exact Hw|].
    apply pgm_bytes_image; assumption.
Qed.

Lemma pump_saves_images (outfilename : string) (fuel : nat) :
  invariant (fun w => Forall (fun f => pgm_image (snd f)) (Decode.saved w))
    (Decode.pump fuel outfilename).
Proof.
  set (R := fun (s : list (string * list byte)) (_ : list event) =>
              Forall (fun f => pgm_image (snd f)) s).
  assert (Hd : forall fuel' ret,
            triple (fun w => R (Decode.saved w) (Decode.log w))
              (Decode.drain fuel' outfilename ret)
              (fun _ w => R (Decode.saved w) (Decode.log w))
              (fun w => R (Decode.saved w) (Decode.log w))).
  { intros fuel' ret. apply invariant_triple. apply drain_saves_images. }
  apply invariant_final_triple. unfold Decode.pump.
  apply triple_seq.
  { apply (read_loop_log R R (fun _ => true) outfilename); auto. }
  intros _. apply triple_seq.
  { apply (decode_log R R (fun _ => true) outfilename); auto. }
  intros _. apply triple_pure. auto.
Qed.

End ArtifactsProofs.

Section Artifacts.
Context {av : Libav}.

(** X15.  When the frames that the decoder hands out have a width and a
    height, every file that [video_decode.cpp] has written, at any point
    of a run, is a complete PGM picture: the header of some width and
    height, followed by exactly one byte for each sample. *)
Theorem saved_files_are_pgm_images (fuel : nat) (argv : list string) (l : Lib) :
  sized_frames ->
  let w := final (Decode.main fuel argv (Decode.start l)) in
  Forall (fun f => pgm_image (snd f)) (Decode.saved w).
Proof.
  intros sized. cbv zeta.
  destruct (decode_main_opens fuel argv (Decode.start l))
    as [[code [w' [E [_ Hs]]]] | [content [l1 [_ E]]]]; rewrite E.
  - cbn [final]. rewrite Hs. constructor.
  - apply (pump_saves_images sized). constructor.
Qed.

End Artifacts.

(** The frames of the toy decoder are two samples wide and two high. *)
Lemma toy_sized_frames : @sized_frames Toy.lib.
Proof.
  intros l. cbn. unfold Toy.receive_frame. destruct (Toy.ready l); cbn; lia.
Qed.

(** Two files from the toy decoder. *)
Lemma saved_files_are_pgm_images_witness :
  let w := final (@Decode.main Toy.lib 20 ["decode"; "in"; "out"; "toy"]
                    (@Decode.start Toy.lib (Toy.fresh 0 [1; 2; 3; 4; 5; 6] []))) in
  @sized_frames Toy.lib
  /\ List.length (Decode.saved w) = 2%nat
  /\ Forall (fun f => pgm_image (snd f)) (Decode.saved w).
Proof.
  cbv zeta. split; [exact toy_sized_frames|]. split.
  - vm_compute. reflexivity.
  - exact (@saved_files_are_pgm_images Toy.lib 20 ["decode"; "in"; "out"; "toy"]
             (Toy.fresh 0 [1; 2; 3; 4; 5; 6] []) toy_sized_frames).
Defined.

(** ** The decoder works in lock step *)
Section LockStep.
Context {av : Libav}.

Lemma in_lock_step_snoc (log : list event) (e : event) :
  in_lock_step (log ++ [e]) = lock_step (in_lock_step log) e.
Proof. unfold in_lock_step. rewrite fold_left_app. reflexivity. Qed.

(** The pump stands at [s], or the run has ended in turn. *)
Let at_state (s : pump_state) (w : Decode.world) : Prop :=
  in_lock_step (Decode.log w) = Some s.
Let in_turn (w : Decode.world) : Prop := in_lock_step (Decode.log w) <> None.

Lemma at_state_in_turn (s : pump_state) (w : Decode.world) : at_state s w -> in_turn w.
Proof. unfold at_state, in_turn. intros H. rewrite H. discriminate. Qed.

Lemma at_state_set_cursor (s : pump_state) (c : Z) (w : Decode.world) :
  at_state s w -> at_state s (Decode.set_cursor c w).
Proof. intros H. exact H. Qed.

Lemma drain_lock_step (filename : string) (fuel : nat) :
  forall ret,
    0 <= ret ->
    triple (at_state Draining) (Decode.drain fuel filename ret)
      (fun _ => at_state Idle) in_turn.
Proof.
  induction fuel as [|fuel IH]; intros ret Hret w Hw.
  - cbn [Decode.drain]. apply Z.ltb_ge in Hret. rewrite Hret.
    exact (at_state_in_turn _ _ Hw).
  - pose proof (decode_drain_round fuel filename ret w Hret) as Rd.
    destruct (avcodec_receive_frame (Decode.lib w)) as [[r frame] l'].
    cbv zeta in Rd. rewrite Rd. clear Rd.
    assert (Hlog : in_lock_step
                     (Decode.log w ++ [EvReceiveFrame r (format frame) (frame_number l')])
                   = Some (if stops r then Idle
                           else if r <? 0 then Stopped else Draining)).
    { rewrite in_lock_step_snoc. unfold at_state in Hw. rewrite Hw. reflexivity. }
    destruct (stops r).
    + exact Hlog.
    + destruct (r <? 0) eqn:Hr.
      * unfold in_turn. decode_fields. rewrite Hlog. discriminate.
      * unfold bind at 1. cbn [Decode.printf modify].
        unfold bind at 1. unfold Decode.pgm_save.
        unfold bind at 1. unfold Decode.call at 1. decode_fields.
        destruct (fst (fopen_write _ l')); cbn [negb fault modify].
        -- apply IH; [apply Z.ltb_ge, Hr|exact Hlog].
        -- unfold in_turn. decode_fields. rewrite Hlog. discriminate.
Qed.

Lemma decode_lock_step (fuel : nat) (pkt : option AVPacket) (filename : string) :
  triple (at_state match pkt with Some p => Pending (pkt_size p) | None => Idle end)
    (Decode.decode fuel pkt filename) (fun _ => at_state Idle) in_turn.
Proof.
  intros w Hw. unfold Decode.decode.
  unfold bind at 1. unfold Decode.call at 1.
  unfold bind at 1. cbn [Decode.note modify]. decode_fields.
  set (ret := fst (avcodec_send_packet pkt (Decode.lib w))).
  assert (Hlog : in_lock_step (Decode.log w ++ [EvSendPacket pkt ret])
                 = Some (if ret <? 0 then Stopped else Draining)).
  { rewrite in_lock_step_snoc. unfold at_state in Hw. rewrite Hw.
    destruct pkt as [p|]; cbn [lock_step]; [rewrite Z.eqb_refl|]; reflexivity. }
  destruct (ret <? 0) eqn:Hret.
  - cbn. unfold in_turn. decode_fields. rewrite Hlog. discriminate.
  - apply drain_lock_step; [apply Z.ltb_ge, Hret|exact Hlog].
Qed.

Lemma parse_chunk_lock_step (outfilename : string) (fuel : nat) :
  triple (at_state Idle) (Decode.parse_chunk fuel outfilename)
    (fun _ => at_state Idle) in_turn.
Proof.
  induction fuel as [|fuel IH]; intros w Hw; cbn [Decode.parse_chunk];
    unfold bind at 1; cbn [gets]; destruct (Decode.data_size w >? 0).
  - exact (at_state_in_turn _ _ Hw).
  - exact Hw.
  - unfold bind at 1. cbn [gets].
    unfold bind at 1. unfold Decode.call at 1.
    destruct (av_parser_parse2 (Decode.window w) (to_int (Decode.data_size w))
                (Decode.lib w)) as [[[ret poutbuf] poutbuf_size] l'].
    cbn [fst snd]. unfold bind at 1. cbn [Decode.note modify]. decode_fields.
    assert (Hlog : in_lock_step
                     (Decode.log w
                      ++ [EvParse (Decode.inbuf w) (Decode.cursor w)
                            (to_int (Decode.data_size w)) ret poutbuf_size])
                   = Some (if ret <? 0 then Stopped
                           else if poutbuf_size =? 0 then Idle
                                else Pending poutbuf_size)).
    { rewrite in_lock_step_snoc. unfold at_state in Hw. rewrite Hw. reflexivity. }
    destruct (ret <? 0).
    + cbn. unfold in_turn. decode_fields. rewrite Hlog. discriminate.
    + unfold bind at 1. cbn [modify]. decode_fields.
      unfold bind at 1.
      destruct (poutbuf_size =? 0); cbn [negb when pure].
      * apply IH. exact Hlog.
      * match goal with |- context [Decode.decode fuel ?pkt outfilename ?w1] =>
          pose proof (decode_lock_step fuel pkt outfilename w1 Hlog) as Hd;
          destruct (Decode.decode fuel pkt outfilename w1) as [[] w2| | |];
          try exact Hd
        end.
        apply IH. exact Hd.
  - exact Hw.
Qed.

Lemma read_loop_lock_step (outfilename : string) (fuel : nat) :
  triple (at_state Idle) (Decode.read_loop fuel outfilename)
    (fun _ => at_state Idle) in_turn.
Proof.
  induction fuel as [|fuel IH]; intros w Hw; cbn [Decode.read_loop];
    unfold bind at 1; cbn [gets]; destruct (Decode.fin_eof w).
  - exact Hw.
  - exact (at_state_in_turn _ _ Hw).
  - exact Hw.
  - unfold bind at 1. unfold Decode.fread.
    unfold bind at 1. cbn [modify].
    assert (H1 : forall d,
              at_state Idle
                (Decode.set_data_size d (Decode.after_fread Decode.INBUF_SIZE w))).
    { intros d. unfold at_state, Decode.after_fread. decode_fields.
      rewrite in_lock_step_snoc. unfold at_state in Hw. rewrite Hw. reflexivity. }
    destruct (_ =? 0).
    + apply H1.
    + unfold bind at 1. cbn [modify]. unfold bind at 1.
      match goal with |- context [Decode.parse_chunk fuel outfilename ?w1] =>
        pose proof (parse_chunk_lock_step outfilename fuel w1
                      (at_state_set_cursor Idle 0 _ (H1 _))) as Hp;
        destruct (Decode.parse_chunk fuel outfilename w1) as [[] w2| | |];
        try exact Hp
      end.
      apply IH. exact Hp.
Qed.

(** X18.  [video_decode.cpp] makes its calls in lock step, in any run, cut
    off anywhere.  A packet with a payload is submitted only as the next
    call after the parse call that put it out, with the size the parser
    reported, and an output of size zero is not submitted; the flush is
    the only other submission.  After a submission nothing is read or
    parsed until a retrieval has answered AVERROR(EAGAIN) or AVERROR_EOF;
    and after a call that failed no call follows at all.  When the
    program returns, nothing is pending. *)
Theorem decoder_in_lock_step (fuel : nat) (argv : list string) (l : Lib) :
  let o := Decode.main fuel argv (Decode.start l) in
  in_lock_step (Decode.log (final o)) <> None
  /\ (forall v w, o = Done v w -> in_lock_step (Decode.log w) = Some Idle).
Proof.
  cbv zeta.
  assert (Hpump : forall w1,
            at_state Idle w1 ->
            match Decode.pump fuel (nth 2 argv "") w1 with
            | Done _ w' => at_state Idle w'
            | Exit _ w' | Fault w' | OutOfFuel w' => in_turn w'
            end).
  { intros w1 H1. unfold Decode.pump. unfold bind at 1.
    pose proof (read_loop_lock_step (nth 2 argv "") fuel w1 H1) as H2.
    destruct (Decode.read_loop fuel (nth 2 argv "") w1) as [[] w2| | |]; try exact H2.
    unfold bind at 1.
    pose proof (decode_lock_step fuel None (nth 2 argv "") w2 H2) as H3.
    destruct (Decode.decode fuel None (nth 2 argv "") w2) as [[] w3| | |]; exact H3. }
  destruct (decode_main_opens fuel argv (Decode.start l))
    as [[code [w' [E [Hl _]]]] | [content [l1 [_ E]]]]; rewrite E.
  - cbn [final]. rewrite Hl. split; [discriminate|discriminate].
  - match goal with |- context [Decode.pump fuel _ ?w1] =>
      specialize (Hpump w1 eq_refl);
      destruct (Decode.pump fuel (nth 2 argv "") w1) as [v w2| | |] eqn:Hrun
    end; cbn [final].
    + split; [exact (at_state_in_turn _ _ Hpump)|].
      intros v' w' Ev. injection Ev as _ <-. exact Hpump.
    + split; [exact Hpump|discriminate].
    + split; [exact Hpump|discriminate].
    + split; [exact Hpump|discriminate].
Qed.

End LockStep.

(** ** The set-up of the hardware decoder *)
Section HwSetup.
Context {av : Libav}.

Lemma find_hw_config_fits (type : Z) (configs : list AVCodecHWConfig) :
  match HwDecode.find_hw_config configs type with
  | Some fmt => first_fit configs type fmt
  | None => Forall (fun c => fits type c = false) configs
  end.
Proof.
  induction configs as [|config rest IH]; cbn [HwDecode.find_hw_config].
  - constructor.
  - fold (fits type config). destruct (fits type config) eqn:E.
    + exists [], config, rest. split; [reflexivity|]. split; [constructor|].
      split; [exact E|reflexivity].
    + destruct (HwDecode.find_hw_config rest type) as [fmt|].
      * destruct IH as [before [c [after [E1 [E2 [E3 E4]]]]]].
        exists (config :: before), c, after. rewrite E1.
        split; [reflexivity|]. split; [constructor; assumption|]. split; assumption.
      * constructor; assumption.
Qed.

Lemma first_fit_unique (configs : list AVCodecHWConfig) (type fmt fmt' : Z) :
  first_fit configs type fmt -> first_fit configs type fmt' -> fmt = fmt'.
Proof.
  intros H H'. pose proof (find_hw_config_fits type configs) as F.
  assert (G : forall f, first_fit configs type f ->
                HwDecode.find_hw_config configs type = Some f).
  { clear. intros f [before [c [after [E1 [E2 [E3 E4]]]]]]. subst configs.
    induction E2 as [|c0 before Hc0 _ IH]; cbn [app HwDecode.find_hw_config].
    - fold (fits type c). rewrite E3, E4. reflexivity.
    - fold (fits type c0). rewrite Hc0. exact IH. }
  apply G in H. apply G in H'. congruence.
Qed.

(** X8.  The loop of [main] over the hardware configurations of the
    decoder selects the pixel format of the first configuration that
    works through a device context and is for the requested device type,
    whatever follows it in the list; it runs past the last configuration
    exactly when none fits. *)
Theorem hw_config_first_fit (configs : list AVCodecHWConfig) (type : Z) :
  (forall fmt, HwDecode.find_hw_config configs type = Some fmt
               <-> first_fit configs type fmt)
  /\ (HwDecode.find_hw_config configs type = None
      <-> Forall (fun c => fits type c = false) configs).
Proof.
  pose proof (find_hw_config_fits type configs) as F.
  split.
  - intros fmt. split.
    + intros E. rewrite E in F. exact F.
    + intros H. destruct (HwDecode.find_hw_config configs type) as [fmt'|].
      * f_equal. exact (first_fit_unique configs type fmt' fmt F H).
      * destruct H as [before [c [after [E1 [_ [E3 _]]]]]]. subst configs.
        apply Forall_app in F. destruct F as [_ F]. inversion F as [|? ? Hc _].
        rewrite E3 in Hc. discriminate Hc.
  - split.
    + intros E. rewrite E in F. exact F.
    + intros H. destruct (HwDecode.find_hw_config configs type) as [fmt'|];
        [|reflexivity].
      destruct F as [before [c [after [E1 [_ [E3 _]]]]]]. subst configs.
      apply Forall_app in H. destruct H as [_ H]. inversion H as [|? ? Hc _].
      rewrite E3 in Hc. discriminate Hc.
Qed.

(** [main] returns -1 before a format is negotiated; or returns -1 or
    AVERROR(ENOMEM) after the negotiation and before the output file is
    opened; or opens the output file, without testing the result, and
    goes on as [pump]. *)
Lemma hw_main_setup (fuel : nat) (argv : list string) (w : HwDecode.world) :
  let type := av_hwdevice_find_type_by_name (nth 1 argv "") in
  let l := HwDecode.lib w in
  (exists w', HwDecode.main fuel argv w = Done (-1) w'
              /\ Forall set_up (skipn (List.length (HwDecode.log w)) (HwDecode.log w'))
              /\ HwDecode.output_file w' = HwDecode.output_file w
              /\ HwDecode.hw_pix_fmt w' = HwDecode.hw_pix_fmt w)
  \/ (exists fmt,
        HwDecode.find_hw_config (decoder_configs argv l) type = Some fmt
        /\ ((exists v w', HwDecode.main fuel argv w = Done v w'
                          /\ Forall set_up (skipn (List.length (HwDecode.log w))
                                              (HwDecode.log w'))
                          /\ HwDecode.output_file w' = HwDecode.output_file w
                          /\ HwDecode.hw_pix_fmt w' = fmt)
            \/ (exists video_stream ret w1,
                  HwDecode.main fuel argv w = HwDecode.pump fuel video_stream ret w1
                  /\ HwDecode.hw_pix_fmt w1 = fmt
                  /\ HwDecode.output_file w1
                     = (if output_opens argv l then Some [] else None)))).
Proof.
  cbv zeta.
  set (P := fun o : outcome HwDecode.world Z =>
    (exists w', o = Done (-1) w'
              /\ Forall set_up (skipn (List.length (HwDecode.log w)) (HwDecode.log w'))
              /\ HwDecode.output_file w' = HwDecode.output_file w
              /\ HwDecode.hw_pix_fmt w' = HwDecode.hw_pix_fmt w)
    \/ (exists fmt,
        HwDecode.find_hw_config (decoder_configs argv (HwDecode.lib w))
          (av_hwdevice_find_type_by_name (nth 1 argv "")) = Some fmt
        /\ ((exists v w', o = Done v w'
                          /\ Forall set_up (skipn (List.length (HwDecode.log w))
                                              (HwDecode.log w'))
                          /\ HwDecode.output_file w' = HwDecode.output_file w
                          /\ HwDecode.hw_pix_fmt w' = fmt)
            \/ (exists video_stream ret w1,
                  o = HwDecode.pump fuel video_stream ret w1
                  /\ HwDecode.hw_pix_fmt w1 = fmt
                  /\ HwDecode.output_file w1
                     = (if output_opens argv (HwDecode.lib w) then Some [] else None))))).
  change (P (HwDecode.main fuel argv w)).
  assert (Hnil : Forall set_up (skipn (List.length (HwDecode.log w)) (HwDecode.log w))).
  { rewrite skipn_all. constructor. }
  assert (Hone : forall r,
            Forall set_up (skipn (List.length (HwDecode.log w))
                             (HwDecode.log w ++ [EvBestStream r]))).
  { intros r. rewrite skipn_app, skipn_all, Nat.sub_diag. cbn.
    constructor; [exact I|constructor]. }
  assert (early : forall w',
            Forall set_up (skipn (List.length (HwDecode.log w)) (HwDecode.log w')) ->
            HwDecode.output_file w' = HwDecode.output_file w ->
            HwDecode.hw_pix_fmt w' = HwDecode.hw_pix_fmt w -> P (Done (-1) w')).
  { intros w' Hl Ho Hf. left. exists w'. auto. }
  unfold HwDecode.main.
  destruct (Z.of_nat (List.length argv) <? 4).
  { apply early; [exact Hnil|reflexivity|reflexivity]. }
  destruct (av_hwdevice_find_type_by_name (nth 1 argv "") =? AV_HWDEVICE_TYPE_NONE).
  { unfold bind at 1. cbn [HwDecode.eprintf modify].
    unfold bind at 1. cbn [HwDecode.eprintf modify].
    unfold bind at 1.
    assert (T : forall types w0, exists w',
              HwDecode.list_types types w0 = Done tt w'
              /\ HwDecode.log w' = HwDecode.log w0
              /\ HwDecode.output_file w' = HwDecode.output_file w0
              /\ HwDecode.hw_pix_fmt w' = HwDecode.hw_pix_fmt w0).
    { induction types as [|t ts IH]; intros w0.
      - exists w0. repeat split.
      - cbn [HwDecode.list_types]. unfold bind at 1. cbn [HwDecode.eprintf modify].
        destruct (IH (HwDecode.set_stderr
                        (HwDecode.stderr w0 ++ [(" " ++ av_hwdevice_get_type_name t)%string])
                        w0)) as [w' [E [L [O F]]]].
        exists w'. split; [exact E|]. split; [exact L|]. split; [exact O|exact F]. }
    match goal with |- context [HwDecode.list_types ?ts ?w0] =>
      destruct (T ts w0) as [w' [E [L [O F]]]]; rewrite E
    end.
    unfold bind at 1. cbn [HwDecode.eprintf modify]. cbn [pure].
    apply early; hw_fields.
    - rewrite L. exact Hnil.
    - rewrite O. reflexivity.
    - rewrite F. reflexivity. }
  unfold decoder_configs, output_opens, hw_before_fopen, probed in P. cbv zeta in P.
  unfold bind at 1. unfold HwDecode.call at 1.
  destruct (negb (fst (avformat_open_input (nth 2 argv "") (HwDecode.lib w)) =? 0)).
  { apply early; [exact Hnil|reflexivity|reflexivity]. }
  unfold bind at 1. unfold HwDecode.call at 1. hw_fields.
  destruct (fst (avformat_find_stream_info _) <? 0).
  { apply early; [exact Hnil|reflexivity|reflexivity]. }
  unfold bind at 1. unfold HwDecode.call at 1. hw_fields.
  destruct (fst (av_find_best_stream _)) as [vs name] eqn:Ebest.
  unfold bind at 1. cbn [HwDecode.note modify]. hw_fields.
  destruct (vs <? 0).
  { apply early; [apply Hone|reflexivity|reflexivity]. }
  unfold bind at 1. cbn [gets]. hw_fields.
  cbn [fst] in P.
  destruct (HwDecode.find_hw_config (avcodec_hw_configs _) _) as [fmt|] eqn:Efind.
  2:{ apply early; [apply Hone|reflexivity|reflexivity]. }
  assert (late : forall v w',
            Forall set_up (skipn (List.length (HwDecode.log w)) (HwDecode.log w')) ->
            HwDecode.output_file w' = HwDecode.output_file w ->
            HwDecode.hw_pix_fmt w' = fmt -> P (Done v w')).
  { intros v w' Hl Ho Hf. right. exists fmt. split; [reflexivity|].
    left. exists v, w'. auto. }
  unfold bind at 1. cbn [modify].
  unfold bind at 1. unfold HwDecode.call at 1. hw_fields.
  destruct (negb (fst (avcodec_alloc_context3 _))).
  { apply late; [apply Hone|reflexivity|reflexivity]. }
  unfold bind at 1. unfold HwDecode.call at 1. hw_fields.
  destruct (fst (avcodec_parameters_to_context vs _) <? 0).
  { apply late; [apply Hone|reflexivity|reflexivity]. }
  unfold bind at 1. unfold HwDecode.hw_decoder_init.
  unfold bind at 1. unfold HwDecode.call at 1. hw_fields.
  destruct (fst (av_hwdevice_ctx_create _ _) <? 0) eqn:Hr6.
  { unfold bind at 1. cbn [HwDecode.eprintf modify pure]. rewrite Hr6.
    apply late; [apply Hone|reflexivity|reflexivity]. }
  cbn [pure]. rewrite Hr6.
  unfold bind at 1. unfold HwDecode.call at 1. hw_fields.
  destruct (fst (avcodec_open2 None _) <? 0).
  { apply late; [apply Hone|reflexivity|reflexivity]. }
  unfold bind at 1. unfold HwDecode.call at 1. hw_fields.
  unfold bind at 1. cbn [modify].
  right. exists fmt. split; [reflexivity|]. right.
  eexists vs, _, _. split; [reflexivity|]. hw_fields. split; reflexivity.
Qed.

End HwSetup.

(** ** What the read loop of the hardware decoder leaves alone *)
Section HwFrame.
Context {av : Libav}.
Variable I : HwDecode.world -> Prop.
Hypothesis I_lib : forall l w, I w -> I (HwDecode.set_lib l w).
Hypothesis I_eprintf : forall msg w,
  I w -> I (HwDecode.set_stderr (HwDecode.stderr w ++ [msg]) w).
Hypothesis I_note : forall e w, I w -> I (HwDecode.set_log (HwDecode.log w ++ [e]) w).
Hypothesis I_packet : forall p w, I w -> I (HwDecode.set_packet p w).
Hypothesis I_fwrite : forall bytes written w,
  I w -> HwDecode.output_file w = Some written ->
  I (HwDecode.set_output_file (Some (written ++ bytes)) w).

Lemma hw_fwrite_keeps (buffer : list byte) (size : Z) :
  invariant I (HwDecode.fwrite buffer size).
Proof.
  intros w Hw. unfold HwDecode.fwrite.
  destruct (HwDecode.output_file w) as [written|] eqn:E; cbn [final]; [|exact Hw].
  apply I_fwrite; assumption.
Qed.

Ltac hw_frame :=
  repeat first
    [ invariant_step
    | apply hw_invariant_call; exact I_lib
    | apply hw_fwrite_keeps
    | apply invariant_modify; intros ? H;
      first [apply I_eprintf | apply I_note | apply I_packet]; exact H ].

Lemma hw_round_keeps : invariant I HwDecode.round.
Proof.
  unfold HwDecode.round, HwDecode.resolve, HwDecode.dump, HwDecode.fail,
    HwDecode.note, HwDecode.eprintf.
  hw_frame.
Qed.

Lemma hw_rounds_keeps (fuel : nat) : invariant I (HwDecode.rounds fuel).
Proof.
  induction fuel as [|fuel IH]; cbn [HwDecode.rounds].
  - apply invariant_out_of_fuel.
  - apply invariant_bind; [apply hw_round_keeps|].
    intros [ret|]; [apply invariant_pure|exact IH].
Qed.

Lemma hw_decode_write_keeps (fuel : nat) (pkt : AVPacket) :
  invariant I (HwDecode.decode_write fuel pkt).
Proof.
  unfold HwDecode.decode_write, HwDecode.note, HwDecode.eprintf.
  apply invariant_bind; [hw_frame|intros s].
  apply invariant_bind; [hw_frame|intros _].
  destruct (s <? 0); [hw_frame|apply hw_rounds_keeps].
Qed.

Lemma hw_read_loop_keeps (video_stream : Z) (fuel : nat) :
  forall ret, invariant I (HwDecode.read_loop fuel video_stream ret).
Proof.
  induction fuel as [|fuel IH]; intros ret; cbn [HwDecode.read_loop].
  - destruct (ret <? 0); [apply invariant_pure|apply invariant_out_of_fuel].
  - destruct (ret <? 0); [apply invariant_pure|]. unfold HwDecode.note.
    apply invariant_bind; [hw_frame|intros [r pkt]].
    apply invariant_bind; [hw_frame|intros _].
    apply invariant_bind; [hw_frame|intros _].
    destruct (r <? 0); [apply invariant_pure|].
    apply invariant_bind.
    + destruct (video_stream =? stream_index pkt);
        [apply hw_decode_write_keeps|apply invariant_pure].
    + intros ret'. apply invariant_bind; [hw_frame|intros _; apply IH].
Qed.

Lemma hw_pump_keeps (video_stream : Z) (fuel : nat) (ret : Z) :
  invariant I (HwDecode.pump fuel video_stream ret).
Proof.
  unfold HwDecode.pump.
  apply invariant_bind; [apply hw_read_loop_keeps|intros _].
  apply invariant_bind; [hw_frame|intros pkt].
  apply invariant_bind; [hw_frame|intros _].
  apply invariant_bind; [apply hw_decode_write_keeps|intros _].
  hw_frame.
Qed.

End HwFrame.

(** ** Rules for the absence of undefined behaviour *)
Section NoFaultRules.
Context {W : Type}.
Variable P : W -> Prop.

Lemma no_fault_pure {A} (a : A) : no_fault P (pure a).
Proof. intros w H. exact H. Qed.

Lemma no_fault_out_of_fuel {A} : no_fault P (@out_of_fuel W A).
Proof. intros w H. exact I. Qed.

Lemma no_fault_gets {A} (f : W -> A) : no_fault P (gets f).
Proof. intros w H. exact H. Qed.

Lemma no_fault_modify (f : W -> W) :
  (forall w, P w -> P (f w)) -> no_fault P (modify f).
Proof. intros Hf w H. apply Hf, H. Qed.

Lemma no_fault_bind {A B} (m : prog W A) (k : A -> prog W B) :
  no_fault P m -> (forall a, no_fault P (k a)) -> no_fault P (bind m k).
Proof.
  intros Hm Hk w H. unfold bind. specialize (Hm w H).
  destruct (m w) as [a w'| | | ]; try exact Hm. apply Hk, Hm.
Qed.

End NoFaultRules.

Ltac no_fault_step :=
  lazymatch goal with
  | |- no_fault _ (bind _ _) => apply no_fault_bind; [|intros]
  | |- no_fault _ (pure _) => apply no_fault_pure
  | |- no_fault _ out_of_fuel => apply no_fault_out_of_fuel
  | |- no_fault _ (gets _) => apply no_fault_gets
  | |- no_fault _ (modify _) => apply no_fault_modify; intros ? H; exact H
  | |- no_fault _ (if ?b then _ else _) => destruct b
  | |- no_fault _ (match ?x with _ => _ end) => destruct x
  end.

Section HwOutput.
Context {av : Libav}.

(** The output file is open. *)
Let opened (w : HwDecode.world) : Prop := HwDecode.output_file w <> None.

Lemma no_fault_hw_call {A} (f : Lib -> A * Lib) : no_fault opened (HwDecode.call f).
Proof. intros w H. exact H. Qed.

Lemma no_fault_hw_fwrite (buffer : list byte) (size : Z) :
  no_fault opened (HwDecode.fwrite buffer size).
Proof.
  intros w H. unfold HwDecode.fwrite.
  destruct (HwDecode.output_file w) eqn:E; [|exact (H E)].
  unfold opened. hw_fields. discriminate.
Qed.

Ltac hw_no_fault :=
  repeat first [ no_fault_step | apply no_fault_hw_call | apply no_fault_hw_fwrite ].

Lemma hw_rounds_no_fault (fuel : nat) : no_fault opened (HwDecode.rounds fuel).
Proof.
  induction fuel as [|fuel IH]; cbn [HwDecode.rounds]; [hw_no_fault|].
  apply no_fault_bind.
  - unfold HwDecode.round, HwDecode.resolve, HwDecode.dump, HwDecode.fail,
      HwDecode.note, HwDecode.eprintf.
    hw_no_fault.
  - intros [ret|]; [hw_no_fault|exact IH].
Qed.

Lemma hw_decode_write_no_fault (fuel : nat) (pkt : AVPacket) :
  no_fault opened (HwDecode.decode_write fuel pkt).
Proof.
  unfold HwDecode.decode_write, HwDecode.note, HwDecode.eprintf.
  apply no_fault_bind; [hw_no_fault|intros ret].
  apply no_fault_bind; [hw_no_fault|intros _].
  destruct (ret <? 0); [hw_no_fault|apply hw_rounds_no_fault].
Qed.

Lemma hw_read_loop_no_fault (video_stream : Z) (fuel : nat) :
  forall ret, no_fault opened (HwDecode.read_loop fuel video_stream ret).
Proof.
  induction fuel as [|fuel IH]; intros ret; cbn [HwDecode.read_loop].
  - hw_no_fault.
  - destruct (ret <? 0); [hw_no_fault|]. unfold HwDecode.note.
    apply no_fault_bind; [hw_no_fault|intros [r pkt]].
    apply no_fault_bind; [hw_no_fault|intros _].
    apply no_fault_bind; [hw_no_fault|intros _].
    destruct (r <? 0); [hw_no_fault|].
    apply no_fault_bind.
    + destruct (video_stream =? stream_index pkt);
        [apply hw_decode_write_no_fault|hw_no_fault].
    + intros ret'. apply no_fault_bind; [hw_no_fault|intros _; apply IH].
Qed.

Lemma hw_pump_no_fault (video_stream : Z) (fuel : nat) (ret : Z) :
  no_fault opened (HwDecode.pump fuel video_stream ret).
Proof.
  unfold HwDecode.pump.
  apply no_fault_bind; [apply hw_read_loop_no_fault|intros _].
  apply no_fault_bind; [hw_no_fault|intros pkt].
  apply no_fault_bind; [hw_no_fault|intros _].
  apply no_fault_bind; [apply hw_decode_write_no_fault|intros _].
  hw_no_fault.
Qed.

(** X13.  [video_hw_decode.cpp] does not test the result of
    [fopen(argv[3], "w+")].  A run ends with a NULL [FILE*] handed to
    [fwrite] only when that call failed: [output_file] is then NULL until
    the first picture is to be written.  With the output file open, no run
    ends that way. *)
Theorem fault_only_without_output_file (fuel : nat) (argv : list string) (l : Lib)
  (pkt0 : AVPacket) (w : HwDecode.world) :
  HwDecode.main fuel argv (HwDecode.start l pkt0) = Fault w ->
  output_opens argv l = false /\ HwDecode.output_file w = None.
Proof.
  intros Hrun.
  destruct (hw_main_setup fuel argv (HwDecode.start l pkt0))
    as [[w' [E _]] | [fmt [_ [[v [w' [E _]]] | [vs [ret [w1 [E [_ Ho]]]]]]]]];
    rewrite E in Hrun; try discriminate Hrun.
  cbn [HwDecode.start HwDecode.lib] in Ho.
  destruct (output_opens argv l).
  - exfalso. pose proof (hw_pump_no_fault vs fuel ret w1) as H.
    rewrite Hrun in H. apply H. unfold opened. rewrite Ho. discriminate.
  - split; [reflexivity|].
    pose proof (hw_pump_keeps (fun w => HwDecode.output_file w = None)) as H.
    specialize (H (fun _ _ H => H) (fun _ _ H => H) (fun _ _ H => H) (fun _ _ H => H)).
    assert (Hw : forall (bytes written : list byte) (w0 : HwDecode.world),
              HwDecode.output_file w0 = None ->
              HwDecode.output_file w0 = Some written ->
              HwDecode.output_file
                (HwDecode.set_output_file (Some (written ++ bytes)) w0) = None).
    { intros bytes written w0 H1 H2. rewrite H1 in H2. discriminate H2. }
    specialize (H Hw vs fuel ret w1 Ho). rewrite Hrun in H. exact H.
Qed.

(** X12.  [decode_write], and the whole read loop with the flush, only
    append to the output file: whatever it held before is still the
    start of its content afterwards, however the run ends. *)
Theorem output_file_append_only (fuel : nat) (video_stream ret : Z) (pkt : AVPacket)
  (w : HwDecode.world) (written : list byte) :
  HwDecode.output_file w = Some written ->
  (exists more,
     HwDecode.output_file (final (HwDecode.decode_write fuel pkt w))
     = Some (written ++ more))
  /\ (exists more,
        HwDecode.output_file (final (HwDecode.pump fuel video_stream ret w))
        = Some (written ++ more)).
Proof.
  intros Hw.
  set (J := fun w : HwDecode.world =>
              exists more, HwDecode.output_file w = Some (written ++ more)).
  assert (HJ : J w). { exists []. rewrite app_nil_r. exact Hw. }
  assert (Hf : forall (bytes written0 : list byte) (w0 : HwDecode.world),
            J w0 -> HwDecode.output_file w0 = Some written0 ->
            J (HwDecode.set_output_file (Some (written0 ++ bytes)) w0)).
  { intros bytes written0 w0 [more Hm] E. rewrite Hm in E. injection E as <-.
    exists (more ++ bytes). hw_fields. rewrite app_assoc. reflexivity. }
  split.
  - exact (hw_decode_write_keeps J (fun _ _ H => H) (fun _ _ H => H) (fun _ _ H => H)
             Hf fuel pkt w HJ).
  - exact (hw_pump_keeps J (fun _ _ H => H) (fun _ _ H => H) (fun _ _ H => H)
             (fun _ _ H => H) Hf video_stream fuel ret w HJ).
Qed.

End HwOutput.

(** ** The result of [decode_write] and the error stream *)
Section HwReports.
Context {av : Libav}.
Hypothesis enomem_negative : AVERROR_ENOMEM < 0.
Variable s0 : list string.

(** Nothing was printed since the start, or something was. *)
Let silent (w : HwDecode.world) : Prop := HwDecode.stderr w = s0.
Let loud (w : HwDecode.world) : Prop :=
  exists msgs, HwDecode.stderr w = s0 ++ msgs /\ msgs <> [].
Let verdict (ret : Z) (w : HwDecode.world) : Prop :=
  (ret = 0 /\ silent w) \/ (ret < 0 /\ loud w).

Ltac shout :=
  match goal with
  | Hw : silent _ |- _ =>
    unfold silent in Hw; unfold loud; eexists [_];
    split; [hw_fields; rewrite Hw; reflexivity|discriminate]
  end.

Lemma hw_dump_reports (tmp_frame : AVFrame) (w : HwDecode.world) :
  silent w ->
  match HwDecode.dump tmp_frame w with
  | Done ret w' => (0 <= ret /\ silent w') \/ (ret < 0 /\ loud w')
  | _ => True
  end.
Proof.
  intros Hw. unfold HwDecode.dump. cbv zeta.
  unfold bind at 1. unfold HwDecode.call at 1.
  destruct (fst (av_malloc _ (HwDecode.lib w))); cbn [negb].
  - unfold bind at 1. cbn [HwDecode.note modify].
    destruct (av_image_copy_to_buffer _ _ _ _ _ _ _) as [ret bytes].
    destruct (ret <? 0) eqn:Hret.
    + cbn. right. split; [apply Z.ltb_lt, Hret|]. shout.
    + unfold bind at 1. unfold HwDecode.fwrite. hw_fields.
      destruct (HwDecode.output_file w); [|exact I].
      cbv beta iota.
      destruct (to_int _ <? 0) eqn:Hr.
      * cbn. right. split; [apply Z.ltb_lt, Hr|]. shout.
      * cbn. left. split; [apply Z.ltb_ge, Hr|exact Hw].
  - cbn. right. split; [exact enomem_negative|]. shout.
Qed.

Lemma hw_resolve_reports (frame : AVFrame) (w : HwDecode.world) :
  silent w ->
  match HwDecode.resolve frame w with
  | Done (inl ret) w' => ret < 0 /\ loud w'
  | Done (inr _) w' => silent w'
  | _ => True
  end.
Proof.
  intros Hw. rewrite resolve_cases.
  destruct (format frame =? HwDecode.hw_pix_fmt w); [|exact Hw].
  destruct (av_hwframe_transfer_data frame (HwDecode.lib w)) as [[ret sw] l'].
  cbv zeta. destruct (ret <? 0) eqn:Hret; [|exact Hw].
  split; [apply Z.ltb_lt, Hret|]. shout.
Qed.

Lemma hw_fail_reports (ret : Z) (w : HwDecode.world) :
  (0 <= ret /\ silent w) \/ (ret < 0 /\ loud w) ->
  match HwDecode.fail ret w with
  | Done (Some ret) w' => verdict ret w'
  | Done None w' => silent w'
  | _ => True
  end.
Proof.
  intros H. unfold HwDecode.fail. destruct (ret <? 0) eqn:Hret; cbn.
  - apply Z.ltb_lt in Hret. right. destruct H as [[H _]|H]; [lia|exact H].
  - apply Z.ltb_ge in Hret. destruct H as [[_ H]|[H _]]; [exact H|lia].
Qed.

Lemma hw_round_reports (w : HwDecode.world) :
  silent w ->
  match HwDecode.round w with
  | Done (Some ret) w' => verdict ret w'
  | Done None w' => silent w'
  | _ => True
  end.
Proof.
  intros Hw.
  assert (Hnomem : forall l,
            match HwDecode.fail AVERROR_ENOMEM
                    (HwDecode.set_stderr
                       (HwDecode.stderr w ++ ["Can not alloc frame" ++ nl]%string)
                       (HwDecode.set_lib l w)) with
            | Done (Some ret) w' => verdict ret w'
            | Done None w' => silent w'
            | _ => True
            end).
  { intros l. apply hw_fail_reports. right. split; [exact enomem_negative|].
    shout. }
  destruct (av_frame_alloc (HwDecode.lib w)) as [f1 l1] eqn:E1.
  destruct f1.
  2:{ unfold HwDecode.round.
      unfold bind at 1. unfold HwDecode.call at 1. rewrite E1. cbn [fst snd].
      unfold bind at 1. cbn [pure negb orb].
      unfold bind at 1. cbn [HwDecode.eprintf modify]. apply Hnomem. }
  destruct (av_frame_alloc l1) as [f2 l2] eqn:E2.
  destruct f2.
  2:{ unfold HwDecode.round.
      unfold bind at 1. unfold HwDecode.call at 1. rewrite E1. cbn [fst snd].
      unfold bind at 1. unfold HwDecode.call at 1. hw_fields. rewrite E2.
      cbn [fst snd negb orb].
      unfold bind at 1. cbn [HwDecode.eprintf modify]. hw_fields. apply Hnomem. }
  pose proof (hw_round w l1 l2 E1 E2) as R.
  destruct (avcodec_receive_frame l2) as [[r frame] l3].
  cbv zeta in R. rewrite R. clear R.
  destruct (stops r).
  { left. split; [reflexivity|exact Hw]. }
  destruct (r <? 0) eqn:Hr.
  { right. split; [apply Z.ltb_lt, Hr|]. shout. }
  rewrite bind_run.
  match goal with |- context [HwDecode.resolve frame ?w1] =>
    pose proof (hw_resolve_reports frame w1 Hw) as H1;
    destruct (HwDecode.resolve frame w1) as [[ret|tmp] w2| | |]; try exact I
  end.
  - apply hw_fail_reports. right. exact H1.
  - rewrite bind_run.
    pose proof (hw_dump_reports tmp w2 H1) as H2.
    destruct (HwDecode.dump tmp w2) as [ret w3| | |]; try exact I.
    apply hw_fail_reports. exact H2.
Qed.

Lemma hw_rounds_reports (fuel : nat) :
  forall w, silent w ->
    match HwDecode.rounds fuel w with
    | Done ret w' => verdict ret w'
    | _ => True
    end.
Proof.
  induction fuel as [|fuel IH]; intros w Hw; cbn [HwDecode.rounds]; [exact I|].
  rewrite bind_run. pose proof (hw_round_reports w Hw) as H.
  destruct (HwDecode.round w) as [[ret|] w1| | |]; try exact I.
  - exact H.
  - apply IH. exact H.
Qed.

Lemma hw_decode_write_reports (fuel : nat) (pkt : AVPacket) (w : HwDecode.world) :
  silent w ->
  match HwDecode.decode_write fuel pkt w with
  | Done ret w' => verdict ret w'
  | _ => True
  end.
Proof.
  intros Hw. unfold HwDecode.decode_write.
  unfold bind at 1. unfold HwDecode.call at 1.
  unfold bind at 1. cbn [HwDecode.note modify].
  destruct (fst (avcodec_send_packet (Some pkt) (HwDecode.lib w)) <? 0) eqn:Hs.
  - cbn. right. split; [apply Z.ltb_lt, Hs|]. shout.
  - apply hw_rounds_reports. exact Hw.
Qed.

End HwReports.

Section HwResults.
Context {av : Libav}.

(** X11.  [decode_write] returns 0 or a negative value, and it reports on
    the error stream exactly when it fails: with result 0 nothing was
    printed, with a negative result at least one line was added.
    (AVERROR(ENOMEM) is negative, as in libavutil.) *)
Theorem decode_write_reports (fuel : nat) (pkt : AVPacket) (w w' : HwDecode.world)
  (ret : Z) :
  AVERROR_ENOMEM < 0 ->
  HwDecode.decode_write fuel pkt w = Done ret w' ->
  (ret = 0 /\ HwDecode.stderr w' = HwDecode.stderr w)
  \/ (ret < 0
      /\ exists msgs, HwDecode.stderr w' = HwDecode.stderr w ++ msgs /\ msgs <> []).
Proof.
  intros Hneg Hrun.
  pose proof (hw_decode_write_reports Hneg (HwDecode.stderr w) fuel pkt w eq_refl) as H.
  rewrite Hrun in H. exact H.
Qed.

(** X9.  When no hardware configuration of the decoder fits the requested
    device type, [main] returns -1 at start-up: no packet is read or
    submitted, and the output file is not opened. *)
Theorem no_fitting_config_is_fatal (fuel : nat) (argv : list string) (l : Lib)
  (pkt0 : AVPacket) :
  Forall (fun c => fits (av_hwdevice_find_type_by_name (nth 1 argv "")) c = false)
    (decoder_configs argv l) ->
  exists w,
    HwDecode.main fuel argv (HwDecode.start l pkt0) = Done (-1) w
    /\ Forall set_up (HwDecode.log w)
    /\ HwDecode.output_file w = None.
Proof.
  intros Hno.
  destruct (hw_main_setup fuel argv (HwDecode.start l pkt0))
    as [[w' [E [Hl [Ho _]]]] | [fmt [Hfind _]]].
  - exists w'. split; [exact E|]. split; [exact Hl|exact Ho].
  - exfalso. cbn [HwDecode.start HwDecode.lib] in Hfind.
    pose proof (find_hw_config_fits (av_hwdevice_find_type_by_name (nth 1 argv ""))
                  (decoder_configs argv l)) as F.
    rewrite Hfind in F. destruct F as [before [c [after [E1 [_ [E3 _]]]]]].
    rewrite E1 in Hno. apply Forall_app in Hno. destruct Hno as [_ Hno].
    inversion Hno as [|? ? Hc _]. rewrite E3 in Hc. discriminate Hc.
Qed.

(** X10.  Once [main] has read a packet or submitted one, the format that
    [decode_write] compares each frame with is the pixel format of the
    first fitting configuration of the decoder; it is set once, before
    the read loop, and never changed. *)
Theorem negotiated_format_in_force (fuel : nat) (argv : list string) (l : Lib)
  (pkt0 : AVPacket) :
  let w := final (HwDecode.main fuel argv (HwDecode.start l pkt0)) in
  Exists (fun e => ~ set_up e) (HwDecode.log w) ->
  first_fit (decoder_configs argv l) (av_hwdevice_find_type_by_name (nth 1 argv ""))
    (HwDecode.hw_pix_fmt w).
Proof.
  cbv zeta. intros Hex.
  assert (Hno : forall log, Forall set_up log -> Exists (fun e => ~ set_up e) log -> False).
  { intros log Hall Hex'. apply Exists_exists in Hex'. destruct Hex' as [e [Hin Hn]].
    rewrite Forall_forall in Hall. exact (Hn (Hall e Hin)). }
  destruct (hw_main_setup fuel argv (HwDecode.start l pkt0))
    as [[w' [E [Hl _]]] | [fmt [Hfind [[v [w' [E [Hl _]]]] | [vs [ret [w1 [E [Hf _]]]]]]]]];
    rewrite E in Hex |- *; cbn [final] in Hex |- *.
  - exfalso. exact (Hno _ Hl Hex).
  - exfalso. exact (Hno _ Hl Hex).
  - cbn [HwDecode.start HwDecode.lib] in Hfind.
    pose proof (find_hw_config_fits (av_hwdevice_find_type_by_name (nth 1 argv ""))
                  (decoder_configs argv l)) as F.
    rewrite Hfind in F.
    assert (Hkeep : HwDecode.hw_pix_fmt (final (HwDecode.pump fuel vs ret w1)) = fmt).
    { refine (hw_pump_keeps (fun w => HwDecode.hw_pix_fmt w = fmt) _ _ _ _ _
                vs fuel ret w1 Hf); intros; assumption. }
    rewrite Hkeep. exact F.
Qed.

(** X14.  A result of [main] other than 0 means that the set-up failed:
    no packet was read or submitted, and the output file was not
    opened. *)
Theorem failed_setup_decodes_nothing (fuel : nat) (argv : list string) (l : Lib)
  (pkt0 : AVPacket) (v : Z) (w : HwDecode.world) :
  HwDecode.main fuel argv (HwDecode.start l pkt0) = Done v w ->
  v <> 0 ->
  Forall set_up (HwDecode.log w) /\ HwDecode.output_file w = None.
Proof.
  intros Hrun Hv.
  destruct (hw_main_setup fuel argv (HwDecode.start l pkt0))
    as [[w' [E [Hl [Ho _]]]]
       | [fmt [_ [[v' [w' [E [Hl [Ho _]]]]] | [vs [ret [w1 [E _]]]]]]]];
    rewrite E in Hrun.
  - injection Hrun as _ <-. split; [exact Hl|exact Ho].
  - injection Hrun as _ <-. split; [exact Hl|exact Ho].
  - exfalso. apply Hv. exact (hw_pump_returns vs fuel ret w1 w v Hrun).
Qed.

End HwResults.

(** ** An unknown device type *)
Section DeviceTypes.
Context {av : Libav}.

Lemma hw_list_types_prints (types : list Z) :
  forall w,
    HwDecode.list_types types w
    = Done tt (HwDecode.set_stderr
                 (HwDecode.stderr w
                  ++ map (fun t => (" " ++ av_hwdevice_get_type_name t)%string) types) w).
Proof.
  induction types as [|t ts IH]; intros w.
  - cbn [HwDecode.list_types map pure]. rewrite app_nil_r. destruct w; reflexivity.
  - cbn [HwDecode.list_types map]. unfold bind at 1. cbn [HwDecode.eprintf modify].
    rewrite IH. hw_fields. rewrite <- app_assoc. reflexivity.
Qed.

(** X16.  With a device type that libavutil does not know, [main] prints
    the name, then the names of all device types the library walks
    through, in its order, and returns -1 without a call of the
    demuxer or the decoder. *)
Theorem unknown_device_type_is_listed (fuel : nat) (argv : list string) (l : Lib)
  (pkt0 : AVPacket) :
  4 <= Z.of_nat (List.length argv) ->
  av_hwdevice_find_type_by_name (nth 1 argv "") = AV_HWDEVICE_TYPE_NONE ->
  HwDecode.main fuel argv (HwDecode.start l pkt0)
  = Done (-1) (HwDecode.set_stderr (device_listing (nth 1 argv ""))
                 (HwDecode.start l pkt0)).
Proof.
  intros Hargc Htype. unfold HwDecode.main.
  assert (H4 : (Z.of_nat (List.length argv) <? 4) = false) by (apply Z.ltb_ge; exact Hargc).
  rewrite H4, Htype, Z.eqb_refl.
  unfold bind at 1. cbn [HwDecode.eprintf modify].
  unfold bind at 1. cbn [HwDecode.eprintf modify].
  unfold bind at 1. rewrite hw_list_types_prints.
  unfold bind at 1. cbn [HwDecode.eprintf modify pure]. hw_fields.
  unfold device_listing. cbn [HwDecode.start HwDecode.stderr app].
  reflexivity.
Qed.

End DeviceTypes.

(** ** The read loop of the hardware decoder ends at the first failure *)
Section HwFailures.
Context {av : Libav}.

Lemma quiet_after_failure_sound (log : list event) :
  quiet_after_failure log = true -> stops_at_failure log.
Proof.
  induction log as [|e0 log IH]; intros H before e after E Hf.
  - destruct before; discriminate E.
  - cbn [quiet_after_failure] in H. apply andb_prop in H. destruct H as [H1 H2].
    destruct before as [|b before]; cbn [app] in E; injection E as -> E.
    + subst log. rewrite Hf in H1. rewrite forallb_forall in H1.
      apply Forall_forall. intros e' He'. apply H1 in He'.
      apply negb_true_iff. exact He'.
    + exact (IH H2 before e after E Hf).
Qed.

(** A log without a failure. *)
Let clean (log : list event) : Prop := existsb failure log = false.
Let no_read (events : list event) : Prop :=
  forallb (fun e' => negb (reads_frame e')) events = true.

Lemma clean_snoc (log : list event) (e : event) :
  clean log -> failure e = false -> clean (log ++ [e]).
Proof.
  unfold clean. intros H He. rewrite existsb_app, H. cbn. rewrite He. reflexivity.
Qed.

Lemma no_read_quiet (events : list event) :
  no_read events -> quiet_after_failure events = true.
Proof.
  unfold no_read. induction events as [|e events IH]; intros H; [reflexivity|].
  cbn [forallb] in H. apply andb_prop in H. destruct H as [_ H].
  cbn [quiet_after_failure]. rewrite (IH H), H. destruct (failure e); reflexivity.
Qed.

Lemma clean_then_quiet (log events : list event) :
  clean log -> quiet_after_failure events = true ->
  quiet_after_failure (log ++ events) = true.
Proof.
  unfold clean. induction log as [|e log IH]; intros Hc H; [exact H|].
  cbn [existsb] in Hc. apply orb_false_iff in Hc. destruct Hc as [He Hc].
  cbn [app quiet_after_failure]. rewrite He, (IH Hc H). reflexivity.
Qed.

Lemma quiet_then_no_read (log events : list event) :
  quiet_after_failure log = true -> no_read events ->
  quiet_after_failure (log ++ events) = true.
Proof.
  unfold no_read. induction log as [|e log IH]; intros H Hn.
  - apply no_read_quiet. exact Hn.
  - cbn [quiet_after_failure] in H. apply andb_prop in H. destruct H as [H1 H2].
    cbn [app quiet_after_failure]. rewrite (IH H2 Hn), andb_true_r.
    destruct (failure e); [|reflexivity].
    rewrite forallb_app, H1, Hn. reflexivity.
Qed.

(** [decode_write] does not call [av_read_frame]. *)
Lemma hw_decode_write_no_read (fuel : nat) (pkt : AVPacket) (w : HwDecode.world) :
  exists events,
    HwDecode.log (final (HwDecode.decode_write fuel pkt w)) = HwDecode.log w ++ events
    /\ no_read events.
Proof.
  apply (hw_decode_write_quiet
           (fun log => exists events, log = HwDecode.log w ++ events /\ no_read events)
           (fun e => negb (reads_frame e))); try reflexivity.
  - intros log e He [events [E Hn]]. exists (events ++ [e]).
    rewrite E, <- app_assoc. split; [reflexivity|].
    unfold no_read in *. rewrite forallb_app, Hn. cbn. rewrite He. reflexivity.
  - exists []. rewrite app_nil_r. split; reflexivity.
Qed.

Lemma hw_dump_clean (tmp_frame : AVFrame) :
  invariant (fun w => clean (HwDecode.log w)) (HwDecode.dump tmp_frame).
Proof.
  unfold HwDecode.dump, HwDecode.note, HwDecode.eprintf.
  repeat first
    [ invariant_step
    | apply hw_invariant_call; intros ? ? H; exact H
    | apply hw_invariant_fwrite; intros ? ? H; exact H
    | apply invariant_modify; intros ? H;
      first [exact H | hw_fields; apply clean_snoc; [exact H|reflexivity]] ].
Qed.

(** One round of [decode_write] that goes on, or ends with 0, has met no
    failure. *)
Lemma hw_round_clean (w : HwDecode.world) :
  clean (HwDecode.log w) ->
  match HwDecode.round w with
  | Done (Some ret) w' => 0 <= ret -> clean (HwDecode.log w')
  | Done None w' => clean (HwDecode.log w')
  | _ => True
  end.
Proof.
  intros Hw.
  assert (Hfail : forall ret w1,
            (0 <= ret -> clean (HwDecode.log w1)) ->
            match HwDecode.fail ret w1 with
            | Done (Some ret) w' => 0 <= ret -> clean (HwDecode.log w')
            | Done None w' => clean (HwDecode.log w')
            | _ => True
            end).
  { intros ret w1 H. unfold HwDecode.fail. destruct (ret <? 0) eqn:Hret; cbn.
    - exact H.
    - apply H. apply Z.ltb_ge, Hret. }
  destruct (av_frame_alloc (HwDecode.lib w)) as [f1 l1] eqn:E1.
  destruct f1.
  2:{ unfold HwDecode.round.
      unfold bind at 1. unfold HwDecode.call at 1. rewrite E1. cbn [fst snd].
      unfold bind at 1. cbn [pure negb orb].
      unfold bind at 1. cbn [HwDecode.eprintf modify]. apply Hfail.
      intros _. exact Hw. }
  destruct (av_frame_alloc l1) as [f2 l2] eqn:E2.
  destruct f2.
  2:{ unfold HwDecode.round.
      unfold bind at 1. unfold HwDecode.call at 1. rewrite E1. cbn [fst snd].
      unfold bind at 1. unfold HwDecode.call at 1. hw_fields. rewrite E2.
      cbn [fst snd negb orb].
      unfold bind at 1. cbn [HwDecode.eprintf modify]. hw_fields. apply Hfail.
      intros _. exact Hw. }
  pose proof (hw_round w l1 l2 E1 E2) as R.
  destruct (avcodec_receive_frame l2) as [[r frame] l3].
  cbv zeta in R. rewrite R. clear R.
  destruct (stops r) eqn:Hstop.
  { intros _. hw_fields. apply clean_snoc; [exact Hw|]. cbn [failure].
    rewrite Hstop. reflexivity. }
  destruct (r <? 0) eqn:Hr.
  { intros H. apply Z.ltb_lt in Hr. lia. }
  assert (H1 : clean (HwDecode.log w ++ [EvReceiveFrame r (format frame) (frame_number l3)])).
  { apply clean_snoc; [exact Hw|]. cbn [failure]. rewrite Hr. apply andb_false_r. }
  rewrite bind_run. rewrite resolve_cases. hw_fields.
  assert (Hdump : forall tmp w2,
            clean (HwDecode.log w2) ->
            match bind (HwDecode.dump tmp) HwDecode.fail w2 with
            | Done (Some ret) w' => 0 <= ret -> clean (HwDecode.log w')
            | Done None w' => clean (HwDecode.log w')
            | _ => True
            end).
  { intros tmp w2 H2. rewrite bind_run.
    pose proof (hw_dump_clean tmp w2 H2) as Hd.
    destruct (HwDecode.dump tmp w2) as [ret w3| | |]; try exact I.
    apply Hfail. intros _. exact Hd. }
  destruct (format frame =? HwDecode.hw_pix_fmt w).
  - destruct (av_hwframe_transfer_data frame l3) as [[ret sw] l4]. cbv zeta.
    destruct (ret <? 0) eqn:Hret.
    + apply Hfail. intros H. apply Z.ltb_lt in Hret. lia.
    + apply Hdump. hw_fields. apply clean_snoc; [exact H1|]. exact Hret.
  - apply Hdump. exact H1.
Qed.

Lemma hw_rounds_clean (fuel : nat) :
  forall w, clean (HwDecode.log w) ->
    match HwDecode.rounds fuel w with
    | Done ret w' => 0 <= ret -> clean (HwDecode.log w')
    | _ => True
    end.
Proof.
  induction fuel as [|fuel IH]; intros w Hw; cbn [HwDecode.rounds]; [exact I|].
  rewrite bind_run. pose proof (hw_round_clean w Hw) as H.
  destruct (HwDecode.round w) as [[ret|] w1| | |]; try exact I.
  - exact H.
  - apply IH. exact H.
Qed.

(** [decode_write] returns a value that is not negative only when it has
    met no failure. *)
Lemma hw_decode_write_clean (fuel : nat) (pkt : AVPacket) (w : HwDecode.world) :
  clean (HwDecode.log w) ->
  match HwDecode.decode_write fuel pkt w with
  | Done ret w' => 0 <= ret -> clean (HwDecode.log w')
  | _ => True
  end.
Proof.
  intros Hw. unfold HwDecode.decode_write.
  unfold bind at 1. unfold HwDecode.call at 1.
  unfold bind at 1. cbn [HwDecode.note modify].
  destruct (fst (avcodec_send_packet (Some pkt) (HwDecode.lib w)) <? 0) eqn:Hs.
  - cbn. intros H. apply Z.ltb_lt in Hs. lia.
  - apply hw_rounds_clean. hw_fields. apply clean_snoc; [exact Hw|exact Hs].
Qed.

Lemma hw_read_loop_stops (video_stream : Z) (fuel : nat) :
  forall ret w,
    (0 <= ret -> clean (HwDecode.log w)) ->
    quiet_after_failure (HwDecode.log w) = true ->
    quiet_after_failure
      (HwDecode.log (final (HwDecode.read_loop fuel video_stream ret w))) = true.
Proof.
  induction fuel as [|fuel IH]; intros ret w Hc Hq; cbn [HwDecode.read_loop].
  - destruct (ret <? 0); exact Hq.
  - destruct (ret <? 0) eqn:Hret; [exact Hq|].
    apply Z.ltb_ge in Hret. specialize (Hc Hret).
    rewrite bind_run. unfold HwDecode.call at 1.
    destruct (av_read_frame (HwDecode.lib w)) as [[r pkt] l1]. cbn [fst snd].
    rewrite bind_run. cbn [modify].
    rewrite bind_run. cbn [HwDecode.note modify]. hw_fields.
    assert (Hq1 : quiet_after_failure (HwDecode.log w ++ [EvReadFrame r pkt]) = true).
    { apply clean_then_quiet; [exact Hc|]. cbn. destruct (r <? 0); reflexivity. }
    destruct (r <? 0) eqn:Hr; [exact Hq1|].
    assert (Hc1 : clean (HwDecode.log w ++ [EvReadFrame r pkt])).
    { apply clean_snoc; [exact Hc|exact Hr]. }
    rewrite bind_run.
    destruct (video_stream =? stream_index pkt).
    + match goal with |- context [HwDecode.decode_write fuel pkt ?w1] =>
        destruct (hw_decode_write_no_read fuel pkt w1) as [events [E Hn]];
        pose proof (hw_decode_write_clean fuel pkt w1 Hc1) as Hd;
        destruct (HwDecode.decode_write fuel pkt w1) as [ret' w2| | |];
        cbn [final] in E |- *; hw_fields_in E;
        try (rewrite E; apply quiet_then_no_read; assumption)
      end.
      rewrite bind_run. cbn [modify]. apply IH.
      * exact Hd.
      * hw_fields. rewrite E. apply quiet_then_no_read; assumption.
    + cbn [pure]. rewrite bind_run. cbn [modify]. apply IH.
      * intros _. exact Hc1.
      * exact Hq1.
Qed.

Lemma hw_pump_stops (video_stream : Z) (fuel : nat) (ret : Z) (w : HwDecode.world) :
  clean (HwDecode.log w) ->
  quiet_after_failure
    (HwDecode.log (final (HwDecode.pump fuel video_stream ret w))) = true.
Proof.
  intros Hc. unfold HwDecode.pump. rewrite bind_run.
  assert (Hq : quiet_after_failure (HwDecode.log w) = true).
  { rewrite <- (app_nil_r (HwDecode.log w)). apply clean_then_quiet; [exact Hc|reflexivity]. }
  pose proof (hw_read_loop_stops video_stream fuel ret w (fun _ => Hc) Hq) as H.
  destruct (HwDecode.read_loop fuel video_stream ret w) as [r w1| | |];
    cbn [final] in H; try exact H.
  rewrite bind_run. cbn [gets]. rewrite bind_run. cbn [modify]. rewrite bind_run.
  match goal with |- context [HwDecode.decode_write fuel ?pkt ?w2] =>
    destruct (hw_decode_write_no_read fuel pkt w2) as [events [E Hn]];
    destruct (HwDecode.decode_write fuel pkt w2) as [ret' w3| | |];
    cbn [final] in E |- *; hw_fields_in E;
    try (rewrite E; apply quiet_then_no_read; assumption)
  end.
  rewrite bind_run. cbn [modify pure final]. hw_fields.
  rewrite E. apply quiet_then_no_read; assumption.
Qed.

(** X17.  The read loop of [video_hw_decode.cpp] ends at the first
    failure: in any run, cut off anywhere, no call of [av_read_frame]
    follows a packet that the decoder rejected, a retrieval that failed, a
    device-to-host transfer that failed, or a read that failed or found
    the end of the container.  What may still follow is the flush. *)
Theorem read_loop_stops_at_failure (fuel : nat) (argv : list string) (l : Lib)
  (pkt0 : AVPacket) :
  stops_at_failure
    (HwDecode.log (final (HwDecode.main fuel argv (HwDecode.start l pkt0)))).
Proof.
  apply quiet_after_failure_sound.
  destruct (hw_main_cases fuel argv (HwDecode.start l pkt0))
    as [[v [w' [E [_ [[Hl|[r Hl]] _]]]]] | [vs [ret [w1 [E [Hl _]]]]]]; rewrite E.
  - cbn [final]. rewrite Hl. reflexivity.
  - cbn [final]. rewrite Hl. reflexivity.
  - apply hw_pump_stops. unfold clean. rewrite Hl. reflexivity.
Qed.

End HwFailures.

(** ** The hardware decoder on the toy library *)

(** A decoder whose only configuration is for the toy device but does not
    work through a device context: [main] gives up after it has found
    the video stream. *)
Lemma no_fitting_config_is_fatal_witness :
  let av := toy_with_configs [mkHWConfig 9 2 2] in
  Forall (fun c => @fits av (@av_hwdevice_find_type_by_name av "toy") c = false)
    (@decoder_configs av ["hw"; "toy"; "in"; "out"] (Toy.fresh 0 [] []))
  /\ exists w,
       @HwDecode.main av 10 ["hw"; "toy"; "in"; "out"]
         (@HwDecode.start av (Toy.fresh 0 [] []) Toy.empty_packet) = Done (-1) w
       /\ HwDecode.log w = [EvBestStream 1]
       /\ Forall set_up (HwDecode.log w)
       /\ HwDecode.output_file w = None.
Proof.
  cbv zeta.
  assert (H : Forall (fun c => @fits (toy_with_configs [mkHWConfig 9 2 2])
                                 (@av_hwdevice_find_type_by_name
                                    (toy_with_configs [mkHWConfig 9 2 2]) "toy") c
                               = false)
                (@decoder_configs (toy_with_configs [mkHWConfig 9 2 2])
                   ["hw"; "toy"; "in"; "out"] (Toy.fresh 0 [] []))).
  { repeat constructor. }
  split; [exact H|].
  destruct (@no_fitting_config_is_fatal (toy_with_configs [mkHWConfig 9 2 2]) 10
              ["hw"; "toy"; "in"; "out"] (Toy.fresh 0 [] []) Toy.empty_packet H)
    as [w [E [Hl Ho]]].
  exists w. split; [exact E|]. split; [|split; [exact Hl|exact Ho]].
  assert (Hb : match @HwDecode.main (toy_with_configs [mkHWConfig 9 2 2]) 10
                       ["hw"; "toy"; "in"; "out"]
                       (@HwDecode.start (toy_with_configs [mkHWConfig 9 2 2])
                          (Toy.fresh 0 [] []) Toy.empty_packet) with
               | Done _ w' => match HwDecode.log w' with
                              | [EvBestStream r] => r =? 1
                              | _ => false
                              end
               | _ => false
               end = true).
  { vm_compute. reflexivity. }
  rewrite E in Hb.
  destruct (HwDecode.log w) as [|[| | | | | | | | |r] [|e rest]]; try discriminate Hb.
  apply Z.eqb_eq in Hb. subst r. reflexivity.
Defined.

Lemma not_set_up_exists (log : list event) :
  existsb (fun e => match e with EvBestStream _ => false | _ => true end) log = true ->
  Exists (fun e => ~ set_up e) log.
Proof.
  intros H. apply existsb_exists in H. destruct H as [e [Hin He]].
  apply Exists_exists. exists e. split; [exact Hin|].
  destruct e; try discriminate He; intros [].
Qed.

(** One packet of the selected stream goes through the toy device: the
    format in force is 5, that of the second configuration, the first one
    that works through a device context. *)
Lemma negotiated_format_in_force_witness :
  let w := final (@HwDecode.main Toy.lib 10 ["hw"; "toy"; "in"; "out"]
                    (@HwDecode.start Toy.lib (Toy.fresh 0 [] [Toy.packet_of 1 [1; 2; 3]])
                       Toy.empty_packet)) in
  Exists (fun e => ~ set_up e) (HwDecode.log w)
  /\ HwDecode.hw_pix_fmt w = 5
  /\ @first_fit Toy.lib
       (@decoder_configs Toy.lib ["hw"; "toy"; "in"; "out"]
          (Toy.fresh 0 [] [Toy.packet_of 1 [1; 2; 3]]))
       (@av_hwdevice_find_type_by_name Toy.lib "toy") (HwDecode.hw_pix_fmt w).
Proof.
  cbv zeta.
  pose proof (@negotiated_format_in_force Toy.lib 10 ["hw"; "toy"; "in"; "out"]
                (Toy.fresh 0 [] [Toy.packet_of 1 [1; 2; 3]]) Toy.empty_packet) as T.
  cbv zeta in T.
  remember (final (@HwDecode.main Toy.lib 10 ["hw"; "toy"; "in"; "out"]
                     (@HwDecode.start Toy.lib (Toy.fresh 0 [] [Toy.packet_of 1 [1; 2; 3]])
                        Toy.empty_packet))) as w eqn:Hw.
  assert (Hb : existsb (fun e => match e with EvBestStream _ => false | _ => true end)
                 (HwDecode.log w) && (HwDecode.hw_pix_fmt w =? 5) = true).
  { subst w. vm_compute. reflexivity. }
  apply andb_prop in Hb. destruct Hb as [He Hf].
  apply not_set_up_exists in He. apply Z.eqb_eq in Hf.
  split; [exact He|]. split; [exact Hf|]. exact (T He).
Defined.

(** A transfer that fails with -5: [decode_write] returns -5 and has
    printed one line. *)
Lemma decode_write_reports_witness :
  @AVERROR_ENOMEM Toy.lib < 0
  /\ exists w,
       @HwDecode.decode_write Toy.lib 5 (Toy.packet_of 1 [1; 2; 3])
         (Toy.hw_running 0 (-5) []) = Done (-5) w
       /\ exists msgs, HwDecode.stderr w = [] ++ msgs /\ msgs <> [].
Proof.
  split; [reflexivity|].
  remember (@HwDecode.decode_write Toy.lib 5 (Toy.packet_of 1 [1; 2; 3])
              (Toy.hw_running 0 (-5) [])) as o eqn:Ho.
  assert (Hd : match o with Done v _ => v =? -5 | _ => false end = true).
  { subst o. vm_compute. reflexivity. }
  destruct o as [v w| | |]; try discriminate Hd.
  apply Z.eqb_eq in Hd. subst v. exists w. split; [reflexivity|].
  destruct (@decode_write_reports Toy.lib 5 (Toy.packet_of 1 [1; 2; 3])
              (Toy.hw_running 0 (-5) []) w (-5) eq_refl (eq_sym Ho))
    as [[H _]|[_ H]]; [discriminate H|exact H].
Defined.

(** A file that already holds two bytes keeps them through the run. *)
Lemma output_file_append_only_witness :
  let w := HwDecode.set_output_file (Some [9; 9])
             (Toy.hw_running 0 0 [Toy.packet_of 1 [1; 2; 3]]) in
  HwDecode.output_file w = Some [9; 9]
  /\ (exists more,
        HwDecode.output_file
          (final (@HwDecode.decode_write Toy.lib 5 (Toy.packet_of 1 [1; 2; 3]) w))
        = Some ([9; 9] ++ more))
  /\ (exists more,
        HwDecode.output_file (final (@HwDecode.pump Toy.lib 5 1 0 w))
        = Some ([9; 9] ++ more)).
Proof.
  cbv zeta. split; [reflexivity|].
  exact (@output_file_append_only Toy.lib 5 1 0 (Toy.packet_of 1 [1; 2; 3])
           (HwDecode.set_output_file (Some [9; 9])
              (Toy.hw_running 0 0 [Toy.packet_of 1 [1; 2; 3]]))
           [9; 9] eq_refl).
Defined.

(** The toy library cannot open a file without a name: the first picture
    that is to be written stops the run. *)
Lemma fault_only_without_output_file_witness :
  exists w,
    @HwDecode.main Toy.lib 10 ["hw"; "toy"; "in"; ""]
      (Toy.hw_decoding 0 [Toy.packet_of 1 [1; 2; 3]]) = Fault w
    /\ @output_opens Toy.lib ["hw"; "toy"; "in"; ""]
         (Toy.fresh 0 [] [Toy.packet_of 1 [1; 2; 3]]) = false
    /\ HwDecode.output_file w = None.
Proof.
  remember (@HwDecode.main Toy.lib 10 ["hw"; "toy"; "in"; ""]
              (Toy.hw_decoding 0 [Toy.packet_of 1 [1; 2; 3]])) as o eqn:Ho.
  assert (Hd : match o with Fault _ => true | _ => false end = true).
  { subst o. vm_compute. reflexivity. }
  destruct o as [| |w|]; try discriminate Hd.
  exists w. split; [reflexivity|].
  exact (@fault_only_without_output_file Toy.lib 10 ["hw"; "toy"; "in"; ""]
           (Toy.fresh 0 [] [Toy.packet_of 1 [1; 2; 3]]) Toy.empty_packet w (eq_sym Ho)).
Defined.

(** Too few arguments: -1, and nothing was read. *)
Lemma failed_setup_decodes_nothing_witness :
  exists w,
    @HwDecode.main Toy.lib 10 ["hw"] (Toy.hw_decoding 0 [Toy.packet_of 1 [1; 2; 3]])
    = Done (-1) w
    /\ -1 <> 0
    /\ Forall set_up (HwDecode.log w) /\ HwDecode.output_file w = None.
Proof.
  remember (@HwDecode.main Toy.lib 10 ["hw"]
              (Toy.hw_decoding 0 [Toy.packet_of 1 [1; 2; 3]])) as o eqn:Ho.
  assert (Hd : match o with Done v _ => v =? -1 | _ => false end = true).
  { subst o. vm_compute. reflexivity. }
  destruct o as [v w| | |]; try discriminate Hd.
  apply Z.eqb_eq in Hd. subst v. exists w. split; [reflexivity|].
  split; [discriminate|].
  apply (@failed_setup_decodes_nothing Toy.lib 10 ["hw"]
           (Toy.fresh 0 [] [Toy.packet_of 1 [1; 2; 3]]) Toy.empty_packet (-1) w);
    [symmetry; exact Ho|discriminate].
Defined.

(** The toy library knows one device type. *)
Lemma unknown_device_type_is_listed_witness :
  4 <= Z.of_nat (List.length ["hw"; "cuda"; "in"; "out"])
  /\ @av_hwdevice_find_type_by_name Toy.lib "cuda" = @AV_HWDEVICE_TYPE_NONE Toy.lib
  /\ exists w,
       @HwDecode.main Toy.lib 10 ["hw"; "cuda"; "in"; "out"] (Toy.hw_decoding 0 [])
       = Done (-1) w
       /\ HwDecode.stderr w
          = ["Device type cuda is not supported." ++ nl; "Available device types:";
             " toy"; nl]%string.
Proof.
  assert (H4 : 4 <= Z.of_nat (List.length ["hw"; "cuda"; "in"; "out"])) by (cbn; lia).
  split; [exact H4|]. split; [reflexivity|].
  eexists. split.
  - exact (@unknown_device_type_is_listed Toy.lib 10 ["hw"; "cuda"; "in"; "out"]
             (Toy.fresh 0 [] []) Toy.empty_packet H4 eq_refl).
  - reflexivity.
Defined.

(** * Failures: the transfer, the flush, the exit status *)

(** ** A transfer that fails *)
Section Transfers.
Context {av : Libav}.

Let sound (events : list event) : Prop :=
  Forall (fun e => failed_transfer e = false) events.

Lemma sound_snoc (events : list event) (e : event) :
  sound events -> failed_transfer e = false -> sound (events ++ [e]).
Proof.
  intros H He. apply Forall_app. split; [exact H|]. constructor; [exact He|constructor].
Qed.

(** The events a step appends to the log of [w]. *)
Let grown (w : HwDecode.world) (P : list event -> Prop) (w' : HwDecode.world) : Prop :=
  exists events, HwDecode.log w' = HwDecode.log w ++ events /\ P events.

Lemma hw_dump_sound (w : HwDecode.world) (tmp_frame : AVFrame) :
  invariant (grown w sound) (HwDecode.dump tmp_frame).
Proof.
  assert (Hcopy : forall e w1, failed_transfer e = false -> grown w sound w1 ->
            grown w sound (HwDecode.set_log (HwDecode.log w1 ++ [e]) w1)).
  { intros e w1 He [events [E H]]. exists (events ++ [e]). hw_fields.
    rewrite E, <- app_assoc. split; [reflexivity|]. apply sound_snoc; assumption. }
  unfold HwDecode.dump, HwDecode.note, HwDecode.eprintf.
  repeat first
    [ invariant_step
    | apply hw_invariant_call; intros ? ? H; exact H
    | apply hw_invariant_fwrite; intros ? ? H; exact H
    | apply invariant_modify; intros ? H;
      first [exact H | apply Hcopy; [reflexivity|exact H]] ].
Qed.

(** One round of [decode_write]: when it goes on, no transfer has failed;
    when it ends, a transfer that failed is its last event and its result
    is the result of the round. *)
Lemma hw_round_transfers (w : HwDecode.world) :
  match HwDecode.round w with
  | Done (Some v) w' => grown w (fun events => ends_at_failed_transfer events v) w'
  | Done None w' => grown w sound w'
  | _ => True
  end.
Proof.
  assert (Hfail : forall ret w1,
            grown w sound w1 ->
            match HwDecode.fail ret w1 with
            | Done (Some v) w' => grown w (fun events => ends_at_failed_transfer events v) w'
            | Done None w' => grown w sound w'
            | _ => True
            end).
  { intros ret w1 [events [E H]]. unfold HwDecode.fail. destruct (ret <? 0); cbn.
    - exists events. split; [exact E|]. left. exact H.
    - exists events. split; [exact E|exact H]. }
  assert (Hnil : forall w1 : HwDecode.world,
            HwDecode.log w1 = HwDecode.log w -> grown w sound w1).
  { intros w1 E. exists []. rewrite app_nil_r. split; [exact E|constructor]. }
  destruct (av_frame_alloc (HwDecode.lib w)) as [f1 l1] eqn:E1.
  destruct f1.
  2:{ unfold HwDecode.round.
      unfold bind at 1. unfold HwDecode.call at 1. rewrite E1. cbn [fst snd].
      unfold bind at 1. cbn [pure negb orb].
      unfold bind at 1. cbn [HwDecode.eprintf modify]. apply Hfail.
      apply Hnil. reflexivity. }
  destruct (av_frame_alloc l1) as [f2 l2] eqn:E2.
  destruct f2.
  2:{ unfold HwDecode.round.
      unfold bind at 1. unfold HwDecode.call at 1. rewrite E1. cbn [fst snd].
      unfold bind at 1. unfold HwDecode.call at 1. hw_fields. rewrite E2.
      cbn [fst snd negb orb].
      unfold bind at 1. cbn [HwDecode.eprintf modify]. hw_fields. apply Hfail.
      apply Hnil. reflexivity. }
  pose proof (hw_round w l1 l2 E1 E2) as R.
  destruct (avcodec_receive_frame l2) as [[r frame] l3].
  cbv zeta in R. rewrite R. clear R.
  set (ev := EvReceiveFrame r (format frame) (frame_number l3)).
  assert (H1 : sound [ev]). { constructor; [reflexivity|constructor]. }
  destruct (stops r).
  { exists [ev]. split; [reflexivity|]. left. exact H1. }
  destruct (r <? 0).
  { exists [ev]. split; [reflexivity|]. left. exact H1. }
  rewrite bind_run. rewrite resolve_cases. hw_fields.
  assert (Hdump : forall tmp w2,
            grown w sound w2 ->
            match bind (HwDecode.dump tmp) HwDecode.fail w2 with
            | Done (Some v) w' => grown w (fun events => ends_at_failed_transfer events v) w'
            | Done None w' => grown w sound w'
            | _ => True
            end).
  { intros tmp w2 H2. rewrite bind_run.
    pose proof (hw_dump_sound w tmp w2 H2) as Hd.
    destruct (HwDecode.dump tmp w2) as [ret w3| | |]; try exact I.
    apply Hfail. exact Hd. }
  destruct (format frame =? HwDecode.hw_pix_fmt w).
  - destruct (av_hwframe_transfer_data frame l3) as [[ret sw] l4]. cbv zeta.
    destruct (ret <? 0) eqn:Hret.
    + unfold HwDecode.fail. rewrite Hret. cbn [pure].
      exists [ev; EvTransfer ret]. hw_fields. split.
      * rewrite <- app_assoc. reflexivity.
      * right. exists [ev]. split; [reflexivity|].
        split; [apply Z.ltb_lt, Hret|exact H1].
    + apply Hdump. exists [ev; EvTransfer ret]. hw_fields. split.
      * rewrite <- app_assoc. reflexivity.
      * constructor; [reflexivity|]. constructor; [exact Hret|constructor].
  - apply Hdump. exists [ev]. split; [reflexivity|exact H1].
Qed.

Lemma ends_after_sound (events1 events2 : list event) (v : Z) :
  sound events1 -> ends_at_failed_transfer events2 v ->
  ends_at_failed_transfer (events1 ++ events2) v.
Proof.
  intros H1 [H2 | [front [E [Hv H2]]]].
  - left. apply Forall_app. split; assumption.
  - right. exists (events1 ++ front). rewrite E, app_assoc.
    split; [reflexivity|]. split; [exact Hv|]. apply Forall_app. split; assumption.
Qed.

Lemma hw_rounds_transfers (fuel : nat) :
  forall w,
    match HwDecode.rounds fuel w with
    | Done v w' => grown w (fun events => ends_at_failed_transfer events v) w'
    | _ => True
    end.
Proof.
  induction fuel as [|fuel IH]; intros w; cbn [HwDecode.rounds]; [exact I|].
  rewrite bind_run. pose proof (hw_round_transfers w) as H.
  destruct (HwDecode.round w) as [[ret|] w1| | |]; try exact I.
  - exact H.
  - destruct H as [events1 [E1 H1]].
    specialize (IH w1).
    destruct (HwDecode.rounds fuel w1) as [v w2| | |]; try exact I.
    destruct IH as [events2 [E2 H2]].
    exists (events1 ++ events2). split.
    + rewrite E2, E1, app_assoc. reflexivity.
    + apply ends_after_sound; assumption.
Qed.

Lemma hw_decode_write_transfers (fuel : nat) (pkt : AVPacket) (w : HwDecode.world) :
  match HwDecode.decode_write fuel pkt w with
  | Done v w' => grown w (fun events => ends_at_failed_transfer events v) w'
  | _ => True
  end.
Proof.
  unfold HwDecode.decode_write.
  rewrite bind_run. unfold HwDecode.call at 1.
  rewrite bind_run. cbn [HwDecode.note modify].
  set (ev := EvSendPacket (Some pkt) (fst (avcodec_send_packet (Some pkt) (HwDecode.lib w)))).
  destruct (fst (avcodec_send_packet (Some pkt) (HwDecode.lib w)) <? 0).
  - cbn. exists [ev]. split; [reflexivity|]. left. constructor; [reflexivity|constructor].
  - match goal with |- context [HwDecode.rounds fuel ?w1] =>
      pose proof (hw_rounds_transfers fuel w1) as H;
      destruct (HwDecode.rounds fuel w1) as [v w2| | |]; try exact I
    end.
    destruct H as [events [E H]]. hw_fields_in E.
    exists (ev :: events). split.
    + rewrite E, <- app_assoc. reflexivity.
    + apply (ends_after_sound [ev]); [|exact H].
      constructor; [reflexivity|constructor].
Qed.

(** C6.  [decode_write] calls the device-to-host transfer on a received
    frame exactly when the frame's pixel format is [hw_pix_fmt]: the
    picture is then read from the frame that the transfer filled,
    otherwise from the received frame itself, and no transfer takes place.
    When the transfer fails, in whatever round of [while (true)], the
    round ends at once: a line goes to the error stream, nothing is
    written to the output file, and the negative result of the transfer
    is what the loop and [decode_write] return to the caller. *)
Theorem transfer_iff_hw_format :
  (forall frame (w : HwDecode.world),
      format frame <> HwDecode.hw_pix_fmt w ->
      HwDecode.resolve frame w = Done (inr frame) w)
  /\ (forall frame (w : HwDecode.world) ret sw_frame l',
      format frame = HwDecode.hw_pix_fmt w ->
      av_hwframe_transfer_data frame (HwDecode.lib w) = (ret, sw_frame, l') ->
      0 <= ret ->
      HwDecode.resolve frame w =
        Done (inr sw_frame)
          (HwDecode.set_log (HwDecode.log w ++ [EvTransfer ret]) (HwDecode.set_lib l' w)))
  /\ (forall frame (w : HwDecode.world) ret sw_frame l',
      format frame = HwDecode.hw_pix_fmt w ->
      av_hwframe_transfer_data frame (HwDecode.lib w) = (ret, sw_frame, l') ->
      ret < 0 ->
      HwDecode.resolve frame w =
        Done (inl ret)
          (HwDecode.set_stderr
             (HwDecode.stderr w
              ++ ["Error transferring the data to system memory" ++ nl]%string)
             (HwDecode.set_log (HwDecode.log w ++ [EvTransfer ret])
                (HwDecode.set_lib l' w))))
  /\ (forall fuel (w : HwDecode.world) l1 l2 r frame l3 ret sw_frame l4,
      av_frame_alloc (HwDecode.lib w) = (true, l1) ->
      av_frame_alloc l1 = (true, l2) ->
      avcodec_receive_frame l2 = (r, frame, l3) -> produced r = true ->
      format frame = HwDecode.hw_pix_fmt w ->
      av_hwframe_transfer_data frame l3 = (ret, sw_frame, l4) ->
      ret < 0 ->
      exists w', HwDecode.rounds (S fuel) w = Done ret w'
                 /\ HwDecode.stderr w'
                    = HwDecode.stderr w
                      ++ ["Error transferring the data to system memory" ++ nl]%string
                 /\ HwDecode.output_file w' = HwDecode.output_file w
                 /\ HwDecode.log w'
                    = HwDecode.log w
                      ++ [EvReceiveFrame r (format frame) (frame_number l3);
                          EvTransfer ret])
  /\ (forall fuel pkt (w : HwDecode.world) v w',
      HwDecode.decode_write fuel pkt w = Done v w' ->
      exists events,
        HwDecode.log w' = HwDecode.log w ++ events
        /\ ends_at_failed_transfer events v).
Proof.
  split; [|split; [|split; [|split]]].
  - intros frame w Hne. rewrite resolve_cases.
    apply Z.eqb_neq in Hne. rewrite Hne. reflexivity.
  - intros frame w ret sw l' Heq E Hret. rewrite resolve_cases.
    apply Z.eqb_eq in Heq. rewrite Heq, E.
    apply Z.ltb_ge in Hret. rewrite Hret. reflexivity.
  - intros frame w ret sw l' Heq E Hret. rewrite resolve_cases.
    apply Z.eqb_eq in Heq. rewrite Heq, E.
    apply Z.ltb_lt in Hret. rewrite Hret. reflexivity.
  - intros fuel w l1 l2 r frame l3 ret sw l4 E1 E2 E3 Hr Hfmt E4 Hret.
    cbn [HwDecode.rounds]. unfold bind at 1.
    pose proof (hw_round w l1 l2 E1 E2) as R.
    rewrite E3 in R. cbv zeta in R. rewrite R. clear R.
    unfold produced in Hr. apply andb_prop in Hr. destruct Hr as [Hr1 Hr2].
    apply negb_true_iff in Hr1. apply negb_true_iff in Hr2.
    unfold stops. rewrite Hr1, Hr2.
    unfold bind at 1. rewrite resolve_cases.
    cbn [HwDecode.hw_pix_fmt HwDecode.set_log HwDecode.set_lib HwDecode.lib].
    apply Z.eqb_eq in Hfmt. rewrite Hfmt. rewrite E4.
    apply Z.ltb_lt in Hret. rewrite Hret.
    unfold HwDecode.fail. rewrite Hret.
    eexists. split; [reflexivity|].
    cbn. repeat split. rewrite <- !app_assoc. reflexivity.
  - intros fuel pkt w v w' Hrun.
    pose proof (hw_decode_write_transfers fuel pkt w) as H.
    rewrite Hrun in H. exact H.
Qed.

End Transfers.

(** On the toy device: a frame of another format is used as it is; a
    frame of format 5 is fetched; a transfer that fails with -5 ends
    [resolve], the loop, here entered with a frame waiting in the engine,
    and [decode_write] with -5, and nothing is written. *)
Lemma transfer_iff_hw_format_witness :
  @HwDecode.resolve Toy.lib (Toy.picture 1 0) (Toy.hw_running 0 0 [])
    = Done (inr (Toy.picture 1 0)) (Toy.hw_running 0 0 [])
  /\ (exists w', @HwDecode.resolve Toy.lib (Toy.picture 5 0) (Toy.hw_running 0 0 [])
                   = Done (inr (Toy.picture 1 0)) w'
                 /\ HwDecode.log w' = [EvTransfer 0])
  /\ (exists w', @HwDecode.resolve Toy.lib (Toy.picture 5 0) (Toy.hw_running 0 (-5) [])
                   = Done (inl (-5)) w'
                 /\ HwDecode.log w' = [EvTransfer (-5)])
  /\ (exists w', @HwDecode.rounds Toy.lib 1
                   (@HwDecode.set_lib Toy.lib
                      (Toy.set_engine 1 false 0 (Toy.with_transfer (-5) (Toy.fresh 0 [] [])))
                      (Toy.hw_running 0 (-5) [])) = Done (-5) w'
                 /\ HwDecode.output_file w' = Some [])
  /\ (exists w' events,
        @HwDecode.decode_write Toy.lib 2 (Toy.packet_of 1 [9]) (Toy.hw_running 0 (-5) [])
        = Done (-5) w'
        /\ HwDecode.log w' = events
        /\ @ends_at_failed_transfer events (-5)).
Proof.
  destruct (@transfer_iff_hw_format Toy.lib) as [H1 [H2 [H3 [H4 H5]]]].
  split; [|split; [|split; [|split]]].
  - apply H1. cbn. lia.
  - eexists. split.
    + apply (H2 (Toy.picture 5 0) (Toy.hw_running 0 0 []) 0 (Toy.picture 1 0)
                (Toy.with_transfer 0 (Toy.fresh 0 [] []))).
      * reflexivity.
      * reflexivity.
      * lia.
    + reflexivity.
  - eexists. split.
    + apply (H3 (Toy.picture 5 0) (Toy.hw_running 0 (-5) []) (-5) (Toy.picture 1 0)
                (Toy.with_transfer (-5) (Toy.fresh 0 [] []))).
      * reflexivity.
      * reflexivity.
      * lia.
    + reflexivity.
  - set (s1 := Toy.set_engine 1 false 0 (Toy.with_transfer (-5) (Toy.fresh 0 [] []))).
    destruct (H4 0%nat (@HwDecode.set_lib Toy.lib s1 (Toy.hw_running 0 (-5) []))
                 s1 s1 0 (Toy.picture 5 1) (Toy.take s1)
                 (-5) (Toy.picture 1 1) (Toy.take s1)) as [w' [E [_ [O _]]]].
    + reflexivity.
    + reflexivity.
    + reflexivity.
    + reflexivity.
    + reflexivity.
    + reflexivity.
    + lia.
    + exists w'. split; [exact E|exact O].
  - remember (@HwDecode.decode_write Toy.lib 2 (Toy.packet_of 1 [9])
                (Toy.hw_running 0 (-5) [])) as o eqn:Ho.
    assert (Hdone : match o with Done v _ => v =? -5 | _ => false end = true).
    { subst o. vm_compute. reflexivity. }
    destruct o as [v w'| | |]; try discriminate Hdone.
    apply Z.eqb_eq in Hdone. subst v.
    destruct (H5 2%nat (Toy.packet_of 1 [9]) (Toy.hw_running 0 (-5) []) (-5) w'
                 (eq_sym Ho)) as [events [E Hev]].
    exists w', events. split; [reflexivity|]. split; [exact E|exact Hev].
Defined.

(** ** One flush on the hardware path *)
Section FlushOnce.
Context {av : Libav}.
Variable draining : Lib -> Prop.
Hypothesis contract : flush_contract draining.
Hypothesis closed : closed_after_flush draining.

(** As long as nothing was reported on the error stream, either no flush
    request was submitted, or the decoder was asked to flush and takes no
    more packets. *)
Let tidy (w : HwDecode.world) : Prop :=
  HwDecode.stderr w = [] ->
  Forall (fun e => flushes e = false) (HwDecode.log w) \/ draining (HwDecode.lib w).

Lemma tidy_call {A} (f : Lib -> A * Lib) :
  (forall l, draining l -> draining (snd (f l))) -> invariant tidy (HwDecode.call f).
Proof.
  intros Hf w Hw Hs. hw_fields_in Hs. hw_fields.
  destruct (Hw Hs) as [H|H]; [left; exact H|right; apply Hf, H].
Qed.

Lemma tidy_note (e : event) :
  flushes e = false -> invariant tidy (HwDecode.note e).
Proof.
  intros He w Hw Hs. cbn [HwDecode.note modify final] in *. hw_fields_in Hs. hw_fields.
  destruct (Hw Hs) as [H|H]; [left|right; exact H].
  apply Forall_app. split; [exact H|]. constructor; [exact He|constructor].
Qed.

Lemma tidy_eprintf (msg : string) : invariant tidy (HwDecode.eprintf msg).
Proof.
  intros w _ Hs. cbn [HwDecode.eprintf modify final] in Hs. hw_fields_in Hs.
  exfalso. exact (app_cons_not_nil _ _ _ (eq_sym Hs)).
Qed.

Lemma tidy_fwrite (buffer : list byte) (size : Z) :
  invariant tidy (HwDecode.fwrite buffer size).
Proof.
  intros w Hw. unfold HwDecode.fwrite.
  destruct (HwDecode.output_file w); cbn [final]; exact Hw.
Qed.

Lemma tidy_packet (f : HwDecode.world -> AVPacket) :
  invariant tidy (modify (fun w => HwDecode.set_packet (f w) w)).
Proof. intros w Hw. exact Hw. Qed.

Lemma hw_round_tidy : invariant tidy HwDecode.round.
Proof.
  destruct contract as [_ [_ [Hrecv [_ [_ [Halloc [Htransfer Hmalloc]]]]]]].
  unfold HwDecode.round, HwDecode.resolve, HwDecode.dump, HwDecode.fail.
  repeat first
    [ invariant_step
    | apply tidy_eprintf
    | apply tidy_fwrite
    | apply tidy_note; reflexivity
    | apply tidy_call;
      first [ exact Halloc
            | exact (fun l H => proj2 (Hrecv l H))
            | apply Htransfer
            | apply Hmalloc ] ].
Qed.

Lemma hw_rounds_tidy (fuel : nat) : invariant tidy (HwDecode.rounds fuel).
Proof.
  induction fuel as [|fuel IH]; cbn [HwDecode.rounds].
  - apply invariant_out_of_fuel.
  - apply invariant_bind; [apply hw_round_tidy|].
    intros [ret|]; [apply invariant_pure|exact IH].
Qed.

Lemma hw_decode_write_tidy (fuel : nat) (pkt : AVPacket) :
  invariant tidy (HwDecode.decode_write fuel pkt).
Proof.
  destruct contract as [Hsend _]. destruct closed as [Hclosed _].
  intros w Hw. unfold HwDecode.decode_write.
  rewrite bind_run. unfold HwDecode.call at 1.
  rewrite bind_run. cbn [HwDecode.note modify].
  specialize (Hsend (Some pkt) (HwDecode.lib w)).
  specialize (Hclosed (Some pkt) (HwDecode.lib w)).
  destruct (avcodec_send_packet (Some pkt) (HwDecode.lib w)) as [s l0].
  cbn [fst snd] in *.
  destruct (s <? 0) eqn:Hs.
  - rewrite bind_run. cbn [HwDecode.eprintf modify pure final].
    intros H. hw_fields_in H. exfalso. exact (app_cons_not_nil _ _ _ (eq_sym H)).
  - apply Z.ltb_ge in Hs. apply hw_rounds_tidy.
    intros Hq. hw_fields_in Hq. hw_fields.
    destruct (Hw Hq) as [H|H].
    + destruct (no_payload (Some pkt)) eqn:Hp.
      * right. apply Hsend; [reflexivity|exact Hs].
      * left. apply Forall_app. split; [exact H|].
        constructor; [exact Hp|constructor].
    + specialize (Hclosed H). lia.
Qed.

Lemma hw_read_loop_tidy (video_stream : Z) (fuel : nat) :
  forall ret, invariant tidy (HwDecode.read_loop fuel video_stream ret).
Proof.
  destruct closed as [_ Hread].
  induction fuel as [|fuel IH]; intros ret; cbn [HwDecode.read_loop].
  - destruct (ret <? 0); [apply invariant_pure|apply invariant_out_of_fuel].
  - destruct (ret <? 0); [apply invariant_pure|].
    apply invariant_bind; [apply tidy_call; exact Hread|intros [r pkt]].
    apply invariant_bind; [apply (tidy_packet (fun _ => pkt))|intros _].
    apply invariant_bind; [apply tidy_note; reflexivity|intros _].
    destruct (r <? 0); [apply invariant_pure|].
    apply invariant_bind.
    + destruct (video_stream =? stream_index pkt);
        [apply hw_decode_write_tidy|apply invariant_pure].
    + intros ret'. apply invariant_bind; [|intros _; apply IH].
      apply (tidy_packet (fun w => av_packet_unref (HwDecode.packet w))).
Qed.

(** The parts of a run of [pump] that returns. *)
Lemma hw_pump_parts (fuel : nat) (video_stream ret : Z) (w w' : HwDecode.world) (v : Z) :
  HwDecode.pump fuel video_stream ret w = Done v w' ->
  exists r1 w1 r2 w2,
    HwDecode.read_loop fuel video_stream ret w = Done r1 w1
    /\ HwDecode.decode_write fuel (HwDecode.flush_packet (HwDecode.packet w1))
         (HwDecode.set_packet (HwDecode.flush_packet (HwDecode.packet w1)) w1)
       = Done r2 w2
    /\ w' = HwDecode.set_packet (av_packet_unref (HwDecode.packet w2)) w2.
Proof.
  unfold HwDecode.pump. intros Hrun.
  rewrite bind_run in Hrun.
  destruct (HwDecode.read_loop fuel video_stream ret w) as [r1 w1| | |];
    try discriminate Hrun.
  rewrite bind_run in Hrun. cbn [gets] in Hrun.
  rewrite bind_run in Hrun. cbn [modify] in Hrun.
  rewrite bind_run in Hrun.
  destruct (HwDecode.decode_write fuel _ _) as [r2 w2| | |] eqn:Hd;
    try discriminate Hrun.
  rewrite bind_run in Hrun. cbn [modify pure] in Hrun.
  injection Hrun as _ Hw. subst w'.
  exists r1, w1, r2, w2. split; [reflexivity|]. split; [exact Hd|reflexivity].
Qed.

(** A packet handed to a decoder that takes no more packets. *)
Lemma hw_decode_write_rejected (fuel : nat) (pkt : AVPacket) (w w' : HwDecode.world)
  (v : Z) :
  draining (HwDecode.lib w) ->
  HwDecode.decode_write fuel pkt w = Done v w' -> v < 0.
Proof.
  destruct closed as [Hclosed _].
  intros Hd Hrun. specialize (Hclosed (Some pkt) (HwDecode.lib w) Hd).
  unfold HwDecode.decode_write in Hrun.
  rewrite bind_run in Hrun. unfold HwDecode.call at 1 in Hrun.
  rewrite bind_run in Hrun. cbn [HwDecode.note modify] in Hrun.
  apply Z.ltb_lt in Hclosed. rewrite Hclosed in Hrun.
  rewrite bind_run in Hrun. cbn [HwDecode.eprintf modify pure] in Hrun.
  injection Hrun as Hv _. subst v. apply Z.ltb_lt, Hclosed.
Qed.

Lemma hw_pump_flushed_once (fuel : nat) (video_stream ret : Z) (w w' : HwDecode.world)
  (v : Z) :
  AVERROR_ENOMEM < 0 ->
  Forall (fun e => flushes e = false) (HwDecode.log w) ->
  HwDecode.pump fuel video_stream ret w = Done v w' ->
  HwDecode.stderr w' = [] ->
  flushed_and_drained (HwDecode.log w').
Proof.
  intros Hneg Hw Hrun Hs.
  destruct (hw_pump_parts fuel video_stream ret w w' v Hrun)
    as [r1 [w1 [r2 [w2 [E1 [E2 Ew]]]]]].
  subst w'. hw_fields_in Hs. hw_fields.
  assert (H1 : tidy w1).
  { pose proof (hw_read_loop_tidy video_stream fuel ret w (fun _ => or_introl Hw)) as H.
    rewrite E1 in H. exact H. }
  pose proof (hw_decode_write_reports Hneg (HwDecode.stderr w1) fuel
                (HwDecode.flush_packet (HwDecode.packet w1))
                (HwDecode.set_packet (HwDecode.flush_packet (HwDecode.packet w1)) w1)
                eq_refl) as Hv.
  rewrite E2 in Hv.
  destruct Hv as [[Hr2 Hq] | [_ [msgs [Hq Hm]]]].
  2:{ exfalso. rewrite Hs in Hq. symmetry in Hq. apply app_eq_nil in Hq.
      apply Hm. exact (proj2 Hq). }
  subst r2. rewrite Hs in Hq. symmetry in Hq.
  destruct (H1 Hq) as [Hlog | Hd].
  - destruct (hw_decode_write_flush draining contract fuel
                (HwDecode.flush_packet (HwDecode.packet w1)) _ _ eq_refl E2)
      as [s [events [Hl Hdr]]].
    hw_fields_in Hl.
    exists (HwDecode.log w1), (EvSendPacket (Some (HwDecode.flush_packet (HwDecode.packet w1))) s),
      events.
    split; [exact Hl|]. split; [exact Hlog|]. split; [reflexivity|exact Hdr].
  - exfalso.
    pose proof (hw_decode_write_rejected fuel _
                  (HwDecode.set_packet (HwDecode.flush_packet (HwDecode.packet w1)) w1)
                  _ _ Hd E2) as H.
    lia.
Qed.

Lemma hw_main_flushed (fuel : nat) (argv : list string) (l : Lib) (pkt0 : AVPacket)
  (w : HwDecode.world) :
  AVERROR_ENOMEM < 0 ->
  HwDecode.main fuel argv (HwDecode.start l pkt0) = Done 0 w ->
  HwDecode.stderr w = [] ->
  flushed_and_drained (HwDecode.log w).
Proof.
  intros Hneg Hrun Hs.
  destruct (hw_main_cases fuel argv (HwDecode.start l pkt0))
    as [[v [w' [E [Hv _]]]] | [vs [ret [w1 [E [Hl _]]]]]]; rewrite E in Hrun.
  - injection Hrun as Hv0 _. lia.
  - apply (hw_pump_flushed_once fuel vs ret w1 w 0 Hneg); [|exact Hrun|exact Hs].
    rewrite Hl. cbn [HwDecode.start HwDecode.log app].
    constructor; [reflexivity|constructor].
Qed.

End FlushOnce.

Section FlushTheorem.
Context {av : Libav}.

Lemma flushed_and_drained_last (log : list event) :
  flushed_and_drained log ->
  exists front last, log = front ++ [last] /\ exhausted last.
Proof.
  intros [before [flush [events [E [_ [_ [outputs [last [E' [_ Hl]]]]]]]]]].
  exists (before ++ flush :: outputs), last. split; [|exact Hl].
  rewrite E, E', <- app_assoc. reflexivity.
Qed.

(** C2, as the code has it.  Let the engine keep what libavcodec documents
    for a flush: once a flush request is accepted, a receive call never
    answers AVERROR(EAGAIN).  Then a run of [video_decode.cpp] or of
    [video_encode.cpp] that returns has made exactly one submission
    without payload (the NULL packet, the NULL frame), after all its other
    submissions, and has then retrieved output until the engine answered
    AVERROR_EOF.  [main] of [video_hw_decode.cpp] returns 0 also when
    [decode_write] has failed.  For it the same holds of a run that
    returns 0 and has written nothing to the error stream, when the
    decoder, once asked to flush, takes no further packet, as libavcodec
    documents too: the one submission without payload is then the packet
    with [data = NULL] and [size = 0] that [main] builds after the read
    loop. *)
Theorem one_flush_then_drained (draining : Lib -> Prop) :
  flush_contract draining ->
  (forall fuel argv l v w,
      Decode.main fuel argv (Decode.start l) = Done v w ->
      flushed_and_drained (Decode.log w))
  /\ (forall fuel argv l v w,
        Encode.main fuel argv (Encode.start l) = Done v w ->
        flushed_and_drained (Encode.log w))
  /\ (closed_after_flush draining ->
      AVERROR_ENOMEM < 0 ->
      forall fuel argv l pkt0 w,
        HwDecode.main fuel argv (HwDecode.start l pkt0) = Done 0 w ->
        HwDecode.stderr w = [] ->
        flushed_and_drained (HwDecode.log w)).
Proof.
  intros contract. split; [|split].
  - intros fuel argv l v w. apply (decode_main_flushed draining contract).
  - intros fuel argv l v w. apply (encode_main_flushed draining contract).
  - intros closed Hneg fuel argv l pkt0 w.
    apply (hw_main_flushed draining contract closed fuel argv l pkt0 w Hneg).
Qed.

End FlushTheorem.

(** The toy decoder takes no packet once it was asked to flush, and its
    demuxer does not touch the decoder. *)
Lemma toy_closed_after_flush :
  @closed_after_flush Toy.lib (fun s => Toy.draining s = true).
Proof.
  split.
  - intros pkt s H. cbn [avcodec_send_packet Toy.lib]. unfold Toy.send.
    rewrite H. cbn. reflexivity.
  - intros s H. cbn [av_read_frame Toy.lib]. unfold Toy.read_frame.
    destruct (Toy.container s); exact H.
Qed.

(** C2 fails as it is stated on the hardware path.  On the toy library,
    which keeps the contract of a flush: with a device whose transfers
    fail and a decoder that holds one picture back, [main] submits the
    flush packet, the transfer of the picture that comes out fails, and
    [main] returns 0 although the engine never answered AVERROR_EOF; and
    with a container whose first packet of the selected stream has
    [size = 0], [main] returns 0 after two submissions without
    payload. *)
Lemma one_flush_then_drained_counterexample :
  (let o := @HwDecode.main Toy.lib 20 ["hwdecode"; "toy"; "in"; "out"]
              (@HwDecode.start Toy.lib
                 (Toy.with_transfer (-5) (Toy.fresh 1 [] [Toy.packet_of 1 [2]]))
                 Toy.empty_packet) in
   match o with Done v _ => v = 0 | _ => False end
   /\ List.length (filter flushes (HwDecode.log (final o))) = 1%nat
   /\ ~ @flushed_and_drained Toy.lib (HwDecode.log (final o)))
  /\ (let o := @HwDecode.main Toy.lib 20 ["hwdecode"; "toy"; "in"; "out"]
                 (Toy.hw_decoding 0 [mkPacket None 0 0 1; Toy.packet_of 1 [2]]) in
      match o with Done v _ => v = 0 | _ => False end
      /\ List.length (filter flushes (HwDecode.log (final o))) = 2%nat
      /\ ~ @flushed_and_drained Toy.lib (HwDecode.log (final o))).
Proof.
  split; cbv zeta; (split; [vm_compute; reflexivity|]);
    (split; [vm_compute; reflexivity|]).
  - intros H. apply flushed_and_drained_last in H. destruct H as [front [last [E Hx]]].
    apply (f_equal (@rev event)) in E. rewrite rev_app_distr in E.
    cbn [rev app] in E. vm_compute in E. injection E as E _. subst last. exact Hx.
  - intros H. apply flushed_and_drained_last in H. destruct H as [front [last [E Hx]]].
    apply (f_equal (@rev event)) in E. rewrite rev_app_distr in E.
    cbn [rev app] in E. vm_compute in E. injection E as E _. subst last. exact Hx.
Qed.

(** Full runs of the toy decoder and of the toy hardware decoder: one
    flush, then a complete drain. *)
Lemma one_flush_then_drained_witness :
  (exists w,
    @Decode.main Toy.lib 50 ["decode"; "in"; "out"; "toy"]
      (Toy.decoding 1 [1; 2; 3; 4; 5; 6; 7; 8; 9; 10]) = Done 0 w
    /\ @flushed_and_drained Toy.lib (Decode.log w))
  /\ (exists w,
       @HwDecode.main Toy.lib 20 ["hwdecode"; "toy"; "in"; "out"]
         (Toy.hw_decoding 1 [Toy.packet_of 0 [1]; Toy.packet_of 1 [2]; Toy.packet_of 1 [4]])
       = Done 0 w
       /\ @flushed_and_drained Toy.lib (HwDecode.log w)).
Proof.
  destruct (@one_flush_then_drained Toy.lib _ toy_flush_contract) as [Hd [_ Hh]].
  split.
  - remember (@Decode.main Toy.lib 50 ["decode"; "in"; "out"; "toy"]
                (Toy.decoding 1 [1; 2; 3; 4; 5; 6; 7; 8; 9; 10])) as o eqn:Ho.
    assert (Hdone : match o with Done v _ => v =? 0 | _ => false end = true).
    { subst o. vm_compute. reflexivity. }
    destruct o as [v w| | |]; try discriminate Hdone.
    apply Z.eqb_eq in Hdone. subst v.
    exists w. split; [reflexivity|].
    exact (Hd 50%nat ["decode"; "in"; "out"; "toy"]
              (Toy.fresh 1 [1; 2; 3; 4; 5; 6; 7; 8; 9; 10] []) 0 w (eq_sym Ho)).
  - remember (@HwDecode.main Toy.lib 20 ["hwdecode"; "toy"; "in"; "out"]
                (Toy.hw_decoding 1
                   [Toy.packet_of 0 [1]; Toy.packet_of 1 [2]; Toy.packet_of 1 [4]]))
      as o eqn:Ho.
    assert (Hdone : match o with
                    | Done v w => (v =? 0) && (List.length (HwDecode.stderr w) =? 0)%nat
                    | _ => false
                    end = true).
    { subst o. vm_compute. reflexivity. }
    destruct o as [v w| | |]; try discriminate Hdone.
    apply andb_prop in Hdone. destruct Hdone as [Hv Hs].
    apply Z.eqb_eq in Hv. subst v.
    apply Nat.eqb_eq in Hs. apply length_zero_iff_nil in Hs.
    exists w. split; [reflexivity|].
    refine (Hh toy_closed_after_flush _ 20%nat ["hwdecode"; "toy"; "in"; "out"]
              (Toy.fresh 1 [] [Toy.packet_of 0 [1]; Toy.packet_of 1 [2]; Toy.packet_of 1 [4]])
              Toy.empty_packet w (eq_sym Ho) Hs).
    reflexivity.
Defined.

(** ** The exit status *)
Section NoFaultMore.
Context {W : Type}.
Variable P : W -> Prop.

Lemma no_fault_exit {A} (code : Z) : no_fault P (@exit W A code).
Proof. intros w H. exact I. Qed.

Lemma no_fault_when (b : bool) (m : prog W unit) : no_fault P m -> no_fault P (when b m).
Proof. intros Hm. destruct b; [exact Hm|apply no_fault_pure]. Qed.

End NoFaultMore.

Section ExitStatus.
Context {av : Libav}.

Let any (w : Decode.world) : Prop := True.

Lemma no_fault_decode_call {A} (f : Lib -> A * Lib) : no_fault any (Decode.call f).
Proof. intros w H. exact H. Qed.

Ltac decode_no_fault :=
  repeat first
    [ no_fault_step
    | apply no_fault_exit
    | apply no_fault_when
    | apply no_fault_decode_call
    | apply no_fault_modify; intros ? H; exact H ].

Lemma decode_pgm_save_no_fault (base : string) (buf : Z -> byte) (wrap xsize ysize count : Z) :
  frames_can_be_saved base ->
  no_fault any (Decode.pgm_save buf wrap xsize ysize (artifact_name base count)).
Proof.
  intros Hopen w _. unfold Decode.pgm_save.
  rewrite bind_run. unfold Decode.call at 1. rewrite Hopen. cbn. exact I.
Qed.

Lemma decode_drain_no_fault (base : string) (fuel : nat) :
  frames_can_be_saved base ->
  forall ret, no_fault any (Decode.drain fuel base ret).
Proof.
  intros Hopen.
  induction fuel as [|fuel IH]; intros ret; cbn [Decode.drain].
  - decode_no_fault.
  - destruct (ret <? 0); [decode_no_fault|].
    unfold Decode.note, Decode.eprintf, Decode.printf.
    apply no_fault_bind; [decode_no_fault|intros [r frame]].
    apply no_fault_bind; [decode_no_fault|intros count].
    apply no_fault_bind; [decode_no_fault|intros _].
    destruct (_ || _); [decode_no_fault|]. destruct (r <? 0); [decode_no_fault|].
    apply no_fault_bind; [decode_no_fault|intros n].
    apply no_fault_bind; [decode_no_fault|intros _].
    apply no_fault_bind; [|intros _; apply IH].
    apply (decode_pgm_save_no_fault base _ _ _ _ n Hopen).
Qed.

Lemma decode_no_fault (base : string) (fuel : nat) (pkt : option AVPacket) :
  frames_can_be_saved base -> no_fault any (Decode.decode fuel pkt base).
Proof.
  intros Hopen. unfold Decode.decode, Decode.note, Decode.eprintf.
  apply no_fault_bind; [decode_no_fault|intros ret].
  apply no_fault_bind; [decode_no_fault|intros _].
  destruct (ret <? 0); [decode_no_fault|apply decode_drain_no_fault, Hopen].
Qed.








Let any_encode (w : Encode.world) : Prop := True.

Lemma no_fault_encode_call {A} (f : Lib -> A * Lib) : no_fault any_encode (Encode.call f).
Proof. intros w H. exact H. Qed.

Ltac encode_no_fault :=
  repeat first
    [ no_fault_step
    | apply no_fault_exit
    | apply no_fault_when
    | apply no_fault_encode_call
    | apply no_fault_modify; intros ? H; exact H ].

Lemma encode_drain_no_fault (fuel : nat) :
  forall ret, no_fault any_encode (Encode.drain fuel ret).
Proof.
  induction fuel as [|fuel IH]; intros ret; cbn [Encode.drain].
  - encode_no_fault.
  - destruct (ret <? 0); [encode_no_fault|].
    unfold Encode.note, Encode.eprintf, Encode.printf, Encode.fwrite.
    apply no_fault_bind; [encode_no_fault|intros [r pkt]].
    apply no_fault_bind; [encode_no_fault|intros _].
    destruct (_ || _); [encode_no_fault|]. destruct (r <? 0); [encode_no_fault|].
    apply no_fault_bind; [encode_no_fault|intros _].
    apply no_fault_bind; [encode_no_fault|intros _]. apply IH.
Qed.

Lemma encode_no_fault (fuel : nat) (frame : option AVFrame) :
  no_fault any_encode (Encode.encode fuel frame).
Proof.
  unfold Encode.encode, Encode.note, Encode.eprintf, Encode.printf.
  apply no_fault_bind; [encode_no_fault|intros _].
  apply no_fault_bind; [encode_no_fault|intros ret].
  apply no_fault_bind; [encode_no_fault|intros _].
  destruct (ret <? 0); [encode_no_fault|apply encode_drain_no_fault].
Qed.





End ExitStatus.

Section ExitTheorem.
Context {av : Libav}.




End ExitTheorem.



